(** * lead2lead: the CNPJ ingestion pipeline, embedded and verified

  A shallow embedding of [scripts/cnpj_ingest_duckdb.py],
  [scripts/cnpj_ingest_duckdb_v2.py] and [scripts/renomear_colunas.py].

  Conventions of the embedding.
  - Python [str] values are [string]s whose characters are code points
    below 256 (ASCII and Latin-1); [bytes] are [list byte].
  - Exceptions are the [Raise] constructor of [result].
  - The file system is a finite map from paths to contents, the network a
    function from requests to responses together with a log of the requests
    that were sent. *)

From Stdlib Require Import List Bool Arith NArith ZArith Lia.
From Stdlib Require Import Strings.Ascii Strings.String Strings.Byte.
From Stdlib Require Import DecimalString DecimalN.
From stdpp Require Import base option list strings gmap sorting.

Import ListNotations.
Local Open Scope string_scope.
Local Open Scope list_scope.

(* stdpp freezes [String.append] under [simpl]; the proofs below unfold it. *)
#[local] Arguments String.append !s1 s2 : simpl nomatch.

(** ** Text: the [str] methods the scripts use *)

Module Text.

Definition code (c : ascii) : N := N_of_ascii c.

Definition in_range (lo hi : N) (c : ascii) : bool :=
  (lo <=? code c)%N && (code c <=? hi)%N.

(** [str.lower] on one Latin-1 character: A-Z and the accented capitals
    U+00C0..U+00DE (the multiplication sign U+00D7 apart) move up by 32. *)
Definition lower_char (c : ascii) : ascii :=
  if in_range 65 90 c then ascii_of_N (code c + 32)
  else if in_range 192 222 c && negb (code c =? 215)%N
       then ascii_of_N (code c + 32)
       else c.

Fixpoint lower (s : string) : string :=
  match s with
  | EmptyString => EmptyString
  | String c s' => String (lower_char c) (lower s')
  end.

(** [s.startswith(p)] *)
Fixpoint startswith (p s : string) : bool :=
  match p, s with
  | EmptyString, _ => true
  | String a p', String b s' => if Ascii.eqb a b then startswith p' s' else false
  | String _ _, EmptyString => false
  end.

(** [p in s] *)
Fixpoint contains (p s : string) : bool :=
  startswith p s ||
  match s with
  | EmptyString => false
  | String _ s' => contains p s'
  end.

(** [s.endswith(p)] *)
Fixpoint endswith (p s : string) : bool :=
  (String.length s =? String.length p)%nat && String.eqb s p ||
  match s with
  | EmptyString => false
  | String _ s' => endswith p s'
  end.

(** [s.endswith((p1, p2, ...))] *)
Definition endswith_any (ps : list string) (s : string) : bool :=
  existsb (fun p => endswith p s) ps.

(** [c in s] for one character. *)
Fixpoint has_char (c : ascii) (s : string) : bool :=
  match s with
  | EmptyString => false
  | String b s' => Ascii.eqb c b || has_char c s'
  end.

(** [any(p(c) for c in s)] *)
Fixpoint any_char (p : ascii -> bool) (s : string) : bool :=
  match s with
  | EmptyString => false
  | String b s' => p b || any_char p s'
  end.

(** [all(p(c) for c in s)] *)
Fixpoint all_char (p : ascii -> bool) (s : string) : bool :=
  match s with
  | EmptyString => true
  | String b s' => p b && all_char p s'
  end.

(** A string with one Latin-1 character [n] between two ASCII parts; the
    accented keywords of the scripts are written with it. *)
Definition with_latin1 (pre : string) (n : N) (post : string) : string :=
  pre ++ String (ascii_of_N n) post.

(** [str(n)] for a natural number. *)
Definition decimal (n : N) : string := NilEmpty.string_of_uint (N.to_uint n).

(** [f"{n:02d}"]: decimal, padded with a zero to two digits. *)
Definition decimal02 (n : N) : string :=
  if (n <? 10)%N then String "0" (decimal n) else decimal n.

Definition is_digit (c : ascii) : bool := in_range 48 57 c.

(** The number that a string of decimal digits writes. *)
Definition parse_decimal (s : string) : option N :=
  option_map N.of_uint (NilEmpty.uint_of_string s).

(** [s.split(sep)] for a one-character separator. *)
Fixpoint split_on (sep : ascii) (s : string) : list string :=
  match s with
  | EmptyString => [EmptyString]
  | String c s' =>
      if Ascii.eqb c sep then EmptyString :: split_on sep s'
      else match split_on sep s' with
           | [] => [String c EmptyString]
           | x :: xs => String c x :: xs
           end
  end.

(** [s[:n]] *)
Fixpoint take (n : N) (s : string) : string :=
  match s with
  | EmptyString => EmptyString
  | String c s' => if (n =? 0)%N then EmptyString else String c (take (N.pred n) s')
  end.

(** White space in the sense of [str.strip()], below code point 256. *)
Definition is_space (c : ascii) : bool :=
  in_range 9 13 c || in_range 28 32 c || (code c =? 133)%N || (code c =? 160)%N.

Lemma length_append (s1 s2 : string) :
  String.length (s1 ++ s2) = String.length s1 + String.length s2.
Proof. induction s1 as [|c s1 IH]; cbn; [reflexivity|now rewrite IH]. Qed.


Lemma length_lower (s : string) : String.length (lower s) = String.length s.
Proof. induction s as [|c s IH]; cbn; [reflexivity|now rewrite IH]. Qed.

Lemma lower_append (s1 s2 : string) : lower (s1 ++ s2) = (lower s1 ++ lower s2)%string.
Proof. induction s1 as [|c s1 IH]; cbn; [reflexivity|now rewrite IH]. Qed.

Lemma endswith_unfold (p s : string) :
  endswith p s =
    ((String.length s =? String.length p)%nat && String.eqb s p ||
     match s with EmptyString => false | String _ s' => endswith p s' end).
Proof. destruct s; reflexivity. Qed.

Lemma endswith_refl (p : string) : endswith p p = true.
Proof. rewrite endswith_unfold, Nat.eqb_refl, String.eqb_refl. reflexivity. Qed.

Lemma endswith_append (s p : string) : endswith p (s ++ p) = true.
Proof.
  induction s as [|c s IH]; cbn [String.append].
  - apply endswith_refl.
  - rewrite endswith_unfold, IH. apply orb_true_r.
Qed.

Lemma endswith_length (p s : string) :
  endswith p s = true -> String.length p <= String.length s.
Proof.
  induction s as [|c s IH]; rewrite endswith_unfold.
  - rewrite orb_false_r. intros H. apply andb_true_iff in H as [H _].
    apply Nat.eqb_eq in H. lia.
  - intros H. apply orb_true_iff in H as [H|H].
    + apply andb_true_iff in H as [H _]. apply Nat.eqb_eq in H. lia.
    + apply IH in H. cbn [String.length]. lia.
Qed.

Lemma endswith_split (p s : string) :
  endswith p s = true <-> exists pre, s = (pre ++ p)%string.
Proof.
  induction s as [|c s IH]; rewrite endswith_unfold.
  - rewrite orb_false_r. split.
    + intros H. apply andb_true_iff in H as [_ H]. apply String.eqb_eq in H.
      exists "". now rewrite <- H.
    + intros (pre & H). destruct pre; [|discriminate]. cbn in H. subst p. reflexivity.
  - split.
    + intros H. apply orb_true_iff in H as [H|H].
      * apply andb_true_iff in H as [_ H]. apply String.eqb_eq in H.
        exists "". now rewrite <- H.
      * apply IH in H as (pre & ->). now exists (String c pre).
    + intros (pre & H). destruct pre as [|d pre].
      * cbn in H. subst p. now rewrite Nat.eqb_refl, String.eqb_refl.
      * injection H as <- ->. apply orb_true_iff. right. apply IH. now exists pre.
Qed.

Lemma lower_split (a b : string) : forall g,
  lower g = (a ++ b)%string ->
  exists x y, g = (x ++ y)%string /\ lower x = a /\ lower y = b.
Proof.
  induction a as [|c a IH]; intros g H.
  - exists "", g. auto.
  - destruct g as [|d g]; [discriminate|]. injection H as Hd H.
    destruct (IH g H) as (x & y & -> & Hx & Hy).
    exists (String d x), y. cbn [lower String.append]. now rewrite Hx, Hd.
Qed.

Lemma startswith_split (p : string) : forall s,
  startswith p s = true <-> exists post, s = (p ++ post)%string.
Proof.
  induction p as [|a p IH]; intros s; cbn [startswith].
  - split; [intros _; now exists s|reflexivity].
  - destruct s as [|b s]; [split; [discriminate|intros (post & H); discriminate]|].
    destruct (Ascii.eqb a b) eqn:Hab.
    + apply Ascii.eqb_eq in Hab. subst b. rewrite IH. split.
      * intros (post & ->). now exists post.
      * intros (post & H). injection H as ->. now exists post.
    + split; [discriminate|]. intros (post & H). injection H as -> _.
      now rewrite Ascii.eqb_refl in Hab.
Qed.

Lemma contains_split (p s : string) :
  contains p s = true <-> exists pre post, s = (pre ++ p ++ post)%string.
Proof.
  induction s as [|c s IH]; cbn [contains].
  - rewrite orb_false_r, startswith_split. split.
    + intros (post & H). now exists "", post.
    + intros (pre & post & H). destruct pre; [now exists post|discriminate].
  - rewrite orb_true_iff, startswith_split, IH. split.
    + intros [(post & H)|(pre & post & ->)]; [now exists "", post|].
      now exists (String c pre), post.
    + intros (pre & post & H). destruct pre as [|d pre].
      * left. now exists post.
      * right. injection H as _ ->. now exists pre, post.
Qed.

Lemma has_char_append (c : ascii) (s1 s2 : string) :
  has_char c (s1 ++ s2) = has_char c s1 || has_char c s2.
Proof.
  induction s1 as [|b s1 IH]; cbn; [reflexivity|]. now rewrite IH, orb_assoc.
Qed.

Lemma all_char_append (p : ascii -> bool) (s1 s2 : string) :
  all_char p (s1 ++ s2) = all_char p s1 && all_char p s2.
Proof.
  induction s1 as [|c s1 IH]; cbn; [reflexivity|]. now rewrite IH, andb_assoc.
Qed.

Lemma string_of_uint_digits (d : Decimal.uint) :
  all_char is_digit (NilEmpty.string_of_uint d) = true.
Proof. induction d; cbn [NilEmpty.string_of_uint all_char]; auto. Qed.

Lemma decimal_digits (n : N) : all_char is_digit (decimal n) = true.
Proof. apply string_of_uint_digits. Qed.

Lemma decimal_nonempty (n : N) : decimal n <> "".
Proof.
  unfold decimal. destruct n as [|p]; [discriminate|]. cbn [N.to_uint].
  pose proof (DecimalPos.Unsigned.to_uint_nonnil p) as H.
  destruct (Pos.to_uint p); [contradiction|discriminate..].
Qed.

Lemma parse_decimal_decimal (n : N) : parse_decimal (decimal n) = Some n.
Proof.
  unfold parse_decimal, decimal. rewrite NilEmpty.usu. cbn [option_map].
  now rewrite DecimalN.Unsigned.of_to.
Qed.

Lemma parse_decimal02 (n : N) : parse_decimal (decimal02 n) = Some n.
Proof.
  unfold decimal02. destruct (n <? 10)%N; [|apply parse_decimal_decimal].
  unfold parse_decimal, decimal. cbn [NilEmpty.uint_of_string].
  rewrite NilEmpty.usu. cbn. now rewrite DecimalN.Unsigned.of_to.
Qed.

Lemma decimal02_digits (n : N) :
  all_char is_digit (decimal02 n) = true /\ decimal02 n <> "".
Proof.
  unfold decimal02. destruct (n <? 10)%N.
  - split; [|discriminate]. cbn [all_char]. now rewrite decimal_digits.
  - split; [apply decimal_digits|apply decimal_nonempty].
Qed.

End Text.

(** ** Results and exceptions *)

Variant exn : Type :=
| ConnectionFailed            (* requests.exceptions.ConnectionError and the like *)
| HTTPError (status : N)      (* raise_for_status *)
| RuntimeError (msg : string)
| EmptyDataError              (* pandas: no columns to parse from file *)
| FileNotFoundError (path : string)
| ValueError (msg : string)
| OSError (msg : string)      (* the other subclasses of OSError *)
| ShutilError (msg : string)  (* shutil.Error *)
| BadZipFile
| ReError (msg : string)      (* re.error *)
| SystemExit (code : N)
| OtherError (msg : string).

Variant result (A : Type) : Type :=
| Ok (a : A)
| Raise (e : exn).
Arguments Ok {A} a.
Arguments Raise {A} e.

Definition is_ok {A} (r : result A) : bool :=
match r with Ok _ => true | Raise _ => false end.

(** [[f(x) for x in xs]] when [f] may raise: the first failure ends it. *)
Fixpoint map_result {A B} (f : A -> result B) (xs : list A) : result (list B) :=
  match xs with
  | [] => Ok []
  | x :: rest =>
      match f x with
      | Raise e => Raise e
      | Ok y =>
          match map_result f rest with
          | Raise e => Raise e
          | Ok ys => Ok (y :: ys)
          end
      end
  end.

(** [[x for x in xs if p(x)]] when [p] may raise. *)
Fixpoint filter_result {A} (p : A -> result bool) (xs : list A) : result (list A) :=
  match xs with
  | [] => Ok []
  | x :: rest =>
      match p x with
      | Raise e => Raise e
      | Ok b =>
          match filter_result p rest with
          | Raise e => Raise e
          | Ok ys => Ok (if b then x :: ys else ys)
          end
      end
  end.

(** ** Schema resolution ([cnpj_ingest_duckdb_v2.py]) *)

Module Schema.
Import Text.

Definition CSV_DELIM : ascii := ";"%char.

(** [COLS]: the dictionary of fixed column lists, by dataset kind. *)
Definition codigo_descricao : list string := ["codigo"; "descricao"].

Definition COLS_items : list (string * list string) :=
  [ ("cnaes", codigo_descricao);
    ("empresas",
      ["cnpj_basico"; "razao_social"; "natureza_juridica"; "qualificacao_responsavel";
       "capital_social_empresa"; "porte_empresa"; "ente_federativo_responsavel"]);
    ("estabelecimentos",
      ["cnpj_basico"; "cnpj_ordem"; "cnpj_dv"; "identificador_matriz_filial";
       "nome_fantasia"; "situacao_cadastral"; "data_situacao_cadastral";
       "motivo_situacao_cadastral"; "nome_cidade_exterior"; "pais";
       "data_inicio_atividade"; "cnae_fiscal_principal"; "cnae_fiscal_secundaria";
       "tipo_logradouro"; "logradouro"; "numero"; "complemento"; "bairro"; "cep";
       "uf"; "municipio"; "ddd_1"; "telefone_1"; "ddd_2"; "telefone_2"; "ddd_fax";
       "fax"; "correio_eletronico"; "situacao_especial"; "data_situacao_especial"]);
    ("municipios", codigo_descricao);
    ("simples",
      ["cnpj_basico"; "opcao_simples"; "data_opcao_simples"; "data_exclusao_simples";
       "opcao_mei"; "data_opcao_mei"; "data_exclusao_mei"]);
    ("motivos", codigo_descricao);
    ("naturezas", codigo_descricao);
    ("socios",
      ["cnpj_basico"; "identificador_socio"; "nome_socio_ou_razao_social";
       "cnpj_cpf_socio"; "qualificacao_socio"; "data_entrada_sociedade"; "pais";
       "representante_legal"; "nome_representante"; "qualificacao_representante_legal";
       "faixa_etaria"]);
    ("paises", codigo_descricao);
    ("qualificacoes", codigo_descricao) ].

(** [d.get(k)] on a dictionary given by its items. *)
Fixpoint dict_get {V} (items : list (string * V)) (k : string) : option V :=
  match items with
  | [] => None
  | (k', v) :: rest => if String.eqb k' k then Some v else dict_get rest k
  end.

Definition COLS (base : string) : option (list string) := dict_get COLS_items base.

(** [DETECT_MAP]: keywords looked for in the file name, in this order. *)
Definition DETECT_MAP : list (string * list string) :=
  [ ("empresas", ["empresas"; "emprecsv"]);
    ("estabelecimentos", ["estabele"; "estabcsv"]);
    ("simples", ["simples"]);
    ("cnaes", ["cnaes"; "cnae"]);
    ("municipios", ["municipios"; with_latin1 "munic" 237 "pios"; "municipio"; "municcsv"]);
    ("naturezas", ["naturezas"; "natureza"; "natjucsv"]);
    ("motivos", ["motivos"; "motivo"; "moticsv"]);
    ("socios", ["socios"; with_latin1 "s" 243 "cios"; "sociccsv"; "socioscsv"; "sociocsv"]);
    ("paises", ["paises"; with_latin1 "pa" 237 "ses"; "pais"]);
    ("qualificacoes",
      ["qualificacoes"; with_latin1 "qualifica" 231 (with_latin1 "" 245 "es");
       "qualif"; "qualscsv"]) ].

(** [detect_base_from_filename]; the argument is [path.name]. *)
Definition detect_base_from_filename (name : string) : string :=
  let n := lower name in
  let fix go (m : list (string * list string)) : string :=
    match m with
    | [] => ""
    | (base, keys) :: rest =>
        if existsb (fun k => contains k n) keys then base else go rest
    end in
  go DETECT_MAP.

(** The character class [[A-Za-zÀ-ÿ_]]. *)
Definition label_char (c : ascii) : bool :=
  in_range 65 90 c || in_range 97 122 c || in_range 192 255 c || (code c =? 95)%N.

Definition looks_like_header (line : string) : bool :=
  has_char CSV_DELIM line && any_char label_char line.

(** [[f"col_{i:02d}" for i in range(n)]] *)
Definition auto_names (ncols : nat) : list string :=
  map (fun i => ("col_" ++ decimal02 (N.of_nat i))%string) (seq 0 ncols).

(** Truthiness of a Python list. *)
Definition truthy {A} (l : list A) : bool :=
  match l with [] => false | _ :: _ => true end.

Variant header_msg : Type :=
  | MsgDictionary (base : string) (n : nat)
  | MsgKeepHeader
  | MsgAutomatic (n : nat).

(** [choose_column_names]: the names to impose ([None]: leave the header of
    the file to pandas) and the message that is printed. *)
Definition choose_column_names (base : string) (ncols_detected : nat)
    (header_present : bool) : option (list string) * header_msg :=
  match COLS base with
  | Some target =>
      if truthy target && (length target =? ncols_detected)%nat
      then (Some target, MsgDictionary base (length target))
      else if header_present then (None, MsgKeepHeader)
      else (Some (auto_names ncols_detected), MsgAutomatic ncols_detected)
  | None =>
      if header_present then (None, MsgKeepHeader)
      else (Some (auto_names ncols_detected), MsgAutomatic ncols_detected)
  end.

(** *** Properties of the schema resolver *)

Lemma dict_get_In {V} (items : list (string * V)) k v :
  dict_get items k = Some v -> In (k, v) items.
Proof.
  induction items as [|[k' v'] rest IH]; cbn [dict_get]; [discriminate|].
  destruct (String.eqb k' k) eqn:E.
  - intros [= ->]. apply String.eqb_eq in E. subst. now left.
  - intros H. right. now apply IH.
Qed.

Lemma COLS_truthy base target : COLS base = Some target -> truthy target = true.
Proof.
  intros H. apply dict_get_In in H. unfold COLS_items in H.
  repeat (destruct H as [[= <- <-]|H]; [reflexivity|]). destruct H.
Qed.

(** Every kind that the file-name detection can return has a fixed list. *)
Lemma detect_base_known name :
  detect_base_from_filename name = "" \/
  exists target, COLS (detect_base_from_filename name) = Some target.
Proof.
  unfold detect_base_from_filename, DETECT_MAP.
  repeat match goal with
         | |- context [if ?b then _ else _] =>
             destruct b; [right; eexists; reflexivity|]
         end.
  now left.
Qed.

Lemma COLS_two base target : COLS base = Some target -> 2 <= length target.
Proof.
  intros H. apply dict_get_In in H. unfold COLS_items in H.
  repeat (destruct H as [[= <- <-]|H]; [cbn; lia|]). destruct H.
Qed.

Lemma length_auto_names n : length (auto_names n) = n.
Proof. unfold auto_names. now rewrite length_map, length_seq. Qed.

(** The names that are imposed are as many as the columns observed. *)
Lemma choose_column_names_length base ncols header_present names :
  fst (choose_column_names base ncols header_present) = Some names ->
  length names = ncols.
Proof.
  unfold choose_column_names.
  destruct (COLS base) as [target|].
  - destruct (truthy target && (length target =? ncols)%nat) eqn:E.
    + intros [= <-]. apply andb_true_iff in E as [_ E]. now apply Nat.eqb_eq.
    + destruct header_present; [discriminate|]. intros [= <-]. apply length_auto_names.
  - destruct header_present; [discriminate|]. intros [= <-]. apply length_auto_names.
Qed.

(** With a header row, names are imposed only from the dictionary. *)
Lemma choose_column_names_header base ncols names :
  fst (choose_column_names base ncols true) = Some names ->
  COLS base = Some names.
Proof.
  unfold choose_column_names.
  destruct (COLS base) as [target|]; [|discriminate].
  destruct (truthy target && (length target =? ncols)%nat); [|discriminate].
  now intros [= <-].
Qed.

(** C1. Schema precedence: a fixed column list of the detected kind whose
    length equals the observed column count is the resolved schema, whether or
    not a header row was detected; when no fixed list matches, a detected
    header makes the converter keep the names of the file ([None]: nothing is
    imposed), and otherwise the positional names col_00, col_01, ... are used. *)
Theorem schema_precedence (base : string) (ncols : nat) (header_present : bool) :
  (forall target, COLS base = Some target -> length target = ncols ->
     fst (choose_column_names base ncols header_present) = Some target) /\
  ((forall target, COLS base = Some target -> length target <> ncols) ->
     fst (choose_column_names base ncols header_present) =
       if header_present then None else Some (auto_names ncols)).
Proof.
  unfold choose_column_names. split.
  - intros target Hc Hlen. rewrite Hc, (COLS_truthy _ _ Hc).
    apply Nat.eqb_eq in Hlen. now rewrite Hlen.
  - intros Hno. destruct (COLS base) as [target|] eqn:Hc.
    + specialize (Hno target eq_refl). apply Nat.eqb_neq in Hno.
      rewrite Hno, andb_false_r. now destruct header_present.
    + now destruct header_present.
Qed.

Lemma schema_precedence_witness :
  fst (choose_column_names "empresas" 7 true) = COLS "empresas" /\
  fst (choose_column_names "empresas" 5 true) = None /\
  fst (choose_column_names "" 3 false) = Some ["col_00"; "col_01"; "col_02"].
Proof.
  split; [|split].
  - apply (proj1 (schema_precedence "empresas" 7 true)); reflexivity.
  - apply (proj2 (schema_precedence "empresas" 5 true)).
    intros target [= <-]. cbn. lia.
  - apply (proj2 (schema_precedence "" 3 false)). intros target [=].
Defined.

End Schema.


(** ** The world: local files and the remote source *)

(** A GET request; [req_range = Some k] is the header [Range: bytes=k-]. *)
Record request : Type := { req_url : string; req_range : option N }.

(** What [requests.get(..., stream=True)] meets: no answer at all, or a status
    with the body as the chunks [iter_content] yields; [complete = false] when
    the connection drops after the last of these chunks. *)
Variant response : Type :=
  | NoResponse
  | Response (status : N) (chunks : list (list byte)) (complete : bool).

Definition server : Type := request -> response.

Record world : Type := {
  files : gmap string (list byte);   (* path |-> content *)
  sent : list request                (* requests sent so far, oldest first *)
}.

Definition exists_file (p : string) (w : world) : bool :=
  bool_decide (is_Some (files w !! p)).

Definition with_files (f : gmap string (list byte)) (w : world) : world :=
  {| files := f; sent := sent w |}.

Definition send (r : request) (w : world) : world :=
  {| files := files w; sent := sent w ++ [r] |}.

(** [Response.raise_for_status]: client and server errors raise. *)
Definition raise_for_status (status : N) : bool :=
  (400 <=? status)%N && (status <? 600)%N.

(** ** The resumable fetcher ([download_file], the same in both scripts) *)

Module Fetch.

(** [dest.with_suffix(dest.suffix + ".part")] *)
Definition part_path (dest : string) : string := dest ++ ".part".

(** The loop [for chunk_data in r.iter_content(...): if chunk_data: f.write(chunk_data)]
    on the content [f] of the open file. *)
Definition write_chunks (f : list byte) (chunks : list (list byte)) : list byte :=
  fold_left (fun f chunk_data =>
               match chunk_data with [] => f | _ :: _ => f ++ chunk_data end)
            chunks f.

Definition download_file (srv : server) (url dest : string) (w : world)
  : result string * world :=
  let tmp := part_path dest in
  let existing := files w !! tmp in
  (* mode = "ab" if tmp.exists() else "wb" *)
  let opened := match existing with Some old => old | None => [] end in
  let downloaded := match existing with Some old => N.of_nat (length old) | None => 0%N end in
  let headers := if (0 <? downloaded)%N then Some downloaded else None in
  let req := {| req_url := url; req_range := headers |} in
  let w := send req w in
  match srv req with
  | NoResponse => (Raise ConnectionFailed, w)
  | Response status chunks complete =>
      if raise_for_status status then (Raise (HTTPError status), w)
      else
        let written := write_chunks opened chunks in
        if complete
        then (* tmp.rename(dest) *)
             (Ok dest, with_files (<[dest := written]> (delete tmp (files w))) w)
        else (Raise ConnectionFailed, with_files (<[tmp := written]> (files w)) w)
  end.

(** The remote source serves [stream] at [url]: a request without a range is
    answered in full. *)
Definition serves (srv : server) (url : string) (stream : list byte) : Prop :=
  exists status chunks,
    srv {| req_url := url; req_range := None |} = Response status chunks true /\
    raise_for_status status = false /\ concat chunks = stream.

(** The remote source answers the one request for the bytes of [url] from
    offset [k] on with exactly those bytes of [stream]; nothing is asked of
    its answers to other ranges. *)
Definition answers_from (srv : server) (url : string) (stream : list byte) (k : nat) : Prop :=
  exists status chunks,
    srv {| req_url := url; req_range := Some (N.of_nat k) |} = Response status chunks true /\
    raise_for_status status = false /\ concat chunks = skipn k stream.

(** The connection drops at [url] once the first [k] bytes of [stream] have
    been delivered. *)
Definition drops_after (srv : server) (url : string) (stream : list byte) (k : nat) : Prop :=
  exists status chunks,
    srv {| req_url := url; req_range := None |} = Response status chunks false /\
    raise_for_status status = false /\ concat chunks = firstn k stream.

(** A server that ignores the [Range] header and always sends all of [stream]. *)
Definition plain_server (stream : list byte) : server :=
  fun _ => Response 200 [stream] true.

(** A server that answers a ranged request with 206 and the rest of
    [stream], and a range that starts at or past the end with 416 (Range Not
    Satisfiable). *)
Definition range_server (stream : list byte) : server :=
  fun r => match req_range r with
           | None => Response 200 [stream] true
           | Some k =>
               if (k <? N.of_nat (length stream))%N
               then Response 206 [skipn (N.to_nat k) stream] true
               else Response 416 [] true
           end.

(** A server whose connection drops after [k] bytes. *)
Definition dropping_server (stream : list byte) (k : nat) : server :=
  fun _ => Response 200 [firstn k stream] false.

Definition empty_world : world := {| files := ∅; sent := [] |}.

(** *** Properties of the fetcher *)

Lemma write_chunks_concat (chunks : list (list byte)) (f : list byte) :
  write_chunks f chunks = f ++ concat chunks.
Proof.
  unfold write_chunks. revert f.
  induction chunks as [|c chunks IH]; intros f; cbn [fold_left concat].
  - now rewrite app_nil_r.
  - rewrite IH. destruct c; [reflexivity|]. now rewrite <- app_assoc.
Qed.

Lemma part_path_neq (dest : string) : part_path dest <> dest.
Proof.
  unfold part_path. intros H. apply (f_equal String.length) in H.
  rewrite Text.length_append in H. cbn in H. lia.
Qed.

(** What a completed download leaves behind, whatever the partial file held. *)
Lemma download_file_complete srv url dest w status chunks :
  let opened := default [] (files w !! part_path dest) in
  let range := if (0 <? N.of_nat (length opened))%N
               then Some (N.of_nat (length opened)) else None in
  srv {| req_url := url; req_range := range |} = Response status chunks true ->
  raise_for_status status = false ->
  exists w', download_file srv url dest w = (Ok dest, w') /\
    sent w' = sent w ++ [{| req_url := url; req_range := range |}] /\
    files w' !! dest = Some (opened ++ concat chunks) /\
    files w' !! part_path dest = None.
Proof.
  intros opened range Hsrv Hst. unfold download_file.
  assert (Hr : (if (0 <? match files w !! part_path dest with
                         | Some old => N.of_nat (length old) | None => 0%N end)%N
                then Some match files w !! part_path dest with
                          | Some old => N.of_nat (length old) | None => 0%N end
                else None) = range).
  { subst range opened. destruct (files w !! part_path dest); reflexivity. }
  rewrite Hr, Hsrv, Hst. eexists. split; [reflexivity|].
  cbn [sent files with_files send]. split; [reflexivity|]. split.
  - rewrite lookup_insert_eq, write_chunks_concat. subst opened.
    now destruct (files w !! part_path dest).
  - rewrite lookup_insert_ne by (apply not_eq_sym, part_path_neq).
    apply lookup_delete_eq.
Qed.

(** C10. With a partial file of k > 0 bytes the fetcher asks for the bytes
    from k on and appends the body of any response that is not an error
    status, 200 as well as 206: the completed file is the partial bytes
    followed by the body, of length k plus the length of the body. *)
Theorem resume_appends_body srv url dest w (partial : list byte) status chunks :
  files w !! part_path dest = Some partial ->
  partial <> [] ->
  srv {| req_url := url; req_range := Some (N.of_nat (length partial)) |}
    = Response status chunks true ->
  raise_for_status status = false ->
  exists w', download_file srv url dest w = (Ok dest, w') /\
    sent w' = sent w ++ [{| req_url := url;
                            req_range := Some (N.of_nat (length partial)) |}] /\
    files w' !! dest = Some (partial ++ concat chunks) /\
    files w' !! part_path dest = None /\
    length (partial ++ concat chunks) = length partial + length (concat chunks).
Proof.
  intros Hp Hne Hsrv Hst.
  assert (Hpos : (0 <? N.of_nat (length partial))%N = true).
  { apply N.ltb_lt. destruct partial; [contradiction|cbn; lia]. }
  pose proof (download_file_complete srv url dest w status chunks) as H.
  cbn zeta in H. rewrite Hp in H. cbn [from_option id] in H. rewrite Hpos in H.
  destruct (H Hsrv Hst) as (w' & H1 & H2 & H3 & H4).
  exists w'. repeat split; try assumption. apply length_app.
Qed.

Lemma resume_appends_body_witness :
  let stream := [x50; x4b; x03; x04] in
  let w := {| files := {[ part_path "a.zip" := [x50; x4b] ]}; sent := [] |} in
  exists w', download_file (plain_server stream) "u" "a.zip" w = (Ok "a.zip", w') /\
    sent w' = [{| req_url := "u"; req_range := Some 2%N |}] /\
    files w' !! "a.zip" = Some [x50; x4b; x50; x4b; x03; x04] /\
    files w' !! part_path "a.zip" = None /\
    length [x50; x4b; x50; x4b; x03; x04] = 2 + 4.
Proof.
  intros stream w.
  apply (resume_appends_body (plain_server stream) "u" "a.zip" w [x50; x4b] 200 [stream]);
    [reflexivity | discriminate | reflexivity | reflexivity].
Defined.

(** An interrupted download leaves what was delivered in the partial file. *)
Lemma download_file_dropped srv url dest w (stream : list byte) k :
  files w !! part_path dest = None ->
  drops_after srv url stream k ->
  fst (download_file srv url dest w) = Raise ConnectionFailed /\
  files (snd (download_file srv url dest w)) !! part_path dest = Some (firstn k stream) /\
  files (snd (download_file srv url dest w)) !! dest = files w !! dest.
Proof.
  intros Hnone (status & chunks & Hsrv & Hst & Hcat).
  unfold download_file. rewrite Hnone. cbn [N.ltb N.compare].
  rewrite Hsrv, Hst. cbn [fst snd files with_files send]. split; [reflexivity|].
  rewrite write_chunks_concat, Hcat. cbn [app]. split.
  - apply lookup_insert_eq.
  - rewrite lookup_insert_ne by apply part_path_neq. reflexivity.
Qed.

(** C3 (amended). Against a source that answers the request for the bytes
    from k on with exactly those bytes, a fetch that was interrupted after the
    first k bytes and is run again completes with the very bytes of an
    uninterrupted fetch: the second request asks for the bytes from k on and
    the body is appended to the partial file, which is then renamed. Only that
    one request is asked of the source (none at all when k = 0, where the
    fetch starts afresh). *)
Theorem resume_correct srv1 srv2 url dest w (stream : list byte) (k : nat) :
  files w !! part_path dest = None ->
  k < length stream ->
  drops_after srv1 url stream k ->
  serves srv2 url stream ->
  (0 < k -> answers_from srv2 url stream k) ->
  let w1 := snd (download_file srv1 url dest w) in
  fst (download_file srv1 url dest w) = Raise ConnectionFailed /\
  fst (download_file srv2 url dest w1) = Ok dest /\
  files (snd (download_file srv2 url dest w1)) !! dest = Some stream /\
  files (snd (download_file srv2 url dest w)) !! dest = Some stream /\
  files (snd (download_file srv2 url dest w1)) !! part_path dest = None.
Proof.
  intros Hnone Hk Hdrop Hserves Hranges w1.
  destruct (download_file_dropped srv1 url dest w stream k Hnone Hdrop)
    as (Hraise & Hpart & _).
  fold w1 in Hpart. split; [exact Hraise|].
  (* the uninterrupted fetch *)
  assert (Hfull : files (snd (download_file srv2 url dest w)) !! dest = Some stream).
  { destruct Hserves as (st & ch & Hsrv & Hst & Hcat).
    pose proof (download_file_complete srv2 url dest w st ch) as H.
    cbn zeta in H. rewrite Hnone in H. cbn [from_option id length N.of_nat N.ltb N.compare] in H.
    destruct (H Hsrv Hst) as (w' & -> & _ & Hd & _). cbn [snd].
    rewrite Hd, Hcat. reflexivity. }
  (* the resumed fetch *)
  assert (Hlen : length (firstn k stream) = k) by (apply length_take_le; lia).
  destruct k as [|k].
  - (* an empty partial file: no range is asked for *)
    destruct Hserves as (st & ch & Hsrv & Hst & Hcat).
    pose proof (download_file_complete srv2 url dest w1 st ch) as H.
    cbn zeta in H. rewrite Hpart in H.
    cbn [from_option id firstn length N.of_nat N.ltb N.compare] in H.
    destruct (H Hsrv Hst) as (w' & -> & _ & Hd & Hp). cbn [fst snd].
    rewrite Hd, Hcat. auto.
  - destruct Hranges as (st & ch & Hsrv & Hst & Hcat); [lia|].
    pose proof (download_file_complete srv2 url dest w1 st ch) as H.
    cbn zeta in H. rewrite Hpart in H. cbn [from_option id] in H. rewrite Hlen in H.
    assert (Hpos : (0 <? N.of_nat (S k))%N = true) by (apply N.ltb_lt; lia).
    rewrite Hpos in H.
    destruct (H Hsrv Hst) as (w' & -> & _ & Hd & Hp). cbn [fst snd].
    rewrite Hd, Hcat, firstn_skipn. auto.
Qed.

(** The source of the witness refuses the ranges past the end of the
    archive, as a conforming server does. *)
Lemma resume_correct_witness :
  let stream := [x50; x4b; x03; x04; x14] in
  let w1 := snd (download_file (dropping_server stream 2) "u" "a.zip" empty_world) in
  range_server stream {| req_url := "u"; req_range := Some 5%N |} = Response 416 [] true /\
  fst (download_file (dropping_server stream 2) "u" "a.zip" empty_world)
    = Raise ConnectionFailed /\
  fst (download_file (range_server stream) "u" "a.zip" w1) = Ok "a.zip" /\
  files (snd (download_file (range_server stream) "u" "a.zip" w1)) !! "a.zip" = Some stream /\
  files (snd (download_file (range_server stream) "u" "a.zip" empty_world)) !! "a.zip"
    = Some stream /\
  files (snd (download_file (range_server stream) "u" "a.zip" w1)) !! part_path "a.zip" = None.
Proof.
  intros stream. split; [reflexivity|].
  apply (resume_correct (dropping_server stream 2) (range_server stream)
           "u" "a.zip" empty_world stream 2).
  - reflexivity.
  - cbn. lia.
  - exists 200%N, [firstn 2 stream]. repeat split; apply app_nil_r.
  - exists 200%N, [stream]. repeat split.
  - intros _. exists 206%N, [skipn 2 stream]. repeat split.
Defined.

(** C3 as stated fails against a source that serves the archive but ignores
    the range header: the partial byte is kept and the whole stream is
    appended to it. *)
Lemma resume_without_ranges_differs :
  let stream := [x50; x4b; x03] in
  let srv := plain_server stream in
  let w1 := snd (download_file (dropping_server stream 1) "u" "a.zip" empty_world) in
  serves srv "u" stream /\
  drops_after (dropping_server stream 1) "u" stream 1 /\
  1 < length stream /\
  files (snd (download_file srv "u" "a.zip" empty_world)) !! "a.zip" = Some stream /\
  files (snd (download_file srv "u" "a.zip" w1)) !! "a.zip" = Some [x50; x50; x4b; x03] /\
  files (snd (download_file srv "u" "a.zip" w1)) !! "a.zip"
    <> files (snd (download_file srv "u" "a.zip" empty_world)) !! "a.zip".
Proof.
  intros stream srv w1. split; [|split; [|split; [|split; [|split]]]].
  - exists 200%N, [stream]. repeat split.
  - exists 200%N, [firstn 1 stream]. repeat split.
  - cbn. lia.
  - vm_compute. reflexivity.
  - vm_compute. reflexivity.
  - vm_compute. discriminate.
Qed.

(** *** Failures and the files left alone *)

(** The request that [download_file] sends for [dest] in the world [w]. *)
Definition request_for (url dest : string) (w : world) : request :=
  {| req_url := url;
     req_range :=
       match files w !! part_path dest with
       | Some (b :: old) => Some (N.of_nat (length (b :: old)))
       | _ => None
       end |}.

Lemma download_file_request srv url dest w :
  sent (snd (download_file srv url dest w)) = sent w ++ [request_for url dest w] /\
  (srv (request_for url dest w) = NoResponse ->
   download_file srv url dest w
   = (Raise ConnectionFailed, send (request_for url dest w) w)) /\
  (forall status chunks complete,
     srv (request_for url dest w) = Response status chunks complete ->
     raise_for_status status = true ->
     download_file srv url dest w
     = (Raise (HTTPError status), send (request_for url dest w) w)).
Proof.
  unfold download_file, request_for.
  destruct (files w !! part_path dest) as [[|b old]|] eqn:Hp;
    cbn [length N.of_nat N.ltb N.compare].
  all: set (req := {| req_url := url; req_range := _ |}).
  all: split; [|split].
  all: try (intros H; rewrite H; reflexivity).
  all: try (intros status chunks complete H Hst; rewrite H, Hst; reflexivity).
  all: destruct (srv req) as [|st ch c]; [reflexivity|].
  all: destruct (raise_for_status st); [reflexivity|].
  all: destruct c; reflexivity.
Qed.

Lemma download_file_raise srv url dest w e :
  fst (download_file srv url dest w) = Raise e ->
  files (snd (download_file srv url dest w)) !! dest = files w !! dest.
Proof.
  unfold download_file.
  destruct (srv _) as [|st ch c]; [reflexivity|].
  destruct (raise_for_status st); [reflexivity|].
  destruct c; [discriminate|]. intros _. cbn [snd files with_files send].
  apply lookup_insert_ne, part_path_neq.
Qed.

(** X1. A download that raises leaves the destination exactly as it was: what
    was received so far stays under the name of the partial file. When the
    source does not answer, or answers with an error status (4xx, 5xx),
    nothing is written at all. In every case one request was sent. *)
Theorem download_failure_keeps_destination srv url dest w :
  sent (snd (download_file srv url dest w)) = sent w ++ [request_for url dest w] /\
  (forall e, fst (download_file srv url dest w) = Raise e ->
     files (snd (download_file srv url dest w)) !! dest = files w !! dest) /\
  (srv (request_for url dest w) = NoResponse ->
   download_file srv url dest w
   = (Raise ConnectionFailed, send (request_for url dest w) w)) /\
  (forall status chunks complete,
     srv (request_for url dest w) = Response status chunks complete ->
     raise_for_status status = true ->
     download_file srv url dest w
     = (Raise (HTTPError status), send (request_for url dest w) w)).
Proof.
  destruct (download_file_request srv url dest w) as (Hsent & Hnone & Hstatus).
  split; [exact Hsent|]. split; [|split; assumption].
  intros e. apply download_file_raise.
Qed.

(** A source that refuses the range asked for. *)
Definition refusing_server : server :=
  fun r => match req_range r with
           | Some _ => Response 416 [] true
           | None => Response 200 [[x50; x4b]] true
           end.

Lemma download_failure_keeps_destination_witness :
  let w := {| files := {[ part_path "a.zip" := [x50; x4b] ]}; sent := [] |} in
  download_file refusing_server "u" "a.zip" w
  = (Raise (HTTPError 416),
     send {| req_url := "u"; req_range := Some 2%N |} w).
Proof.
  intros w.
  exact (proj2 (proj2 (proj2
           (download_failure_keeps_destination refusing_server "u" "a.zip" w)))
           416%N [] true eq_refl eq_refl).
Defined.

(** X2. [download_file] reads and writes two paths only, the destination and
    its partial file: every other file is as it was, whatever the source
    answers. *)
Theorem download_file_frame srv url dest w (p : string) :
  p <> dest -> p <> part_path dest ->
  files (snd (download_file srv url dest w)) !! p = files w !! p.
Proof.
  intros Hd Hp. unfold download_file.
  destruct (srv _) as [|st ch c]; [reflexivity|].
  destruct (raise_for_status st); [reflexivity|].
  destruct c; cbn [snd files with_files send].
  - rewrite lookup_insert_ne by (apply not_eq_sym, Hd).
    apply lookup_delete_ne, not_eq_sym, Hp.
  - apply lookup_insert_ne, not_eq_sym, Hp.
Qed.

Lemma download_file_frame_witness :
  let w := {| files := {[ "b.zip" := [x01] ]}; sent := [] |} in
  files (snd (download_file (plain_server [x50; x4b]) "u" "a.zip" w)) !! "b.zip"
  = files w !! "b.zip".
Proof.
  intros w.
  apply (download_file_frame (plain_server [x50; x4b]) "u" "a.zip" w "b.zip");
    discriminate.
Defined.

End Fetch.

(** ** The archive index resolver ([list_zip_links], the same in both scripts) *)

Module Index.
Import Text.

Definition dquote : ascii := "034"%char.

(** A literal prefix under [re.IGNORECASE]; the literals of the pattern are
    written in lower case. *)
Fixpoint startswith_ci (p s : string) : bool :=
  match p, s with
  | EmptyString, _ => true
  | String a p', String b s' =>
      if Ascii.eqb a (lower_char b) then startswith_ci p' s' else false
  | String _ _, EmptyString => false
  end.

(** [s[n:]] *)
Fixpoint skip (n : nat) (s : string) : string :=
  match n, s with
  | O, _ => s
  | S n', String _ s' => skip n' s'
  | S _, EmptyString => EmptyString
  end.

(** The longest run of characters other than the quote at the head of [s],
    when a quote ends it; [None] when the text ends first. *)
Fixpoint run_to_quote (s : string) : option string :=
  match s with
  | EmptyString => None
  | String c s' =>
      if Ascii.eqb c dquote then Some EmptyString
      else option_map (String c) (run_to_quote s')
  end.

(** [ZIP_PATTERN = re.compile(r'href="([^"]+\.zip)"', re.IGNORECASE)] matched
    at the head of [s]: the group and the length of the whole match. The class
    [[^"]+] cannot cross a quote and the pattern ends with one, so the group is
    the whole run up to the next quote; it has to end in [.zip] after at least
    one other character. *)
Definition match_here (s : string) : option (string * nat) :=
  if startswith_ci "href=" s then
    match skip 5 s with
    | String q s' =>
        if Ascii.eqb q dquote then
          match run_to_quote s' with
          | Some g =>
              if endswith ".zip" (lower g) && (5 <=? String.length g)%nat
              then Some (g, 6 + String.length g + 1)
              else None
          | None => None
          end
        else None
    | EmptyString => None
    end
  else None.

(** [ZIP_PATTERN.findall]: leftmost matches that do not overlap; [skipping]
    counts the characters left of the match that was just found. *)
Fixpoint scan (skipping : nat) (s : string) : list string :=
  match s with
  | EmptyString => []
  | String _ s' =>
      match skipping with
      | S k => scan k s'
      | O =>
          match match_here s with
          | Some (g, len) => g :: scan (len - 1) s'
          | None => scan 0 s'
          end
      end
  end.

Definition findall (text : string) : list string := scan 0 text.

(** [sorted(set(xs))]: the set, then its elements in the order of [str]. *)
Definition sorted_set (xs : list string) : list string :=
  merge_sort String.le (elements (list_to_set xs : gset string)).

(** [requests.get(base_url, timeout=60)] followed by [r.raise_for_status()]:
    the text of the page, when the page was fetched. *)
Definition fetch_text (srv : server) (url : string) : result string :=
  match srv {| req_url := url; req_range := None |} with
  | NoResponse => Raise ConnectionFailed
  | Response status chunks complete =>
      if negb complete then Raise ConnectionFailed
      else if raise_for_status status then Raise (HTTPError status)
      else Ok (string_of_list_byte (concat chunks))
  end.

Definition no_zip_found : exn :=
  RuntimeError "Nenhum .zip encontrado. Verifique o base_url.".

(** *** The references of a page, in the words of the pattern *)

(** [g] is a reference at the head of [s]: the letters href and the equals
    sign, in any letter case, a quote, the text [g] with no quote in it, which
    ends in .zip (in any letter case) after one character at least, and a
    quote. *)
Definition reference_at (s g : string) : Prop :=
  exists opener rest stem ext,
    s = (opener ++ String dquote (g ++ String dquote rest))%string /\
    lower opener = "href=" /\
    has_char dquote g = false /\
    g = (stem ++ ext)%string /\ stem <> "" /\ lower ext = ".zip".


(** *** Properties of the resolver *)

Lemma startswith_ci_split (p : string) : forall s,
  startswith_ci p s = true ->
  exists o, s = (o ++ skip (String.length p) s)%string /\ lower o = p.
Proof.
  induction p as [|a p IH]; intros s H.
  - exists "". split; reflexivity.
  - destruct s as [|b s]; [discriminate|]. cbn [startswith_ci] in H.
    destruct (Ascii.eqb a (lower_char b)) eqn:Hab; [|discriminate].
    apply Ascii.eqb_eq in Hab. destruct (IH s H) as (o & Hs & Ho).
    exists (String b o). cbn [String.length skip String.append lower].
    split; [now rewrite <- Hs|now rewrite Ho, Hab].
Qed.

Lemma startswith_ci_append (o t : string) :
  startswith_ci (lower o) (o ++ t) = true /\
  skip (String.length (lower o)) (o ++ t) = t.
Proof.
  induction o as [|b o [IH1 IH2]]; cbn [lower String.append startswith_ci String.length skip].
  - split; [now destruct t|reflexivity].
  - rewrite Ascii.eqb_refl. auto.
Qed.

Lemma run_to_quote_split (s g : string) :
  run_to_quote s = Some g <->
  exists rest, s = (g ++ String dquote rest)%string /\ has_char dquote g = false.
Proof.
  revert g. induction s as [|c s IH]; intros g; cbn [run_to_quote].
  - split; [discriminate|]. intros (rest & H & _). now destruct g.
  - destruct (Ascii.eqb c dquote) eqn:Hc.
    + apply Ascii.eqb_eq in Hc. subst c. split.
      * intros [= <-]. now exists s.
      * intros (rest & H & Hg). destruct g as [|d g]; [reflexivity|].
        injection H as <- _. cbn [has_char] in Hg. now rewrite Ascii.eqb_refl in Hg.
    + split.
      * destruct (run_to_quote s) as [g'|] eqn:Hrun; [|discriminate].
        intros [= <-]. destruct (proj1 (IH g') eq_refl) as (rest & -> & Hg).
        exists rest. split; [reflexivity|]. cbn [has_char].
        now rewrite Ascii.eqb_sym, Hc.
      * intros (rest & H & Hg). destruct g as [|d g].
        -- injection H as -> _. now rewrite Ascii.eqb_refl in Hc.
        -- injection H as <- ->. cbn [has_char] in Hg.
           apply orb_false_iff in Hg as [_ Hg].
           rewrite (proj2 (IH g)); [reflexivity|]. now exists rest.
Qed.

Lemma zip_suffix_split (g : string) :
  endswith ".zip" (lower g) && (5 <=? String.length g)%nat = true <->
  exists stem ext, g = (stem ++ ext)%string /\ stem <> "" /\ lower ext = ".zip".
Proof.
  split.
  - intros H. apply andb_true_iff in H as [He Hl]. apply Nat.leb_le in Hl.
    apply endswith_split in He as (pre & He).
    destruct (lower_split _ _ _ He) as (stem & ext & -> & _ & Hext).
    exists stem, ext. repeat split; [|exact Hext].
    intros ->. apply (f_equal String.length) in Hext.
    rewrite length_lower in Hext. cbn in Hext, Hl. lia.
  - intros (stem & ext & -> & Hne & Hext). apply andb_true_iff. split.
    + rewrite lower_append, Hext. apply endswith_append.
    + apply Nat.leb_le. rewrite length_append.
      apply (f_equal String.length) in Hext. rewrite length_lower in Hext.
      cbn in Hext. destruct stem; [contradiction|cbn; lia].
Qed.

(** The match at the head of a text is the reference there. *)
Lemma match_here_reference (s g : string) (len : nat) :
  match_here s = Some (g, len) <-> reference_at s g /\ len = 7 + String.length g.
Proof.
  unfold match_here, reference_at. split.
  - destruct (startswith_ci "href=" s) eqn:Hs; [|discriminate].
    destruct (startswith_ci_split _ _ Hs) as (o & Hsplit & Ho).
    cbn [String.length] in Hsplit.
    destruct (skip 5 s) as [|q s']; [discriminate|].
    destruct (Ascii.eqb q dquote) eqn:Hq; [|discriminate].
    apply Ascii.eqb_eq in Hq. subst q.
    destruct (run_to_quote s') as [g'|] eqn:Hrun; [|discriminate].
    apply run_to_quote_split in Hrun as (rest & -> & Hg).
    destruct (endswith ".zip" (lower g') && _) eqn:Hz; [|discriminate].
    intros [= <- <-]. apply zip_suffix_split in Hz as (stem & ext & Hgs & Hne & Hext).
    split; [|lia]. now exists o, rest, stem, ext.
  - intros [(o & rest & stem & ext & -> & Ho & Hg & Hgs & Hne & Hext) ->].
    destruct (startswith_ci_append o (String dquote (g ++ String dquote rest))) as [H1 H2].
    rewrite Ho in H1, H2. cbn [String.length] in H2. rewrite H1, H2, Ascii.eqb_refl.
    rewrite (proj2 (run_to_quote_split _ g)) by (now exists rest).
    rewrite (proj2 (zip_suffix_split g)) by (now exists stem, ext).
    do 2 f_equal. lia.
Qed.

Lemma reference_at_unique (s g g' : string) :
  reference_at s g -> reference_at s g' -> g = g'.
Proof.
  intros H H'.
  pose proof (proj2 (match_here_reference s g _) (conj H eq_refl)) as E.
  pose proof (proj2 (match_here_reference s g' _) (conj H' eq_refl)) as E'.
  rewrite E in E'. now injection E'.
Qed.

















Section ListZipLinks.
(** [urllib.parse.urljoin] is taken as it is: the joined reference, or the
    exception it raises ([ValueError], for a reference it cannot parse). *)
Variable urljoin : string -> string -> result string.

Definition list_zip_links (srv : server) (base_url : string) (w : world)
  : result (list string) * world :=
  let w := send {| req_url := base_url; req_range := None |} w in
  match fetch_text srv base_url with
  | Raise e => (Raise e, w)
  | Ok text =>
      let links := findall text in
      (* the set is built reference by reference: the first that does not
         join ends the call *)
      match map_result (urljoin base_url) links with
      | Raise e => (Raise e, w)
      | Ok joined =>
          match sorted_set joined with
          | [] => (Raise no_zip_found, w)
          | z :: zs => (Ok (z :: zs), w)
          end
      end
  end.

(** The resolver sends one request and touches no file. *)
Lemma list_zip_links_world (srv : server) (base_url : string) (w : world) :
  snd (list_zip_links srv base_url w)
  = send {| req_url := base_url; req_range := None |} w.
Proof.
  unfold list_zip_links. cbn zeta. destruct (fetch_text srv base_url); [|reflexivity].
  destruct (map_result _ _); [|reflexivity]. now destruct (sorted_set _).
Qed.



End ListZipLinks.

(** The part of [urllib.parse.urljoin] that the examples need. A reference
    that starts with two slashes names a host, and [urlsplit] raises
    [ValueError] when the host opens a bracket that it does not close; the
    file names of a listing are appended to a base that ends with a slash.
    With an empty base the reference is returned as it is. *)
Definition sample_urljoin (base href : string) : result string :=
  match base with
  | EmptyString => Ok href
  | String _ _ =>
      if startswith "//[" href && negb (has_char "]" href)
      then Raise (ValueError "Invalid IPv6 URL")
      else Ok (base ++ href)%string
  end.

(** A page with the same archive twice and the archives out of order. *)
Example list_zip_links_run :
  let q := String dquote "" in
  let page := ("<a href=" ++ q ++ "Socios1.zip" ++ q ++ ">s</a> <A HREF=" ++ q
               ++ "Cnaes.ZIP" ++ q ++ "> <a href=" ++ q ++ "Socios1.zip" ++ q
               ++ "> <a href=" ++ q ++ "leiame.pdf" ++ q ++ ">")%string in
  let srv : server := fun _ => Response 200 [list_byte_of_string page] true in
  fst (list_zip_links sample_urljoin srv "http://rf/" {| files := ∅; sent := [] |})
  = Ok ["http://rf/Cnaes.ZIP"; "http://rf/Socios1.zip"].
Proof. vm_compute. reflexivity. Qed.

Definition page_of (hrefs : list string) : string :=
  fold_right (fun h rest => ("<a href=" ++ String dquote (h ++ String dquote rest))%string)
             "" hrefs.

Definition serving (page : string) : server :=
  fun _ => Response 200 [list_byte_of_string page] true.

(** C7 as stated fails: the page is fetched and holds a reference, yet the
    resolver raises, and not its own error: the reference names a host with a
    bracket left open, which [urljoin] refuses with [ValueError]. *)
Lemma malformed_reference_raises :
  let page := page_of ["//[x.zip"] in
  fetch_text (serving page) "http://rf/" = Ok page /\
  findall page = ["//[x.zip"] /\
  fst (list_zip_links sample_urljoin (serving page) "http://rf/"
         {| files := ∅; sent := [] |})
  = Raise (ValueError "Invalid IPv6 URL").
Proof. vm_compute. auto. Qed.

(** *** The order of the page does not matter *)


Section SameReferences.
Variable urljoin : string -> string -> result string.


End SameReferences.


End Index.


(** ** The archive extractor ([unzip_single_csv], the same in both scripts) *)

Module Unzip.
Import Text.

(** *** [pathlib] on POSIX, as far as the extractor uses it *)

Record Path : Type := { root : string; parts : list string }.

Definition slash : ascii := "/"%char.

(** The root of a path string: one slash, or two when there are exactly two. *)
Definition root_of (s : string) : string :=
  match s with
  | String "/" (String "/" (String "/" _)) => "/"
  | String "/" (String "/" _) => "//"
  | String "/" _ => "/"
  | _ => ""
  end.

(** The components that count: empty ones and [.] are dropped. *)
Definition real_part (x : string) : bool :=
  negb (String.eqb x "") && negb (String.eqb x ".").

(** [Path(s)] *)
Definition parse (s : string) : Path :=
  {| root := root_of s; parts := List.filter real_part (split_on slash s) |}.

(** [p / s] *)
Definition join (p : Path) (s : string) : Path :=
  let q := parse s in
  if String.eqb (root q) "" then {| root := root p; parts := parts p ++ parts q |} else q.

(** [p.name] *)
Definition name (p : Path) : string := List.last (parts p) "".

Definition Path_eqb (p q : Path) : bool :=
  String.eqb (root p) (root q) && bool_decide (parts p = parts q).

(** The text of [s] from its last dot on, when there is one: [s[s.rfind("."):]]. *)
Fixpoint from_last_dot (s : string) : option string :=
  match s with
  | EmptyString => None
  | String c s' =>
      match from_last_dot s' with
      | Some t => Some t
      | None => if Ascii.eqb c "."%char then Some s else None
      end
  end.

(** [PurePath.suffix] of a name: the last dot and what follows, unless the
    dot is the first or the last character. *)
Definition suffix_of_name (n : string) : string :=
  match from_last_dot n with
  | Some t =>
      if (String.length t <? String.length n)%nat && (1 <? String.length t)%nat
      then t else ""
  | None => ""
  end.

Definition suffix (p : Path) : string := suffix_of_name (name p).

(** [p.with_suffix(p.suffix + extra)]: the name with [extra] appended;
    a path without a name raises [ValueError]. *)
Definition with_suffix_added (p : Path) (extra : string) : option Path :=
  match name p with
  | EmptyString => None
  | String _ _ =>
      Some {| root := root p; parts := removelast (parts p) ++ [(name p ++ extra)%string] |}
  end.

(** [s[:n]] and [p.stem]: the name without its suffix. *)
Fixpoint prefix (n : nat) (s : string) : string :=
  match n, s with
  | S n', String c s' => String c (prefix n' s')
  | _, _ => EmptyString
  end.

Definition stem (p : Path) : string :=
  prefix (String.length (name p) - String.length (suffix p)) (name p).

(** [p / q] for a path [q], and [p.parent] *)
Definition join_path (p q : Path) : Path :=
  if String.eqb (root q) "" then {| root := root p; parts := parts p ++ parts q |} else q.

Definition parent_of (p : Path) : Path :=
  {| root := root p; parts := removelast (parts p) |}.

(** [str(p)] *)
Definition render (p : Path) : string :=
  match parts p with
  | [] => match root p with EmptyString => "." | _ => root p end
  | x :: rest => (root p ++ fold_left (fun s y => s ++ "/" ++ y) rest x)%string
  end.

(** *** The archive *)

(** What reading a member gives: its bytes; an exception when the member
    cannot be opened (it is encrypted, or packed by a method that is not
    supported); or [BadZipFile] when its check sum fails, once [written] has
    reached the target. *)
Variant payload : Type :=
  | Sound (content : list byte)
  | Unreadable (e : exn)
  | Damaged (written : list byte).

(** An entry of the archive's listing: name, uncompressed size as the
    listing states it, and the data. *)
Record entry : Type := { e_name : string; e_size : N; e_payload : payload }.

(** [z.getinfo(m)]: the archive keeps one info per name, the last. *)
Definition getinfo (entries : list entry) (m : string) : option entry :=
  List.find (fun e => String.eqb (e_name e) m) (rev entries).

Definition file_size (entries : list entry) (m : string) : N :=
  match getinfo entries m with
  | Some e => e_size e
  | None => 0%N
  end.

(** *** Member selection *)

(** [max(names, key=key)]: the first name with the greatest key. *)
Fixpoint max_by (key : string -> N) (best : string) (names : list string) : string :=
  match names with
  | [] => best
  | m :: rest => if (key best <? key m)%N then max_by key m rest else max_by key best rest
  end.

Definition tabular_suffix (m : string) : bool :=
  endswith_any ["csv"; ".csv"; ".txt"] (lower m).

Definition has_csv_token (m : string) : bool := contains "csv" (lower m).

Definition bfilter {A} (p : A -> bool) (l : list A) : list A := List.filter p l.

Definition select_member (entries : list entry) : option string :=
  let names := map e_name entries in
  match names with
  | [] => None
  | first :: rest =>
      let cand := bfilter tabular_suffix names in
      let cand := match cand with [] => bfilter has_csv_token names | _ :: _ => cand end in
      let cand := match cand with
                  | [] => [max_by (file_size entries) first rest]
                  | _ :: _ => cand
                  end in
      head cand
  end.

(** The name under which the member is kept: [.csv] is added unless the name
    ends with it already, letter case apart. *)
Definition base_name_of (member : string) : string :=
  let original_name := name (parse member) in
  if endswith ".csv" (lower original_name) then original_name
  else (original_name ++ ".csv")%string.

(** *** The file system under the extractor *)

(** A location is the list of the names that lead to it from the root. The
    directories are a set of locations and the files a map from locations to
    contents; the root is always a directory. There are no symbolic links, no
    permissions and one device. *)
Abbreviation loc := (list string).

Record fs : Type := {
  dirs : gset loc;
  data : gmap loc (list byte);
  cwd : loc
}.

Definition is_dir (f : fs) (l : loc) : bool :=
  bool_decide (l = []) || bool_decide (l ∈ dirs f).

Definition is_file (f : fs) (l : loc) : bool :=
  negb (is_dir f l) && bool_decide (is_Some (data f !! l)).

Definition present (f : fs) (l : loc) : bool := is_dir f l || is_file f l.

Definition add_dir (l : loc) (f : fs) : fs :=
  {| dirs := {[ l ]} ∪ dirs f; data := data f; cwd := cwd f |}.

Definition put (l : loc) (content : list byte) (f : fs) : fs :=
  {| dirs := dirs f; data := <[l := content]> (data f); cwd := cwd f |}.

Definition remove (l : loc) (f : fs) : fs :=
  {| dirs := dirs f; data := delete l (data f); cwd := cwd f |}.

(** One name further: [..] leads to the parent. *)
Definition step (cur : loc) (x : string) : loc :=
  if String.eqb x ".." then removelast cur else cur ++ [x].

Definition start (f : fs) (p : Path) : loc :=
  if String.eqb (root p) "" then cwd f else [].

(** The location a path names, whatever is there. *)
Definition locate (f : fs) (p : Path) : loc := fold_left step (parts p) (start f p).

(** The way to a location: every name before the last has to lead to a
    directory ([ENOTDIR] when a file is met, [ENOENT] when nothing is). *)
Fixpoint walk (f : fs) (p : Path) (cur : loc) (names : list string) : result loc :=
  match names with
  | [] => Ok cur
  | x :: rest =>
      if is_dir f cur then walk f p (step cur x) rest
      else if is_file f cur then Raise (OSError "NotADirectoryError")
      else Raise (FileNotFoundError (render p))
  end.

(** [os.stat(p)]: the location of something that is there. *)
Definition stat (f : fs) (p : Path) : result loc :=
  match walk f p (start f p) (parts p) with
  | Raise e => Raise e
  | Ok l => if present f l then Ok l else Raise (FileNotFoundError (render p))
  end.

(** [p.exists()] *)
Definition exists_path (f : fs) (p : Path) : bool := is_ok (stat f p).

(** Computations on the file system that may raise; what was done before an
    exception stays done. *)
Definition io (A : Type) : Type := fs -> result A * fs.

Definition pure {A} (a : A) : io A := fun f => (Ok a, f).

Definition fail {A} (e : exn) : io A := fun f => (Raise e, f).

Definition andthen {A B} (m : io A) (k : A -> io B) : io B :=
  fun f => match m f with
           | (Ok a, f') => k a f'
           | (Raise e, f') => (Raise e, f')
           end.

Notation "'do' m 'then' k" := (andthen m (fun _ => k))
  (at level 10, m at level 200, k at level 200).

(** [try: body  except Exception: pass] *)
Definition attempt (body : io unit) : io unit :=
  fun f => (Ok tt, snd (body f)).

(** The directories along [names] from [cur], made where they are missing:
    [mkdir(parents=True, exist_ok=True)] and [os.makedirs]. A file in the
    way raises. *)
Fixpoint make_dirs (cur : loc) (names : list string) : io unit :=
  fun f =>
    match names with
    | [] => (Ok tt, f)
    | x :: rest =>
        let next := step cur x in
        if is_dir f next then make_dirs next rest f
        else if is_file f next then
          (Raise (OSError match rest with
                          | [] => "FileExistsError"
                          | _ :: _ => "NotADirectoryError"
                          end), f)
        else make_dirs next rest (add_dir next f)
    end.

(** [ensure_dir(p)] *)
Definition ensure_dir (p : Path) : io unit :=
  fun f => make_dirs (start f p) (parts p) f.

(** [p.unlink()] *)
Definition unlink (p : Path) : io unit :=
  fun f =>
    match stat f p with
    | Raise e => (Raise e, f)
    | Ok l => if is_dir f l then (Raise (OSError "IsADirectoryError"), f)
              else (Ok tt, remove l f)
    end.

(** [if p.exists(): p.unlink()] *)
Definition unlink_if_exists (p : Path) : io unit :=
  fun f => if exists_path f p then unlink p f else (Ok tt, f).

(** [open(target, "wb")] and the writing of [content]. *)
Definition write_file (target : loc) (content : list byte) : io unit :=
  fun f =>
    if is_dir f target then (Raise (OSError "IsADirectoryError"), f)
    else if is_dir f (removelast target) then (Ok tt, put target content f)
    else if is_file f (removelast target) then (Raise (OSError "NotADirectoryError"), f)
    else (Raise (FileNotFoundError ""), f).

(** [os.mkdir(target)] *)
Definition mkdir (target : loc) : io unit :=
  fun f =>
    if present f target then (Raise (OSError "FileExistsError"), f)
    else if is_dir f (removelast target) then (Ok tt, add_dir target f)
    else if is_file f (removelast target) then (Raise (OSError "NotADirectoryError"), f)
    else (Raise (FileNotFoundError ""), f).

(** The names that [ZipFile.extract] keeps of a member's name: empty ones,
    [.] and [..] are dropped, and with them a leading slash. *)
Definition safe_part (x : string) : bool :=
  negb (String.eqb x "") && negb (String.eqb x ".") && negb (String.eqb x "..").

Definition arcname (filename : string) : list string :=
  List.filter safe_part (split_on slash filename).

(** [z.extract(member, path=extract_dir)]: the target lies under the
    extraction directory, at the names kept of the member's name; the
    directories above it are made; a member whose name ends with a slash is a
    directory. *)
Definition extract (entries : list entry) (member : string) (extract_dir : Path) : io unit :=
  fun f =>
    match getinfo entries member with
    | None => (Raise (OtherError "KeyError"), f)
    | Some e =>
        let names := arcname (e_name e) in
        let target := locate f extract_dir ++ names in
        let upperdirs := removelast target in
        (do (fun f => if present f upperdirs then (Ok tt, f)
                      else make_dirs [] upperdirs f) then
         match e_name e with
         | EmptyString => fail (OtherError "IndexError")
         | String _ _ =>
             if endswith "/" (e_name e) then
               fun f => if is_dir f target then (Ok tt, f) else mkdir target f
             else
               match e_payload e with
               | Unreadable e => fail e
               | Sound content => write_file target content
               | Damaged written => do write_file target written then fail BadZipFile
               end
         end) f
    end.

(** Is [d] at or above [k]? *)
Definition above (d k : loc) : bool := bool_decide (d `prefix_of` k).

(** [os.rename(src, dst)] on something that is there: a file takes the place
    of the file at [dst]; a directory moves with all that is in it. *)
Definition move_tree (src dst : loc) (f : fs) : fs :=
  let new l := if above src l then dst ++ drop (length src) l else l in
  {| dirs := set_map new (dirs f);
     data := list_to_map (map (fun kv => (new (fst kv), snd kv)) (map_to_list (data f)));
     cwd := cwd f |}.

Definition has_entries (f : fs) (d : loc) : bool :=
  existsb (fun k => above d k && negb (bool_decide (k = d)))
          (elements (dirs f) ++ map fst (map_to_list (data f))).

Definition rename_loc (src dst : loc) : io unit :=
  fun f =>
    if is_dir f src then
      if bool_decide (src = dst) then (Ok tt, f)
      else if above src dst then (Raise (OSError "EINVAL"), f)
      else if is_file f dst then (Raise (OSError "NotADirectoryError"), f)
      else if is_dir f dst && has_entries f dst then (Raise (OSError "ENOTEMPTY"), f)
      else (Ok tt, move_tree src dst f)
    else
      match data f !! src with
      | None => (Raise (FileNotFoundError ""), f)
      | Some content =>
          if is_dir f dst then (Raise (OSError "IsADirectoryError"), f)
          else (Ok tt, put dst content (remove src f))
      end.

(** [p.rename(q)] *)
Definition rename (p q : Path) : io unit :=
  fun f =>
    match stat f p with
    | Raise e => (Raise e, f)
    | Ok src => rename_loc src (locate f q) f
    end.

(** [shutil.move(str(src), str(dst))], [dst] lying in a directory that is
    there: into [dst] when that is a directory, where nothing of the name of
    [src] may be; else onto [dst]. When [os.rename] fails, so do the copies
    that [shutil] tries in its place. *)
Definition move (src dst : Path) : io unit :=
  fun f =>
    let to := locate f dst in
    if is_dir f to then
      if match stat f src with Ok from => bool_decide (from = to) | Raise _ => false end
      then (Ok tt, f)
      else
        match name src with
        | EmptyString => (Raise (ShutilError "Destination path already exists"), f)
        | String _ _ =>
            if present f (step to (name src))
            then (Raise (ShutilError "Destination path already exists"), f)
            else match stat f src with
                 | Raise e => (Raise e, f)
                 | Ok from => rename_loc from (step to (name src)) f
                 end
        end
    else
      match stat f src with
      | Raise e => (Raise e, f)
      | Ok from => rename_loc from to f
      end.

(** No file lies at or under [d]. *)
Definition barren (f : fs) (d : loc) : bool :=
  forallb (fun k => negb (above d k)) (map fst (map_to_list (data f))).

(** The cleaning after a move: under [subdir], when it is there, every
    directory is removed that can be, the deepest first, and then [subdir]
    itself: those go that hold no file at any depth. *)
Definition prune (subdir : Path) : io unit :=
  fun f =>
    match stat f subdir with
    | Raise _ => (Ok tt, f)
    | Ok l =>
        (Ok tt, {| dirs := filter (fun d => ~ (above l d = true /\ barren f d = true)) (dirs f);
                   data := data f; cwd := cwd f |})
    end.

(** [unzip_single_csv] on an archive that opens, given by its listing. *)
Definition unzip_single_csv (zip_name : string) (entries : list entry) (extract_dir : Path)
  : io Path :=
  do ensure_dir extract_dir then
  match select_member entries with
  | None => fail (RuntimeError ("Nenhum arquivo dentro de " ++ zip_name))
  | Some member =>
      let out_path := join extract_dir (base_name_of member) in
      do unlink_if_exists out_path then
      do extract entries member extract_dir then
      let extracted := join extract_dir member in
      if negb (Path_eqb extracted out_path) then
        do ensure_dir (parent_of out_path) then
        do move extracted out_path then
        do attempt (prune (join_path extract_dir (parent_of (parse member)))) then
        pure out_path
      else if negb (String.eqb (lower (suffix out_path)) ".csv") then
        match with_suffix_added out_path ".csv" with
        | None => fail (ValueError "empty name")
        | Some final_csv =>
            do unlink_if_exists final_csv then
            do rename out_path final_csv then
            pure final_csv
        end
      else pure out_path
  end.

(** A file system with the root alone, and runs of the extractor on it. *)
Definition bare : fs := {| dirs := ∅; data := ∅; cwd := [] |}.

Definition csv_tmp : Path := {| root := "/"; parts := ["work"; "csv_tmp"] |}.

Definition one_file (name : string) : list entry :=
  [{| e_name := name; e_size := 4; e_payload := Sound [x44; x41; x54; x41] |}].

(** *** The selection policy, in the words of the specification *)

(** [s] ends with [suffix], letter case apart ([suffix] is in lower case). *)
Definition ends_with_ci (suffix s : string) : Prop :=
  exists pre tail, s = (pre ++ tail)%string /\ lower tail = suffix.

(** The name ends with a tabular suffix: csv, .csv or .txt. *)
Definition tabular_name (m : string) : Prop :=
  ends_with_ci "csv" m \/ ends_with_ci ".csv" m \/ ends_with_ci ".txt" m.

(** The name contains the token csv, letter case apart. *)
Definition csv_token_name (m : string) : Prop :=
  exists pre token post, m = (pre ++ token ++ post)%string /\ lower token = "csv".

(** The uncompressed size that the listing gives for the name [m], in its
    last entry of that name. *)
Definition listed_size (entries : list entry) (m : string) (size : N) : Prop :=
  exists before e after,
    entries = before ++ e :: after /\ e_name e = m /\ e_size e = size /\
    Forall (fun x => e_name x <> m) after.

(** [m] is the first of [names], in their order, that satisfies [P]. *)
Definition first_with (P : string -> Prop) (names : list string) (m : string) : Prop :=
  exists before after,
    names = before ++ m :: after /\ P m /\ Forall (fun x => ~ P x) before.

Definition none_with (P : string -> Prop) (names : list string) : Prop :=
  Forall (fun x => ~ P x) names.

(** [m] is the first of [names] among those of the greatest listed size. *)
Definition first_largest (entries : list entry) (names : list string) (m : string) : Prop :=
  exists before after size,
    names = before ++ m :: after /\ listed_size entries m size /\
    Forall (fun x => exists s, listed_size entries x s /\ (s < size)%N) before /\
    Forall (fun x => exists s, listed_size entries x s /\ (s <= size)%N) after.

Definition policy (entries : list entry) (m : string) : Prop :=
  let names := map e_name entries in
  first_with tabular_name names m \/
  (none_with tabular_name names /\ first_with csv_token_name names m) \/
  (none_with tabular_name names /\ none_with csv_token_name names /\
   first_largest entries names m).

(** Where the returned path lies: directly in [dir], under the last name of
    the member, to which .csv is added unless it ends with it, letter case
    apart (a name that is the extension alone may get it once more). *)
Definition lands_in (dir : Path) (member : string) (out_path : Path) : Prop :=
  let original := name (parse member) in
  root out_path = root dir /\
  parts out_path = parts dir ++ [name out_path] /\
  has_char slash (name out_path) = false /\
  ends_with_ci ".csv" (name out_path) /\
  ((ends_with_ci ".csv" original /\ name out_path = original) \/
   ((~ ends_with_ci ".csv" original \/ lower original = ".csv") /\
    name out_path = (original ++ ".csv")%string)).

(** *** Properties of the selection *)

Lemma endswith_ci (suffix s : string) :
  endswith suffix (lower s) = true <-> ends_with_ci suffix s.
Proof.
  unfold ends_with_ci. rewrite endswith_split. split.
  - intros (pre & H). destruct (lower_split _ _ _ H) as (x & y & -> & _ & Hy). now exists x, y.
  - intros (pre & tail & -> & <-). exists (lower pre). apply lower_append.
Qed.

Lemma tabular_suffix_name (m : string) : tabular_suffix m = true <-> tabular_name m.
Proof.
  unfold tabular_suffix, tabular_name, endswith_any. cbn [existsb].
  rewrite orb_false_r, !orb_true_iff, !endswith_ci. tauto.
Qed.

Lemma has_csv_token_name (m : string) : has_csv_token m = true <-> csv_token_name m.
Proof.
  unfold has_csv_token, csv_token_name. rewrite contains_split. split.
  - intros (pre & post & H). destruct (lower_split _ _ _ H) as (x & y & -> & _ & Hy).
    destruct (lower_split _ _ _ Hy) as (t & z & -> & Ht & _). now exists x, t, z.
  - intros (pre & token & post & -> & <-). exists (lower pre), (lower post).
    now rewrite !lower_append.
Qed.

Lemma bfilter_nil (p : string -> bool) (P : string -> Prop) (l : list string) :
  (forall x, p x = true <-> P x) -> bfilter p l = [] -> none_with P l.
Proof.
  intros HP. unfold bfilter, none_with. induction l as [|x l IH]; cbn [List.filter]; intros H.
  - constructor.
  - destruct (p x) eqn:Hp; [discriminate|]. constructor; [|auto].
    rewrite <- HP, Hp. discriminate.
Qed.

Lemma bfilter_head (p : string -> bool) (P : string -> Prop) (l : list string) m rest :
  (forall x, p x = true <-> P x) -> bfilter p l = m :: rest -> first_with P l m.
Proof.
  intros HP. unfold bfilter, first_with. induction l as [|x l IH]; cbn [List.filter]; intros H.
  - discriminate.
  - destruct (p x) eqn:Hp.
    + injection H as -> _. exists [], l. repeat split; [now apply HP|constructor].
    + destruct (IH H) as (before & after & -> & Hm & Hb).
      exists (x :: before), after. repeat split; [exact Hm|]. constructor; [|exact Hb].
      rewrite <- HP, Hp. discriminate.
Qed.

(** The first of the greatest, for a key function. *)
Lemma max_by_spec (key : string -> N) (names : list string) : forall best,
  exists before after,
    best :: names = before ++ max_by key best names :: after /\
    Forall (fun x => (key x < key (max_by key best names))%N) before /\
    Forall (fun x => (key x <= key (max_by key best names))%N) after.
Proof.
  induction names as [|m rest IH]; intros best; cbn [max_by].
  - exists [], []. repeat split; constructor.
  - destruct (key best <? key m)%N eqn:Hlt.
    + apply N.ltb_lt in Hlt.
      destruct (IH m) as (before & after & Heq & Hb & Ha).
      set (M := max_by key m rest) in *.
      exists (best :: before), after. split; [cbn [app]; now rewrite Heq|].
      split; [|exact Ha]. constructor; [|exact Hb].
      destruct before as [|b before]; injection Heq as Hm Heq.
      * now rewrite <- Hm.
      * subst b. apply Forall_cons in Hb as [Hb _]. lia.
    + apply N.ltb_ge in Hlt.
      destruct (IH best) as (before & after & Heq & Hb & Ha).
      set (M := max_by key best rest) in *.
      destruct before as [|b before]; injection Heq as Hbest Heq.
      * exists [], (m :: after). split; [cbn [app]; now rewrite <- Hbest, Heq|].
        split; [constructor|]. constructor; [now rewrite <- Hbest|exact Ha].
      * subst b. exists (best :: m :: before), after.
        split; [cbn [app]; now rewrite Heq|]. split; [|exact Ha].
        apply Forall_cons in Hb as [Hb1 Hb2].
        constructor; [exact Hb1|]. constructor; [lia|exact Hb2].
Qed.

(** The info that [getinfo] finds is the last entry of the name. *)
Lemma getinfo_last (entries : list entry) (m : string) :
  m ∈ map e_name entries ->
  exists before e after,
    entries = before ++ e :: after /\ e_name e = m /\
    Forall (fun x => e_name x <> m) after /\ getinfo entries m = Some e.
Proof.
  unfold getinfo. induction entries as [|a l IH] using rev_ind; intros Hin.
  - now apply elem_of_nil in Hin.
  - rewrite rev_unit. cbn [List.find]. destruct (String.eqb (e_name a) m) eqn:Ha.
    + apply String.eqb_eq in Ha. exists l, a, []. repeat split; [exact Ha|constructor].
    + apply String.eqb_neq in Ha. rewrite map_app in Hin. apply elem_of_app in Hin as [Hin|Hin].
      * destruct (IH Hin) as (before & e & after & -> & He & Hafter & Hfind).
        exists before, e, (after ++ [a]). rewrite <- app_assoc. repeat split; try assumption.
        apply Forall_app. split; [exact Hafter|]. now constructor.
      * cbn in Hin. apply list_elem_of_singleton in Hin. now subst m.
Qed.

Lemma file_size_listed (entries : list entry) (m : string) :
  m ∈ map e_name entries -> listed_size entries m (file_size entries m).
Proof.
  intros Hin. destruct (getinfo_last entries m Hin) as (before & e & after & H1 & H2 & H3 & H4).
  unfold file_size. rewrite H4. now exists before, e, after.
Qed.

Lemma select_member_policy (entries : list entry) :
  entries <> [] ->
  exists m, select_member entries = Some m /\ policy entries m /\ m ∈ map e_name entries.
Proof.
  intros Hne.
  assert (Hin : forall P names m, first_with P names m -> m ∈ names).
  { intros P names m (before & after & -> & _). apply elem_of_app. right. left. }
  unfold select_member, policy. cbn zeta.
  destruct (map e_name entries) as [|first rest] eqn:Hnames.
  { destruct entries; [contradiction|discriminate]. }
  destruct (bfilter tabular_suffix (first :: rest)) as [|m1 c1] eqn:H1.
  - apply (bfilter_nil _ _ _ tabular_suffix_name) in H1.
    destruct (bfilter has_csv_token (first :: rest)) as [|m2 c2] eqn:H2.
    + apply (bfilter_nil _ _ _ has_csv_token_name) in H2. eexists. split; [reflexivity|].
      destruct (max_by_spec (file_size entries) rest first) as (before & after & Heq & Hb & Ha).
      set (M := max_by (file_size entries) first rest) in *.
      assert (HM : M ∈ first :: rest) by (rewrite Heq; apply elem_of_app; right; left).
      split; [|exact HM]. right. right. repeat split; [exact H1|exact H2|].
      exists before, after, (file_size entries M). split; [exact Heq|].
      split; [apply file_size_listed; now rewrite Hnames|].
      split.
      * apply Forall_forall. intros x Hx. exists (file_size entries x). split.
        -- apply file_size_listed. rewrite Hnames, Heq. apply elem_of_app. now left.
        -- rewrite Forall_forall in Hb. now apply Hb.
      * apply Forall_forall. intros x Hx. exists (file_size entries x). split.
        -- apply file_size_listed. rewrite Hnames, Heq. apply elem_of_app. right. now right.
        -- rewrite Forall_forall in Ha. now apply Ha.
    + apply (bfilter_head _ _ _ _ _ has_csv_token_name) in H2. exists m2.
      split; [reflexivity|]. split; [right; left; auto|]. now apply (Hin csv_token_name).
  - apply (bfilter_head _ _ _ _ _ tabular_suffix_name) in H1. exists m1.
    split; [reflexivity|]. split; [now left|]. now apply (Hin tabular_name).
Qed.

Lemma select_member_none (entries : list entry) :
  select_member entries = None <-> entries = [].
Proof.
  split.
  - intros H. destruct entries as [|e rest]; [reflexivity|].
    destruct (select_member_policy (e :: rest)) as (m & Hm & _); [discriminate|].
    rewrite Hm in H. discriminate.
  - intros ->. reflexivity.
Qed.

(** *** Names and paths *)

Lemma split_on_no_sep (sep : ascii) (s : string) :
  Forall (fun x => has_char sep x = false) (split_on sep s).
Proof.
  induction s as [|c s IH]; cbn [split_on].
  - repeat constructor.
  - destruct (Ascii.eqb c sep) eqn:Hc.
    + constructor; [reflexivity|exact IH].
    + destruct (split_on sep s) as [|x xs]; [repeat constructor;
        cbn [has_char]; now rewrite Ascii.eqb_sym, Hc|].
      apply Forall_cons in IH as [Hx Hxs]. constructor; [|exact Hxs].
      cbn [has_char]. now rewrite Ascii.eqb_sym, Hc.
Qed.

Lemma split_on_single (sep : ascii) (s : string) :
  has_char sep s = false -> split_on sep s = [s].
Proof.
  induction s as [|c s IH]; cbn [split_on has_char]; [reflexivity|].
  intros H. apply orb_false_iff in H as [Hc Hs].
  rewrite Ascii.eqb_sym, Hc, (IH Hs). reflexivity.
Qed.

Lemma name_no_slash (p : string) : has_char slash (name (parse p)) = false.
Proof.
  unfold name, parse. cbn [parts].
  assert (H : Forall (fun x => has_char slash x = false)
                (List.filter real_part (split_on slash p))).
  { apply List.Forall_forall. intros x Hx. apply List.filter_In in Hx as [Hx _].
    pose proof (split_on_no_sep slash p) as Hall.
    rewrite List.Forall_forall in Hall. now apply Hall. }
  induction H as [|x l Hx Hl IH]; [reflexivity|].
  destruct l as [|y l]; [exact Hx|exact IH].
Qed.

Lemma base_name_csv (member : string) :
  endswith ".csv" (lower (base_name_of member)) = true /\
  has_char slash (base_name_of member) = false.
Proof.
  unfold base_name_of. cbn zeta.
  destruct (endswith ".csv" (lower (name (parse member)))) eqn:He.
  - split; [exact He|apply name_no_slash].
  - split.
    + rewrite lower_append. apply endswith_append.
    + rewrite has_char_append, name_no_slash. reflexivity.
Qed.

(** A name that ends in [.csv] and has no slash is one path component. *)
Lemma parse_name (n : string) :
  endswith ".csv" (lower n) = true -> has_char slash n = false ->
  parse n = {| root := ""; parts := [n] |}.
Proof.
  intros He Hs. apply endswith_length in He. rewrite length_lower in He. cbn in He.
  unfold parse. rewrite (split_on_single _ _ Hs).
  assert (Hreal : real_part n = true).
  { destruct n as [|a [|b n]]; cbn in He; try lia.
    unfold real_part. cbn [String.eqb negb andb]. now destruct (Ascii.eqb a _). }
  assert (Hroot : root_of n = "").
  { destruct n as [|a n]; [reflexivity|]. cbn [has_char] in Hs.
    apply orb_false_iff in Hs as [Ha _]. unfold slash in Ha.
    destruct a as [[] [] [] [] [] [] [] []]; try reflexivity. discriminate. }
  rewrite Hroot. f_equal. cbn [List.filter]. now rewrite Hreal.
Qed.

Lemma last_snoc {A} (l : list A) (x d : A) : List.last (l ++ [x]) d = x.
Proof. apply List.last_last. Qed.

Lemma join_name (dir : Path) (n : string) :
  endswith ".csv" (lower n) = true -> has_char slash n = false ->
  join dir n = {| root := root dir; parts := parts dir ++ [n] |} /\
  name (join dir n) = n.
Proof.
  intros He Hs. unfold join. rewrite (parse_name n He Hs). cbn [root parts String.eqb].
  split; [reflexivity|]. unfold name. cbn [parts]. apply last_snoc.
Qed.

Lemma from_last_dot_append (pre t t' : string) :
  from_last_dot t = Some t' -> from_last_dot (pre ++ t) = Some t'.
Proof.
  intros H. induction pre as [|c pre IH]; [exact H|].
  cbn [String.append from_last_dot]. now rewrite IH.
Qed.

(** The suffix of a name that ends in [.csv] is that ending, unless the name
    is the ending alone. *)
Lemma suffix_of_csv_name (n : string) :
  ends_with_ci ".csv" n ->
  lower (suffix_of_name n) = ".csv" \/ lower n = ".csv".
Proof.
  intros (pre & tail & -> & Htail).
  destruct tail as [|d [|c [|s [|v [|x tail]]]]]; try discriminate Htail.
  injection Htail as Hd Hc Hs Hv.
  assert (Hdot : d = "."%char).
  { revert Hd. unfold lower_char.
    destruct (in_range 65 90 d) eqn:H1; [|destruct (in_range 192 222 d && _) eqn:H2];
      try (intros <-; reflexivity).
    all: intros H; exfalso; revert H1 H2 || revert H1; revert H;
      destruct d as [[] [] [] [] [] [] [] []]; vm_compute; congruence. }
  subst d.
  assert (Hlast : from_last_dot (String "." (String c (String s (String v ""))))
                  = Some (String "." (String c (String s (String v ""))))).
  { cbn [from_last_dot].
    destruct (Ascii.eqb v ".") eqn:Ev; [apply Ascii.eqb_eq in Ev; subst v; discriminate Hv|].
    destruct (Ascii.eqb s ".") eqn:Es; [apply Ascii.eqb_eq in Es; subst s; discriminate Hs|].
    destruct (Ascii.eqb c ".") eqn:Ec; [apply Ascii.eqb_eq in Ec; subst c; discriminate Hc|].
    reflexivity. }
  destruct pre as [|p pre].
  - right. cbn [String.append lower]. now rewrite Hc, Hs, Hv.
  - left. unfold suffix_of_name. rewrite (from_last_dot_append _ _ _ Hlast).
    rewrite length_append. cbn [String.length].
    replace (4 <? S (String.length pre) + 4)%nat with true
      by (symmetry; apply Nat.ltb_lt; lia).
    cbn [Nat.ltb Nat.leb andb lower]. now rewrite Hc, Hs, Hv.
Qed.

(** *** Properties of the extractor *)

Lemma andthen_ok {A B} (m : io A) (k : A -> io B) (f f' : fs) (r : B) :
  andthen m k f = (Ok r, f') ->
  exists a f1, m f = (Ok a, f1) /\ k a f1 = (Ok r, f').
Proof.
  unfold andthen. destruct (m f) as [[a|e] f1]; [|discriminate]. eauto.
Qed.

(** What is returned lies directly in the extraction directory, under the
    name that the member gives it. *)
Lemma unzip_single_csv_lands (zip_name : string) (entries : list entry)
    (extract_dir : Path) (f f' : fs) (out_path : Path) :
  unzip_single_csv zip_name entries extract_dir f = (Ok out_path, f') ->
  exists member, select_member entries = Some member /\ lands_in extract_dir member out_path.
Proof.
  unfold unzip_single_csv. intros H.
  apply andthen_ok in H as (? & f1 & _ & H).
  destruct (select_member entries) as [member|]; [|discriminate].
  exists member. split; [reflexivity|]. cbn zeta in H.
  apply andthen_ok in H as (? & f2 & _ & H).
  apply andthen_ok in H as (? & f3 & _ & H).
  destruct (base_name_csv member) as [He Hs].
  destruct (join_name extract_dir _ He Hs) as [Hjoin Hname].
  assert (Hplain : lands_in extract_dir member (join extract_dir (base_name_of member))).
  { unfold lands_in. cbn zeta. rewrite Hname, Hjoin. cbn [root parts].
    split; [reflexivity|]. split; [reflexivity|]. split; [exact Hs|].
    split; [now apply endswith_ci|].
    unfold base_name_of. cbn zeta.
    destruct (endswith ".csv" (lower (name (parse member)))) eqn:Hn.
    - left. split; [now apply endswith_ci|reflexivity].
    - right. split; [|reflexivity]. left. rewrite <- endswith_ci, Hn. discriminate. }
  destruct (Path_eqb (join extract_dir member) (join extract_dir (base_name_of member)))
    eqn:Hsame; cbn [negb] in H.
  2:{ apply andthen_ok in H as (? & f4 & _ & H).
      apply andthen_ok in H as (? & f5 & _ & H).
      apply andthen_ok in H as (? & f6 & _ & H).
      now injection H as <- _. }
  assert (Horig : name (parse member) = base_name_of member).
  { unfold Path_eqb in Hsame. apply andb_true_iff in Hsame as [_ Hparts].
    apply bool_decide_eq_true in Hparts. rewrite Hjoin in Hparts. cbn [parts] in Hparts.
    unfold join in Hparts. destruct (String.eqb (root (parse member)) "");
      cbn [parts] in Hparts.
    - apply app_inv_head in Hparts. unfold name. now rewrite Hparts.
    - unfold name. rewrite Hparts. apply last_snoc. }
  destruct (negb (String.eqb (lower (suffix (join extract_dir (base_name_of member))))
                    ".csv")) eqn:Hsuf.
  - destruct (with_suffix_added _ _) as [final_csv|] eqn:Hw; [|discriminate].
    apply andthen_ok in H as (? & f4 & _ & H).
    apply andthen_ok in H as (? & f5 & _ & H).
    injection H as <- _.
    unfold with_suffix_added in Hw. rewrite Hname in Hw.
    destruct (base_name_of member) as [|c n] eqn:Hb; [discriminate|].
    injection Hw as <-. rewrite Hjoin. cbn [root parts].
    apply negb_true_iff, String.eqb_neq in Hsuf.
    unfold suffix in Hsuf. rewrite Hname in Hsuf.
    assert (Hcsv : ends_with_ci ".csv" (String c n)) by now apply endswith_ci.
    destruct (suffix_of_csv_name _ Hcsv) as [Hbad|Hall]; [contradiction|].
    unfold lands_in, name. cbn [root parts]. cbn zeta.
    rewrite removelast_last, !last_snoc.
    fold (name (parse member)). rewrite Horig.
    split; [reflexivity|]. split; [reflexivity|]. split.
    { change (has_char slash (String c n ++ ".csv") = false).
      now rewrite has_char_append, Hs. }
    split; [exists (String c n), ".csv"; auto|].
    right. split; [now right|reflexivity].
  - now injection H as <- _.
Qed.

(** *** A member with a plain name, into a vacant directory *)

Lemma step_plain (cur : loc) (x : string) : x <> ".." -> step cur x = cur ++ [x].
Proof. intros H. unfold step. apply String.eqb_neq in H. now rewrite H. Qed.

Lemma locate_plain (f : fs) (p : Path) :
  root p <> "" -> Forall (fun x => x <> "..") (parts p) -> locate f p = parts p.
Proof.
  intros Hroot Hparts. unfold locate, start. apply String.eqb_neq in Hroot. rewrite Hroot.
  assert (H : forall cur, fold_left step (parts p) cur = cur ++ parts p).
  { induction Hparts as [|x l Hx Hl IH]; intros cur; cbn [fold_left].
    - now rewrite app_nil_r.
    - rewrite IH, (step_plain _ _ Hx), <- app_assoc. reflexivity. }
  apply H.
Qed.

Lemma is_dir_add_dir (l l' : loc) (f : fs) :
  is_dir (add_dir l f) l' = is_dir f l' || bool_decide (l' = l).
Proof.
  unfold is_dir, add_dir. cbn [dirs].
  destruct (bool_decide (l' = [])) eqn:H0; [reflexivity|]. cbn [orb].
  apply eq_true_iff_eq.
  rewrite orb_true_iff, !bool_decide_eq_true, elem_of_union, elem_of_singleton. tauto.
Qed.

Lemma is_dir_elem (f : fs) (l : loc) : l <> [] -> is_dir f l = true <-> l ∈ dirs f.
Proof.
  intros Hl. unfold is_dir. rewrite orb_true_iff, !bool_decide_eq_true. tauto.
Qed.

(** Making the directories along names among which no file lies. *)
Lemma make_dirs_ok (names : list string) : forall cur f,
  Forall (fun x => x <> "..") names ->
  (forall k, 0 < k <= length names -> is_file f (cur ++ firstn k names) = false) ->
  exists f',
    make_dirs cur names f = (Ok tt, f') /\ data f' = data f /\ cwd f' = cwd f /\
    (forall l, l ∈ dirs f' <->
               l ∈ dirs f \/ exists k, 0 < k <= length names /\ l = cur ++ firstn k names).
Proof.
  induction names as [|x rest IH]; intros cur f Hplain Hfree.
  - exists f. cbn [make_dirs length]. repeat split; [tauto|].
    intros [H|(k & Hk & _)]; [exact H|lia].
  - apply Forall_cons in Hplain as [Hx Hrest]. cbn [make_dirs].
    rewrite (step_plain _ _ Hx).
    assert (Hshift : forall k, (cur ++ [x]) ++ firstn k rest = cur ++ firstn (S k) (x :: rest)).
    { intros k. now rewrite <- app_assoc. }
    pose proof (Hfree 1 ltac:(cbn [length]; lia)) as Hnext.
    change (firstn 1 (x :: rest)) with [x] in Hnext.
    destruct (is_dir f (cur ++ [x])) eqn:Hdir.
    + destruct (IH (cur ++ [x]) f Hrest) as (f' & Hm & Hd & Hc & Hdirs).
      { intros k Hk. rewrite Hshift. apply Hfree. cbn [length]. lia. }
      exists f'. repeat split; try assumption.
      * intros Hl. apply Hdirs in Hl as [Hl|(k & Hk & ->)]; [now left|].
        right. exists (S k). split; [cbn [length]; lia|apply Hshift].
      * intros [Hl|(k & Hk & ->)]; apply Hdirs; [now left|].
        destruct k as [|k]; [lia|]. destruct k as [|k].
        -- left. change (firstn 1 (x :: rest)) with [x].
           apply is_dir_elem; [now destruct cur|exact Hdir].
        -- right. exists (S k). split; [cbn [length] in Hk; lia|].
           now rewrite Hshift.
    + rewrite Hnext.
      destruct (IH (cur ++ [x]) (add_dir (cur ++ [x]) f) Hrest) as (f' & Hm & Hd & Hc & Hdirs).
      { intros k Hk. rewrite Hshift. unfold is_file.
        rewrite is_dir_add_dir. cbn [data add_dir].
        pose proof (Hfree (S k) ltac:(cbn [length]; lia)) as Hf. unfold is_file in Hf.
        destruct (is_dir f (cur ++ firstn (S k) (x :: rest))); [reflexivity|].
        cbn [orb negb andb] in Hf |- *. rewrite Hf. now rewrite andb_false_r. }
      exists f'. repeat split; try assumption.
      * intros Hl. apply Hdirs in Hl as [Hl|(k & Hk & ->)].
        -- cbn [dirs add_dir] in Hl. apply elem_of_union in Hl as [Hl|Hl]; [|now left].
           apply elem_of_singleton in Hl. subst l. right. exists 1.
           split; [cbn [length]; lia|reflexivity].
        -- right. exists (S k). split; [cbn [length]; lia|apply Hshift].
      * intros [Hl|(k & Hk & ->)]; apply Hdirs.
        -- left. cbn [dirs add_dir]. apply elem_of_union. now right.
        -- destruct k as [|k]; [lia|]. destruct k as [|k].
           ++ left. change (firstn 1 (x :: rest)) with [x]. cbn [dirs add_dir].
              apply elem_of_union. left.
              now apply elem_of_singleton.
           ++ right. exists (S k). split; [cbn [length] in Hk; lia|]. now rewrite Hshift.
Qed.

Lemma make_dirs_noop (names : list string) : forall cur f,
  Forall (fun x => x <> "..") names ->
  (forall k, 0 < k <= length names -> is_dir f (cur ++ firstn k names) = true) ->
  make_dirs cur names f = (Ok tt, f).
Proof.
  induction names as [|x rest IH]; intros cur f Hplain Hdirs; [reflexivity|].
  apply Forall_cons in Hplain as [Hx Hrest]. cbn [make_dirs].
  rewrite (step_plain _ _ Hx).
  pose proof (Hdirs 1 ltac:(cbn [length]; lia)) as Hnext.
    change (firstn 1 (x :: rest)) with [x] in Hnext.
  rewrite Hnext. apply IH; [exact Hrest|].
  intros k Hk. rewrite <- app_assoc. apply (Hdirs (S k)). cbn [length]. lia.
Qed.

Lemma walk_ok (f : fs) (p : Path) (names : list string) : forall cur,
  Forall (fun x => x <> "..") names ->
  (forall k, k < length names -> is_dir f (cur ++ firstn k names) = true) ->
  walk f p cur names = Ok (cur ++ names).
Proof.
  induction names as [|x rest IH]; intros cur Hplain Hdirs; cbn [walk].
  - now rewrite app_nil_r.
  - apply Forall_cons in Hplain as [Hx Hrest].
    pose proof (Hdirs 0 ltac:(cbn [length]; lia)) as Hcur.
    change (firstn 0 (x :: rest)) with (@nil string) in Hcur.
    rewrite app_nil_r in Hcur. rewrite Hcur, (step_plain _ _ Hx).
    rewrite IH; [now rewrite <- app_assoc|exact Hrest|].
    intros k Hk. rewrite <- app_assoc. apply (Hdirs (S k)). cbn [length]. lia.
Qed.

(** The extraction directory is [vacant] when no file lies at it or on the
    way to it, and nothing lies in it. *)
Definition vacant (f : fs) (base : loc) : Prop :=
  (forall l, l `prefix_of` base -> is_file f l = false) /\
  (forall l, base `prefix_of` l -> l <> base -> present f l = false).

(** The directories down to [base] are there, and nothing is in [base]. *)
Definition ready (f : fs) (base : loc) : Prop :=
  (forall l, l `prefix_of` base -> is_dir f l = true) /\
  (forall l, base `prefix_of` l -> l <> base -> present f l = false).

Lemma app_ne_self {A} (l r : list A) : r <> [] -> l ++ r <> l.
Proof.
  intros Hr H. apply (f_equal (@length A)) in H. rewrite length_app in H.
  destruct r; [contradiction|cbn in H; lia].
Qed.

Lemma prefix_of_removelast {A} (l : list A) : removelast l `prefix_of` l.
Proof.
  destruct l as [|x l] using rev_ind; [reflexivity|].
  rewrite removelast_last. now exists [x].
Qed.

Lemma prefix_of_snoc {A} (l base : list A) (x : A) :
  l `prefix_of` base ++ [x] -> l <> base ++ [x] -> l `prefix_of` base.
Proof.
  intros [r Hl] Hneq.
  destruct r as [|y r] using rev_ind; [rewrite app_nil_r in Hl; congruence|].
  rewrite app_assoc in Hl. apply app_inj_tail in Hl as [Hl _]. now exists r.
Qed.

Lemma prefix_firstn (l path : loc) : l `prefix_of` path <-> l = firstn (length l) path.
Proof.
  split.
  - intros [rest ->]. now rewrite take_app_length.
  - intros ->. apply prefix_take.
Qed.

Lemma prefix_both (a b : loc) : a `prefix_of` b -> b `prefix_of` a -> a = b.
Proof.
  intros [r1 ->] [r2 H]. rewrite <- app_assoc in H.
  rewrite <- (app_nil_r a) in H at 1. apply app_inv_head in H.
  symmetry in H. apply app_eq_nil in H as [-> _]. now rewrite app_nil_r.
Qed.

(** The directories from the root down to [path]. *)
Lemma make_dirs_root (path : loc) (f : fs) :
  Forall (fun x => x <> "..") path ->
  (forall l, l `prefix_of` path -> is_file f l = false) ->
  exists f',
    make_dirs [] path f = (Ok tt, f') /\ data f' = data f /\
    (forall l, l ∈ dirs f' <-> l ∈ dirs f \/ (l <> [] /\ l `prefix_of` path)).
Proof.
  intros Hplain Hfree.
  destruct (make_dirs_ok path [] f Hplain) as (f' & Hm & Hd & _ & Hdirs).
  { intros k _. apply Hfree. cbn [app]. apply prefix_take. }
  exists f'. split; [exact Hm|]. split; [exact Hd|].
  intros l. rewrite Hdirs. cbn [app]. split.
  - intros [H|(k & Hk & ->)]; [now left|]. right. split; [|apply prefix_take].
    destruct k; [lia|]. destruct path; [cbn in Hk; lia|discriminate].
  - intros [H|[Hne Hp]]; [now left|]. right. exists (length l).
    split; [|now apply prefix_firstn].
    destruct Hp as [rest ->]. rewrite length_app. destruct l; [contradiction|cbn; lia].
Qed.

Lemma ensure_dir_ready (f : fs) (p : Path) :
  root p <> "" -> Forall (fun x => x <> "..") (parts p) -> vacant f (parts p) ->
  exists f1, ensure_dir p f = (Ok tt, f1) /\ data f1 = data f /\ ready f1 (parts p).
Proof.
  intros Hroot Hplain [Hfiles Hbelow]. unfold ensure_dir, start.
  apply String.eqb_neq in Hroot. rewrite Hroot.
  destruct (make_dirs_root (parts p) f Hplain Hfiles) as (f1 & Hm & Hd & Hdirs).
  exists f1. split; [exact Hm|]. split; [exact Hd|]. split.
  - intros l Hl. destruct l as [|x l]; [reflexivity|].
    apply is_dir_elem; [discriminate|]. apply Hdirs. right. split; [discriminate|exact Hl].
  - intros l Hl Hne. specialize (Hbelow l Hl Hne).
    unfold present in *. apply orb_false_iff in Hbelow as [Hdir Hfile].
    assert (Hl0 : l <> []).
    { intros ->. apply Hne. symmetry. now apply prefix_nil_inv. }
    assert (Hdir1 : is_dir f1 l = false).
    { apply not_true_is_false. rewrite (is_dir_elem _ _ Hl0), Hdirs.
      intros [H|[_ H]].
      - apply (is_dir_elem _ _ Hl0) in H. congruence.
      - apply Hne. symmetry. now apply prefix_both. }
    unfold is_file in *. rewrite Hdir1, Hd. rewrite Hdir in Hfile. now rewrite Hfile.
Qed.

Lemma prune_data (p : Path) (f : fs) : data (snd (prune p f)) = data f.
Proof. unfold prune. now destruct (stat f p). Qed.

Lemma stat_file (f : fs) (p : Path) (content : list byte) :
  root p <> "" -> Forall (fun x => x <> "..") (parts p) ->
  (forall l, l `prefix_of` parts p -> l <> parts p -> is_dir f l = true) ->
  is_dir f (parts p) = false -> data f !! parts p = Some content ->
  stat f p = Ok (parts p).
Proof.
  intros Hroot Hplain Hdirs Hnot Hdata. unfold stat, start.
  apply String.eqb_neq in Hroot. rewrite Hroot.
  rewrite (walk_ok f p (parts p) [] Hplain).
  - cbn [app]. unfold present, is_file. rewrite Hnot. rewrite Hdata. reflexivity.
  - intros k Hk. cbn [app]. apply Hdirs; [apply prefix_take|].
    intros H. apply (f_equal (@length string)) in H. rewrite length_take in H. lia.
Qed.

Lemma stat_absent (f : fs) (p : Path) :
  root p <> "" -> Forall (fun x => x <> "..") (parts p) ->
  (forall l, l `prefix_of` parts p -> l <> parts p -> is_dir f l = true) ->
  present f (parts p) = false ->
  exists_path f p = false.
Proof.
  intros Hroot Hplain Hdirs Habsent. unfold exists_path, stat, start.
  apply String.eqb_neq in Hroot. rewrite Hroot.
  rewrite (walk_ok f p (parts p) [] Hplain).
  - cbn [app]. now rewrite Habsent.
  - intros k Hk. cbn [app]. apply Hdirs; [apply prefix_take|].
    intros H. apply (f_equal (@length string)) in H. rewrite length_take in H. lia.
Qed.

(** A plain name: split at the slashes, it has no empty part, no [.] and
    no [..]. *)
Definition plain_name (member : string) : Prop :=
  Forall (fun x => safe_part x = true) (split_on slash member).

Lemma split_on_after (sep : ascii) (rest : string) : forall pre,
  exists x xs, split_on sep (pre ++ String sep rest) = (x :: xs) ++ split_on sep rest.
Proof.
  induction pre as [|c pre (x & xs & IH)]; cbn [String.append split_on].
  - rewrite Ascii.eqb_refl. now exists "", [].
  - rewrite IH. destruct (Ascii.eqb c sep).
    + now exists "", (x :: xs).
    + now exists (String c x), xs.
Qed.

Lemma split_on_cons (sep : ascii) (s : string) : exists x xs, split_on sep s = x :: xs.
Proof.
  destruct s as [|c s]; cbn [split_on]; [eauto|].
  destruct (Ascii.eqb c sep); [eauto|]. destruct (split_on sep s); eauto.
Qed.

Lemma safe_part_facts (x : string) :
  safe_part x = true -> x <> "" /\ x <> ".." /\ real_part x = true.
Proof.
  unfold safe_part, real_part. intros H.
  apply andb_true_iff in H as [H H3]. apply andb_true_iff in H as [H1 H2].
  rewrite H1, H2. apply negb_true_iff in H1, H3. apply String.eqb_neq in H1, H3. auto.
Qed.

Lemma filter_all {A} (p : A -> bool) (l : list A) :
  Forall (fun x => p x = true) l -> List.filter p l = l.
Proof.
  induction 1 as [|x l Hx Hl IH]; cbn [List.filter]; [reflexivity|]. now rewrite Hx, IH.
Qed.

Lemma plain_name_facts (member : string) :
  plain_name member ->
  arcname member = split_on slash member /\
  parse member = {| root := ""; parts := split_on slash member |} /\
  endswith "/" member = false /\ member <> "" /\
  Forall (fun x => x <> "..") (split_on slash member).
Proof.
  intros Hplain. unfold plain_name in Hplain.
  assert (Hreal : Forall (fun x => real_part x = true) (split_on slash member)).
  { eapply Forall_impl; [exact Hplain|]. intros x Hx. now apply safe_part_facts. }
  split; [now apply filter_all|]. split; [|split; [|split]].
  - unfold parse. rewrite (filter_all _ _ Hreal). f_equal.
    destruct member as [|c s]; [reflexivity|].
    destruct (Ascii.eqb c slash) eqn:Hc.
    + exfalso. cbn [split_on] in Hplain. rewrite Hc in Hplain.
      apply Forall_cons in Hplain as [H _]. discriminate H.
    + unfold slash in Hc. destruct c as [[] [] [] [] [] [] [] []]; try reflexivity.
      discriminate Hc.
  - apply not_true_is_false. intros He. apply endswith_split in He as (pre & ->).
    destruct (split_on_after slash "" pre) as (x & xs & Hs).
    change "/" with (String slash "") in Hplain. rewrite Hs in Hplain.
    cbn [split_on] in Hplain. apply Forall_app in Hplain as [_ H].
    apply Forall_cons in H as [H _]. discriminate H.
  - intros ->. cbn [split_on] in Hplain. apply Forall_cons in Hplain as [H _]. discriminate H.
  - eapply Forall_impl; [exact Hplain|]. intros x Hx. now apply safe_part_facts.
Qed.

Lemma getinfo_name (entries : list entry) (m : string) (e : entry) :
  getinfo entries m = Some e -> e_name e = m.
Proof.
  unfold getinfo. intros H. apply List.find_some in H as [_ H]. now apply String.eqb_eq.
Qed.

Lemma is_dir_put (l l' : loc) (c : list byte) (f : fs) : is_dir (put l c f) l' = is_dir f l'.
Proof. reflexivity. Qed.

Lemma is_dir_remove (l l' : loc) (f : fs) : is_dir (remove l f) l' = is_dir f l'.
Proof. reflexivity. Qed.

(** The directories above the target of a plain member, in a directory that
    is ready. *)
Lemma upper_dirs_ready (f1 : fs) (base comps : loc) (bn : string) :
  ready f1 base -> comps <> [] ->
  Forall (fun x => x <> "..") base -> Forall (fun x => x <> "..") comps ->
  (length comps = 1 \/ hd "" comps <> bn) ->
  let upperdirs := removelast (base ++ comps) in
  exists f2,
    (if present f1 upperdirs then (Ok tt, f1) else make_dirs [] upperdirs f1) = (Ok tt, f2) /\
    data f2 = data f1 /\
    (forall l, l `prefix_of` base ++ comps -> l <> base ++ comps -> is_dir f2 l = true) /\
    is_dir f2 (base ++ comps) = false /\
    (comps <> [bn] -> is_dir f2 (base ++ [bn]) = false) /\
    (length comps = 1 -> f2 = f1).
Proof.
  intros [Hdirs Hbelow] Hne Hbase Hcomps Hclear upperdirs.
  assert (Hupper : upperdirs = base ++ removelast comps).
  { subst upperdirs. now apply removelast_app. }
  assert (Hstrict : forall rest, rest <> [] -> present f1 (base ++ rest) = false).
  { intros rest Hrest. apply Hbelow; [now exists rest|].
    intros H. rewrite <- (app_nil_r base) in H at 2. now apply app_inv_head in H. }
  assert (Hnotdir : forall rest, rest <> [] -> is_dir f1 (base ++ rest) = false).
  { intros rest Hrest. specialize (Hstrict rest Hrest). unfold present in Hstrict.
    now apply orb_false_iff in Hstrict as [H _]. }
  destruct comps as [|c [|c' rest]]; [contradiction| |].
  - (* the member lies directly in the directory *)
    cbn [removelast] in Hupper. rewrite app_nil_r in Hupper. rewrite Hupper.
    unfold present. rewrite (Hdirs base) by reflexivity. cbn [orb].
    exists f1. split; [reflexivity|]. split; [reflexivity|]. split; [|split; [|split]].
    + intros l [r Hl] Hneq. apply Hdirs.
      destruct r as [|x r]; [rewrite app_nil_r in Hl; congruence|].
      destruct (decide (length l <= length base)) as [Hle|Hgt].
      * apply prefix_firstn. apply (f_equal (firstn (length l))) in Hl.
        rewrite take_app_length in Hl. rewrite take_app_le in Hl by exact Hle. now symmetry.
      * exfalso. apply (f_equal (@length string)) in Hl.
        rewrite !length_app in Hl. cbn [length] in Hl. lia.
    + apply Hnotdir. discriminate.
    + intros _. apply Hnotdir. discriminate.
    + reflexivity.
  - (* the member lies in folders *)
    set (comps := c :: c' :: rest) in *.
    assert (Hinit : removelast comps <> []) by (subst comps; cbn; now destruct rest).
    rewrite Hupper, (Hstrict _ Hinit).
    destruct (make_dirs_root (base ++ removelast comps) f1) as (f2 & Hm & Hd & Hin).
    { apply Forall_app. split; [exact Hbase|].
      apply Forall_forall. intros x Hx. rewrite Forall_forall in Hcomps. apply Hcomps.
      apply list_elem_of_In. apply list_elem_of_In in Hx.
      rewrite (app_removelast_last "" Hne). apply in_or_app. now left. }
    { intros l Hl. unfold is_file.
      destruct (decide (length l <= length base)) as [Hle|Hgt].
      - rewrite (Hdirs l); [reflexivity|]. apply prefix_firstn. destruct Hl as [r Hl].
        apply (f_equal (firstn (length l))) in Hl. rewrite take_app_length in Hl.
        rewrite take_app_le in Hl by exact Hle. now symmetry.
      - assert (Hl' : exists r, r <> [] /\ l = base ++ r).
        { destruct Hl as [r Hl]. exists (skipn (length base) l). split.
          - intros H. apply (f_equal (@length string)) in H. rewrite length_skipn in H.
            cbn in H. lia.
          - rewrite <- (firstn_skipn (length base) l) at 1. f_equal.
            apply (f_equal (firstn (length base))) in Hl.
            rewrite take_app_length in Hl. rewrite take_app_le in Hl by lia.
            now symmetry. }
        destruct Hl' as (r & Hr & ->). specialize (Hstrict r Hr). unfold present in Hstrict.
        apply orb_false_iff in Hstrict as [H1 H2]. unfold is_file in H2. exact H2. }
    exists f2. split; [exact Hm|]. split; [exact Hd|]. split; [|split; [|split]].
    + intros l Hl Hneq. destruct l as [|x l]; [reflexivity|].
      apply is_dir_elem; [discriminate|]. apply Hin. right. split; [discriminate|].
      destruct Hl as [r Hl]. destruct r as [|y r] using rev_ind;
        [rewrite app_nil_r in Hl; congruence|]. clear IHr.
      rewrite (app_removelast_last "" Hne) in Hl. rewrite !app_assoc in Hl.
      apply app_inj_tail in Hl as [Hl _]. now exists r.
    + apply not_true_is_false. intros H.
      apply is_dir_elem in H; [|now destruct base]. apply Hin in H as [H|[_ H]].
      * apply is_dir_elem in H; [|now destruct base]. rewrite Hnotdir in H; [discriminate|].
        discriminate.
      * destruct H as [r H]. rewrite <- app_assoc in H. apply app_inv_head in H.
        apply (f_equal (@length string)) in H. rewrite length_app in H.
        assert (Hlen : length comps = S (length (removelast comps))).
        { rewrite (app_removelast_last "" Hne) at 1. rewrite length_app. cbn [length]. lia. }
        lia.
    + intros _. apply not_true_is_false. intros H.
      apply is_dir_elem in H; [|now destruct base]. apply Hin in H as [H|[_ H]].
      * apply is_dir_elem in H; [|now destruct base]. rewrite Hnotdir in H; discriminate.
      * destruct H as [r H]. rewrite <- app_assoc in H. apply app_inv_head in H.
        destruct Hclear as [Hone|Hhd]; [subst comps; cbn in Hone; lia|].
        apply Hhd. subst comps. cbn [hd]. cbn [removelast] in H.
        destruct rest; injection H as H _; now symmetry.
    + intros Hone. subst comps. cbn in Hone. lia.
Qed.

(** A member with a plain name, read without error, into an extraction
    directory that is vacant: the extractor returns, and the bytes of the
    member are at the returned path. *)
Lemma unzip_plain_member (zip_name : string) (entries : list entry) (extract_dir : Path)
    (f : fs) (member : string) (e : entry) (content : list byte) :
  root extract_dir <> "" ->
  Forall (fun x => x <> "..") (parts extract_dir) ->
  vacant f (parts extract_dir) ->
  select_member entries = Some member ->
  getinfo entries member = Some e -> e_payload e = Sound content ->
  plain_name member ->
  (length (split_on slash member) = 1 \/
   hd "" (split_on slash member) <> base_name_of member) ->
  exists out f',
    unzip_single_csv zip_name entries extract_dir f = (Ok out, f') /\
    data f' !! parts out = Some content.
Proof.
  intros Hroot Hbase Hvacant Hsel Hinfo Hpayload Hplain Hclear.
  set (base := parts extract_dir) in *.
  set (comps := split_on slash member) in *.
  set (bn := base_name_of member) in *.
  destruct (plain_name_facts member Hplain) as (Harc & Hparse & Hslash & Hmember & Hcomps).
  fold comps in Harc, Hparse, Hcomps.
  assert (Hne : comps <> []).
  { subst comps. destruct (split_on_cons slash member) as (x & xs & ->). discriminate. }
  destruct (base_name_csv member) as [He Hs]. fold bn in He, Hs.
  destruct (join_name extract_dir bn He Hs) as [Hout Hname]. fold base in Hout.
  assert (Hbn : bn <> "..").
  { intros H. rewrite H in He. discriminate He. }
  assert (Hout_plain : Forall (fun x => x <> "..") (base ++ [bn])).
  { apply Forall_app. split; [exact Hbase|]. now constructor. }
  assert (Htarget_plain : Forall (fun x => x <> "..") (base ++ comps)).
  { apply Forall_app. now split. }
  unfold unzip_single_csv.
  (* ensure_dir(extract_dir) *)
  destruct (ensure_dir_ready f extract_dir Hroot Hbase Hvacant) as (f1 & E1 & Hd1 & Hready).
  fold base in Hready.
  unfold andthen at 1. rewrite E1, Hsel. cbn zeta. fold bn. rewrite Hout.
  pose proof Hready as [Hdirs1 Hbelow1].
  (* if out_path.exists(): out_path.unlink() *)
  assert (E2 : unlink_if_exists {| root := root extract_dir; parts := base ++ [bn] |} f1
               = (Ok tt, f1)).
  { unfold unlink_if_exists. rewrite stat_absent; [reflexivity|exact Hroot|exact Hout_plain| |].
    - cbn [parts]. intros l Hl Hneq. apply Hdirs1. now apply (prefix_of_snoc _ _ bn).
    - cbn [parts]. apply Hbelow1; [now exists [bn]|]. now apply app_ne_self. }
  unfold andthen at 1. rewrite E2.
  (* z.extract(member, path=extract_dir) *)
  destruct (upper_dirs_ready f1 base comps bn Hready Hne Hbase Hcomps Hclear)
    as (f2 & E3 & Hd2 & Hdirs2 & Htarget2 & Hout2 & Hsame2).
  assert (Hwrite : write_file (base ++ comps) content f2
                   = (Ok tt, put (base ++ comps) content f2)).
  { unfold write_file. rewrite Htarget2, Hdirs2; [reflexivity|apply prefix_of_removelast|].
    intros H. apply (f_equal (@length string)) in H.
    assert (Hlen : length (base ++ comps) = S (length (removelast (base ++ comps)))).
    { assert (Hnil : base ++ comps <> []) by (intros H0; now apply app_eq_nil in H0 as [_ H0]).
      rewrite (app_removelast_last "" Hnil) at 1. rewrite length_app. cbn [length]. lia. }
    lia. }
  set (f3 := put (base ++ comps) content f2) in *.
  assert (E4 : extract entries member extract_dir f1 = (Ok tt, f3)).
  { unfold extract. rewrite Hinfo, (getinfo_name _ _ _ Hinfo), Harc.
    rewrite (locate_plain f1 extract_dir Hroot Hbase). fold base.
    unfold andthen. rewrite E3.
    destruct member as [|c m]; [contradiction|]. rewrite Hslash, Hpayload. exact Hwrite. }
  unfold andthen at 1. rewrite E4.
  assert (Hextracted : join extract_dir member
                       = {| root := root extract_dir; parts := base ++ comps |}).
  { unfold join. rewrite Hparse. reflexivity. }
  rewrite Hextracted.
  assert (Hstat3 : stat f3 {| root := root extract_dir; parts := base ++ comps |}
                   = Ok (base ++ comps)).
  { apply (stat_file f3 {| root := root extract_dir; parts := base ++ comps |} content);
      cbn [root parts].
    - exact Hroot.
    - exact Htarget_plain.
    - intros l Hl Hneq. unfold f3. rewrite is_dir_put. now apply Hdirs2.
    - unfold f3. now rewrite is_dir_put.
    - apply lookup_insert_eq. }
  unfold Path_eqb. cbn [root parts]. rewrite String.eqb_refl. cbn [andb].
  destruct (decide (comps = [bn])) as [Hdirect|Hnested].
  - (* the member is extracted where it is to stay *)
    rewrite Hdirect, bool_decide_eq_true_2 by reflexivity. cbn [negb].
    rewrite Hdirect in Hstat3.
    assert (Hf2 : f2 = f1) by (apply Hsame2; now rewrite Hdirect).
    destruct (negb (String.eqb (lower (suffix _)) ".csv")).
    + unfold with_suffix_added. cbn [root parts]. unfold name at 1 2. cbn [parts].
      rewrite last_snoc, removelast_last.
      destruct bn as [|b n] eqn:Hb; [discriminate He|].
      set (final := {| root := root extract_dir; parts := base ++ [(String b n ++ ".csv")%string] |}).
      assert (Hlonger : base ++ [(String b n ++ ".csv")%string] <> base ++ [String b n]).
      { intros H. apply app_inv_head in H. injection H as H.
        apply (f_equal String.length) in H. rewrite length_append in H. cbn in H. lia. }
      assert (Hfinal_plain : Forall (fun x => x <> "..") (parts final)).
      { cbn [parts]. apply Forall_app. split; [exact Hbase|]. constructor; [|constructor].
        intros H. apply (f_equal String.length) in H. cbn [String.length] in H.
        change (String.length (String b n ++ ".csv") = 2) in H.
        rewrite length_append in H. cbn in H. lia. }
      assert (Habove : forall l, l `prefix_of` parts final -> l <> parts final ->
                                 is_dir f3 l = true).
      { cbn [parts]. intros l Hl Hneq. unfold f3. rewrite is_dir_put, Hf2. apply Hdirs1.
        now apply (prefix_of_snoc _ _ (String b n ++ ".csv")%string). }
      assert (Hfree : present f3 (parts final) = false).
      { cbn [parts].
        assert (H1 : present f1 (base ++ [(String b n ++ ".csv")%string]) = false).
        { apply Hbelow1; [now eexists|]. now apply app_ne_self. }
        unfold present, is_file in H1 |- *. unfold f3. rewrite is_dir_put. cbn [data put].
        rewrite lookup_insert_ne by (rewrite Hdirect; now apply not_eq_sym).
        rewrite Hf2. exact H1. }
      assert (E5 : unlink_if_exists final f3 = (Ok tt, f3)).
      { unfold unlink_if_exists. now rewrite stat_absent. }
      unfold andthen at 1. fold final. rewrite E5.
      unfold andthen at 1. unfold rename. rewrite Hstat3.
      rewrite (locate_plain f3 final Hroot Hfinal_plain). cbn [parts final].
      unfold rename_loc.
      assert (Hnotdir : is_dir f3 (base ++ [String b n]) = false).
      { unfold f3. rewrite is_dir_put. rewrite <- Hdirect. exact Htarget2. }
      rewrite Hnotdir. unfold f3 at 1. cbn [data put]. rewrite Hdirect, lookup_insert_eq.
      unfold present in Hfree. apply orb_false_iff in Hfree as [Hfree _].
      cbn [parts final] in Hfree. rewrite Hfree.
      eexists. eexists. split; [reflexivity|]. cbn [parts data put]. apply lookup_insert_eq.
    + eexists. eexists. split; [reflexivity|]. cbn [parts]. unfold f3. cbn [data put].
      rewrite Hdirect. apply lookup_insert_eq.
  - (* the member is moved out of its folders *)
    rewrite bool_decide_eq_false_2 by (intros H; apply app_inv_head in H; contradiction).
    cbn [negb].
    assert (Hdirs3 : forall l, l `prefix_of` base -> is_dir f3 l = true).
    { intros l [r Hl]. unfold f3. rewrite is_dir_put.
      destruct (decide (l = base ++ comps)) as [->|Hneq].
      - exfalso. apply (f_equal (@length string)) in Hl. rewrite !length_app in Hl.
        destruct comps; [contradiction|cbn [length] in Hl; lia].
      - apply Hdirs2; [|exact Hneq]. exists (r ++ comps). now rewrite Hl, <- app_assoc. }
    assert (E5 : ensure_dir (parent_of {| root := root extract_dir; parts := base ++ [bn] |}) f3
                 = (Ok tt, f3)).
    { unfold ensure_dir, parent_of, start. cbn [root parts]. rewrite removelast_last.
      apply String.eqb_neq in Hroot. rewrite Hroot.
      apply make_dirs_noop; [exact Hbase|]. intros k _. cbn [app].
      apply Hdirs3, prefix_take. }
    unfold andthen at 1. rewrite E5.
    assert (E6 : move {| root := root extract_dir; parts := base ++ comps |}
                      {| root := root extract_dir; parts := base ++ [bn] |} f3
                 = (Ok tt, put (base ++ [bn]) content (remove (base ++ comps) f3))).
    { unfold move.
      rewrite (locate_plain f3 {| root := root extract_dir; parts := base ++ [bn] |}
                 Hroot Hout_plain).
      cbn [parts].
      assert (Hnot : is_dir f3 (base ++ [bn]) = false).
      { unfold f3. rewrite is_dir_put. now apply Hout2. }
      rewrite Hnot, Hstat3. unfold rename_loc.
      assert (Hnot' : is_dir f3 (base ++ comps) = false).
      { unfold f3. now rewrite is_dir_put. }
      rewrite Hnot'. unfold f3 at 1. cbn [data put]. rewrite lookup_insert_eq.
      now rewrite Hnot. }
    unfold andthen at 1. rewrite E6.
    unfold andthen at 1, attempt.
    eexists. eexists. split; [reflexivity|]. cbn [parts].
    rewrite prune_data. cbn [data put]. apply lookup_insert_eq.
Qed.

(** *** The policy names one member *)

Lemma split_twice {A} (b : list A) : forall b' m m' a a',
  b ++ m :: a = b' ++ m' :: a' ->
  (b = b' /\ m = m' /\ a = a') \/ (m ∈ b' /\ m' ∈ a) \/ (m' ∈ b /\ m ∈ a').
Proof.
  induction b as [|x b IH]; intros [|y b'] m m' a a' H; cbn [app] in H.
  - injection H as -> ->. now left.
  - injection H as -> ->. right. left. split; [left|]. apply elem_of_app. right. left.
  - injection H as <- <-. right. right. split; [left|]. apply elem_of_app. right. left.
  - injection H as -> H. destruct (IH _ _ _ _ _ H) as [(-> & -> & ->)|[[H1 H2]|[H1 H2]]].
    + now left.
    + right. left. split; [now right|exact H2].
    + right. right. split; [now right|exact H2].
Qed.

Lemma first_with_unique (P : string -> Prop) (names : list string) (m m' : string) :
  first_with P names m -> first_with P names m' -> m = m'.
Proof.
  intros (b & a & -> & Hm & Hb) (b' & a' & Heq & Hm' & Hb').
  rewrite Forall_forall in Hb, Hb'.
  destruct (split_twice _ _ _ _ _ _ Heq) as [(_ & H & _)|[[H _]|[H _]]].
  - exact H.
  - now destruct (Hb' _ H).
  - now destruct (Hb _ H).
Qed.

Lemma first_with_in (P : string -> Prop) (names : list string) (m : string) :
  first_with P names m -> m ∈ names /\ P m.
Proof.
  intros (b & a & -> & Hm & _). split; [|exact Hm]. apply elem_of_app. right. left.
Qed.

Lemma find_skip {A} (p : A -> bool) (l r : list A) :
  Forall (fun x => p x = false) l -> List.find p (l ++ r) = List.find p r.
Proof.
  induction 1 as [|x l Hx _ IH]; [reflexivity|]. cbn [app List.find]. now rewrite Hx.
Qed.

Lemma listed_size_file_size (entries : list entry) (m : string) (size : N) :
  listed_size entries m size -> file_size entries m = size.
Proof.
  intros (b & e & a & -> & Hn & Hs & Ha). unfold file_size, getinfo.
  rewrite rev_app_distr. cbn [rev]. rewrite <- app_assoc, find_skip.
  - cbn [app List.find]. now rewrite Hn, String.eqb_refl.
  - apply List.Forall_rev. revert Ha. apply List.Forall_impl. intros x Hx.
    now apply String.eqb_neq.
Qed.

Lemma first_largest_unique (entries : list entry) (names : list string) (m m' : string) :
  first_largest entries names m -> first_largest entries names m' -> m = m'.
Proof.
  intros (b & a & s & -> & Hs & Hb & Ha) (b' & a' & s' & Heq & Hs' & Hb' & Ha').
  rewrite Forall_forall in Hb, Ha, Hb', Ha'.
  apply listed_size_file_size in Hs, Hs'.
  destruct (split_twice _ _ _ _ _ _ Heq) as [(_ & H & _)|[[H1 H2]|[H1 H2]]].
  - exact H.
  - destruct (Hb' _ H1) as (x & Hx & Hlt). destruct (Ha _ H2) as (y & Hy & Hle).
    apply listed_size_file_size in Hx, Hy. lia.
  - destruct (Hb _ H1) as (x & Hx & Hlt). destruct (Ha' _ H2) as (y & Hy & Hle).
    apply listed_size_file_size in Hx, Hy. lia.
Qed.

Lemma policy_unique (entries : list entry) (m m' : string) :
  policy entries m -> policy entries m' -> m = m'.
Proof.
  assert (Hno : forall P names x, none_with P names -> first_with P names x -> False).
  { intros P names x Hnone Hfirst. apply first_with_in in Hfirst as [Hin Hx].
    unfold none_with in Hnone. rewrite Forall_forall in Hnone. now apply (Hnone x). }
  unfold policy. cbn zeta.
  intros [H|[[N1 H]|(N1 & N2 & H)]] [H'|[[N1' H']|(N1' & N2' & H')]];
    try (exfalso; eauto; fail).
  - now apply (first_with_unique _ _ _ _ H H').
  - now apply (first_with_unique _ _ _ _ H H').
  - now apply (first_largest_unique _ _ _ _ H H').
Qed.

(** *** The extractor *)

(** C6. Member selection: of an archive with at least one member the
    extractor selects one member, and the policy names that member and no
    other: it is the first, in the order of the listing, whose name ends with
    csv, .csv or .txt; if there is none such, the first whose name contains
    csv; if there is none such either, the first among the members of the
    greatest uncompressed size; the tests on names are made letter case
    apart. Whenever the extractor returns, the returned path lies directly in
    the extraction directory and its file name ends with .csv, letter case
    apart. And it does return, with the bytes of the selected member at the
    returned path, when that member has a plain name and is read without
    error, the extraction directory is vacant, and the member's first folder
    is not named as the returned file. *)
Theorem member_selection (zip_name : string) (entries : list entry) (extract_dir : Path)
    (f : fs) :
  entries <> [] ->
  exists member,
    select_member entries = Some member /\
    (forall m, policy entries m <-> m = member) /\
    member ∈ map e_name entries /\
    (forall out f',
       unzip_single_csv zip_name entries extract_dir f = (Ok out, f') ->
       lands_in extract_dir member out) /\
    (forall e content,
       root extract_dir <> "" ->
       Forall (fun x => x <> "..") (parts extract_dir) ->
       vacant f (parts extract_dir) ->
       getinfo entries member = Some e -> e_payload e = Sound content ->
       plain_name member ->
       (length (split_on slash member) = 1 \/
        hd "" (split_on slash member) <> base_name_of member) ->
       exists out f',
         unzip_single_csv zip_name entries extract_dir f = (Ok out, f') /\
         data f' !! parts out = Some content).
Proof.
  intros Hne. destruct (select_member_policy entries Hne) as (member & Hsel & Hpol & Hin).
  exists member. split; [exact Hsel|]. split; [|split; [exact Hin|split]].
  - intros m. split; [intros Hm; now apply (policy_unique entries)|now intros ->].
  - intros out f' Hrun.
    destruct (unzip_single_csv_lands _ _ _ _ _ _ Hrun) as (m & Hm & Hlands).
    rewrite Hsel in Hm. now injection Hm as <-.
  - intros e content Hroot Hbase Hvacant Hinfo Hpayload Hplain Hclear.
    now apply (unzip_plain_member zip_name entries extract_dir f member e content).
Qed.

(** Three members, none with csv or txt in its name: the larger two are of
    one size, and the earlier of them is taken. *)
Definition sized (name : string) (size : N) (content : list byte) : entry :=
  {| e_name := name; e_size := size; e_payload := Sound content |}.

Definition three_members : list entry :=
  [sized "LEIAME.pdf" 3 [x61]; sized "dados/K3241.ESTABELE" 9 [x62];
   sized "K3241.EMPRE" 9 [x63]].

Lemma member_selection_witness :
  exists member,
    select_member three_members = Some member /\
    (forall m, policy three_members m <-> m = member) /\
    member ∈ map e_name three_members /\
    (forall out f',
       unzip_single_csv "Estabelecimentos0.zip" three_members csv_tmp bare = (Ok out, f') ->
       lands_in csv_tmp member out) /\
    (forall e content,
       root csv_tmp <> "" ->
       Forall (fun x => x <> "..") (parts csv_tmp) ->
       vacant bare (parts csv_tmp) ->
       getinfo three_members member = Some e -> e_payload e = Sound content ->
       plain_name member ->
       (length (split_on slash member) = 1 \/
        hd "" (split_on slash member) <> base_name_of member) ->
       exists out f',
         unzip_single_csv "Estabelecimentos0.zip" three_members csv_tmp bare = (Ok out, f') /\
         data f' !! parts out = Some content).
Proof.
  apply (member_selection "Estabelecimentos0.zip" three_members csv_tmp bare).
  discriminate.
Defined.

Example largest_member_is_taken :
  select_member three_members = Some "dados/K3241.ESTABELE" /\
  exists f',
    unzip_single_csv "Estabelecimentos0.zip" three_members csv_tmp bare
    = (Ok {| root := "/"; parts := ["work"; "csv_tmp"; "K3241.ESTABELE.csv"] |}, f') /\
    data f' !! ["work"; "csv_tmp"; "K3241.ESTABELE.csv"] = Some [x62] /\
    present f' ["work"; "csv_tmp"; "dados"] = false.
Proof.
  split; [reflexivity|]. eexists. split; [vm_compute; reflexivity|].
  split; vm_compute; reflexivity.
Qed.

(** Names that [ZipFile.extract] does not keep as they are: the member is
    extracted under the extraction directory, and the path that the code
    forms from the name is not where it lies. *)
Example rooted_member_raises :
  fst (unzip_single_csv "a.zip" (one_file "/abs.csv") csv_tmp bare)
  = Raise (FileNotFoundError "/abs.csv").
Proof. vm_compute. reflexivity. Qed.

Example climbing_member_raises :
  fst (unzip_single_csv "a.zip" (one_file "../x.csv") csv_tmp bare)
  = Raise (FileNotFoundError "/work/csv_tmp/../x.csv").
Proof. vm_compute. reflexivity. Qed.

Example folder_named_as_the_file_raises :
  fst (unzip_single_csv "a.zip" (one_file "b.csv/b") csv_tmp bare)
  = Raise (ShutilError "Destination path already exists").
Proof. vm_compute. reflexivity. Qed.

(** X4. On an archive that lists no member the extractor makes the
    extraction directory and raises RuntimeError (or raises as the making of
    the directory does). Whenever it returns, a member was selected and the
    returned path lies directly in the extraction directory, whatever folders
    the member had inside the archive: its file name has no slash and is the
    last component of the member's name, with .csv added when that does not
    end with it (and once more for a name that is the extension alone). *)
Theorem unzip_single_csv_flattens (zip_name : string) (entries : list entry)
    (extract_dir : Path) (f : fs) :
  (entries = [] ->
   unzip_single_csv zip_name entries extract_dir f
   = match ensure_dir extract_dir f with
     | (Ok _, f') => (Raise (RuntimeError ("Nenhum arquivo dentro de " ++ zip_name)), f')
     | (Raise e, f') => (Raise e, f')
     end) /\
  (forall out f',
     unzip_single_csv zip_name entries extract_dir f = (Ok out, f') ->
     exists member,
       select_member entries = Some member /\ member ∈ map e_name entries /\
       root out = root extract_dir /\
       parts out = parts extract_dir ++ [name out] /\
       has_char slash (name out) = false /\
       ends_with_ci ".csv" (name out) /\
       let original := name (parse member) in
       (ends_with_ci ".csv" original /\ name out = original) \/
       ((~ ends_with_ci ".csv" original \/ lower original = ".csv") /\
        name out = (original ++ ".csv")%string)).
Proof.
  split.
  - intros ->. unfold unzip_single_csv, andthen. cbn [select_member map].
    now destruct (ensure_dir extract_dir f) as [[[]|e] f'].
  - intros out f' Hrun.
    destruct (unzip_single_csv_lands _ _ _ _ _ _ Hrun) as (m & Hm & Hlands).
    exists m. split; [exact Hm|]. split; [|exact Hlands].
    destruct entries as [|e rest]; [discriminate Hm|].
    destruct (select_member_policy (e :: rest)) as (m' & Hm' & _ & Hin); [discriminate|].
    rewrite Hm in Hm'. now injection Hm' as <-.
Qed.

Example nested_member_is_flattened :
  exists f',
    unzip_single_csv "Municipios.zip" (one_file "dados/2025/F.K03200$Z.D50712.MUNICCSV")
      csv_tmp bare
    = (Ok {| root := "/"; parts := ["work"; "csv_tmp"; "F.K03200$Z.D50712.MUNICCSV.csv"] |},
       f') /\
    data f' !! ["work"; "csv_tmp"; "F.K03200$Z.D50712.MUNICCSV.csv"]
    = Some [x44; x41; x54; x41] /\
    present f' ["work"; "csv_tmp"; "dados"; "2025"] = false /\
    is_dir f' ["work"; "csv_tmp"; "dados"] = true.
Proof.
  eexists. split; [vm_compute; reflexivity|]. repeat split; vm_compute; reflexivity.
Qed.

End Unzip.


(** ** The encoding normalizer ([ensure_utf8], [cnpj_ingest_duckdb.py]) *)

Module Utf8.

(** Text as a list of code points. *)
Definition text : Type := list N.

Definition byte_of (n : N) : byte := default x00 (Byte.of_N n).

Definition between (lo hi n : N) : bool := (lo <=? n)%N && (n <=? hi)%N.

(** A continuation byte, 80..BF. *)
Definition cont (b : byte) : bool := between 128 191 (Byte.to_N b).

(** The payload of a continuation byte. *)
Definition low6 (b : byte) : N := N.land (Byte.to_N b) 63.

(** [bytes.decode("latin1")]: every byte is its own code point. *)
Definition latin1_decode (bs : list byte) : text := map Byte.to_N bs.

(** [bytes.decode("utf-8")], strict: [None] is [UnicodeDecodeError]. Overlong
    forms, surrogates, code points above U+10FFFF and truncated sequences are
    refused. *)
Fixpoint utf8_decode (bs : list byte) : option text :=
  match bs with
  | [] => Some []
  | b1 :: r1 =>
      let n1 := Byte.to_N b1 in
      if (n1 <? 128)%N then option_map (cons n1) (utf8_decode r1)
      else if between 194 223 n1 then
        match r1 with
        | b2 :: r2 =>
            if cont b2
            then option_map (cons (N.lor (N.shiftl (N.land n1 31) 6) (low6 b2)))
                            (utf8_decode r2)
            else None
        | _ => None
        end
      else if between 224 239 n1 then
        match r1 with
        | b2 :: b3 :: r3 =>
            let n2 := Byte.to_N b2 in
            let lo := if (n1 =? 224)%N then 160%N else 128%N in
            let hi := if (n1 =? 237)%N then 159%N else 191%N in
            if between lo hi n2 && cont b3
            then option_map
                   (cons (N.lor (N.shiftl (N.land n1 15) 12)
                                (N.lor (N.shiftl (low6 b2) 6) (low6 b3))))
                   (utf8_decode r3)
            else None
        | _ => None
        end
      else if between 240 244 n1 then
        match r1 with
        | b2 :: b3 :: b4 :: r4 =>
            let n2 := Byte.to_N b2 in
            let lo := if (n1 =? 240)%N then 144%N else 128%N in
            let hi := if (n1 =? 244)%N then 143%N else 191%N in
            if between lo hi n2 && cont b3 && cont b4
            then option_map
                   (cons (N.lor (N.shiftl (N.land n1 7) 18)
                           (N.lor (N.shiftl (low6 b2) 12)
                              (N.lor (N.shiftl (low6 b3) 6) (low6 b4)))))
                   (utf8_decode r4)
            else None
        | _ => None
        end
      else None
  end.

(** One code point in UTF-8. *)
Definition utf8_encode_char (c : N) : list byte :=
  if (c <? 128)%N then [byte_of c]
  else if (c <? 2048)%N then
    [byte_of (N.lor 192 (N.shiftr c 6)); byte_of (N.lor 128 (N.land c 63))]
  else if (c <? 65536)%N then
    [byte_of (N.lor 224 (N.shiftr c 12));
     byte_of (N.lor 128 (N.land (N.shiftr c 6) 63));
     byte_of (N.lor 128 (N.land c 63))]
  else
    [byte_of (N.lor 240 (N.shiftr c 18));
     byte_of (N.lor 128 (N.land (N.shiftr c 12) 63));
     byte_of (N.lor 128 (N.land (N.shiftr c 6) 63));
     byte_of (N.lor 128 (N.land c 63))].

(** [str.encode("utf-8")] *)
Definition utf8_encode (t : text) : list byte := flat_map utf8_encode_char t.

(** [f.read(n)]: at most [n] bytes from the start of the file. *)
Fixpoint read (n : N) (content : list byte) : list byte :=
  match content with
  | [] => []
  | b :: rest => if (n =? 0)%N then [] else b :: read (N.pred n) rest
  end.

Definition SAMPLE : N := 1000000.

(** Lines with their endings kept ([newline=""]: a line ends at LF, CR or
    CR LF and nothing is translated); [cur] is the line being read, reversed. *)
Fixpoint lines_of (cur : text) (t : text) : list text :=
  match t with
  | [] => match cur with [] => [] | _ :: _ => [rev cur] end
  | c :: t' =>
      if (c =? 10)%N then rev (c :: cur) :: lines_of [] t'
      else if (c =? 13)%N then
        match t' with
        | d :: t'' =>
            if (d =? 10)%N then rev (d :: c :: cur) :: lines_of [] t''
            else rev (c :: cur) :: lines_of [] t'
        | [] => [rev (c :: cur)]
        end
      else lines_of (c :: cur) t'
  end.

(** [fin.readlines(hint)]: lines are taken until their sizes add up to
    [hint]; the lines read and the lines left. *)
Fixpoint readlines (hint total : N) (lines : list text) : list text * list text :=
  match lines with
  | [] => ([], [])
  | l :: rest =>
      let total := (total + N.of_nat (length l))%N in
      if (hint <=? total)%N then ([l], rest)
      else let '(buf, remaining) := readlines hint total rest in (l :: buf, remaining)
  end.

Definition BATCH : N := 1024 * 1024.

(** The loop [buf = fin.readlines(BATCH); while buf: fout.writelines(buf); ...];
    every round takes a line at least, so [fuel] above the number of lines is
    never used up. *)
Fixpoint copy_lines (fuel : nat) (lines : list text) (fout : text) : text :=
  match fuel with
  | O => fout
  | S fuel' =>
      let '(buf, remaining) := readlines BATCH 0 lines in
      match buf with
      | [] => fout
      | _ :: _ => copy_lines fuel' remaining (fout ++ concat buf)
      end
  end.

(** The transcoding of the whole file, Latin-1 to UTF-8. *)
Definition transcode (content : list byte) : list byte :=
  let lines := lines_of [] (latin1_decode content) in
  utf8_encode (copy_lines (S (length lines)) lines []).

(** [src.with_suffix(src.suffix + ".utf8.csv")] *)
Definition utf8_path (src : string) : string := src ++ ".utf8.csv".

Definition ensure_utf8 (src : string) (w : world) : result string * world :=
  match files w !! src with
  | None => (Raise (FileNotFoundError src), w)
  | Some content =>
      let chunk := read SAMPLE content in
      match utf8_decode chunk with
      | Some _ => (Ok src, w)
      | None =>
          let dst := utf8_path src in
          match files w !! dst with
          | Some (_ :: _) => (Ok dst, w)      (* kept from an earlier run *)
          | _ => (Ok dst, with_files (<[dst := transcode content]> (files w)) w)
          end
      end
  end.

(** *** Properties of the normalizer *)



Lemma lines_of_concat (t : text) : forall cur, concat (lines_of cur t) = rev cur ++ t.
Proof.
  induction t as [t IH] using (induction_ltof1 _ (@length N)). unfold ltof in IH.
  intros cur. destruct t as [|c t']; cbn [lines_of].
  - destruct cur; [reflexivity|]. cbn [concat]. now rewrite !app_nil_r.
  - destruct (c =? 10)%N.
    + cbn [concat rev]. rewrite IH by (cbn; lia). cbn [rev app].
      now rewrite <- app_assoc.
    + destruct (c =? 13)%N.
      * destruct t' as [|d t''].
        -- cbn [concat rev]. now rewrite !app_nil_r.
        -- destruct (d =? 10)%N; cbn [concat rev].
           ++ rewrite IH by (cbn; lia). cbn [rev app]. now rewrite <- !app_assoc.
           ++ rewrite IH by (cbn; lia). cbn [rev app]. now rewrite <- !app_assoc.
      * rewrite IH by (cbn; lia). cbn [rev]. now rewrite <- app_assoc.
Qed.

Lemma readlines_split (hint : N) (lines : list text) : forall total buf remaining,
  readlines hint total lines = (buf, remaining) ->
  buf ++ remaining = lines /\ (lines <> [] -> buf <> []).
Proof.
  induction lines as [|l rest IH]; intros total buf remaining; cbn [readlines].
  - intros [= <- <-]. split; [reflexivity|contradiction].
  - destruct (hint <=? total + N.of_nat (length l))%N.
    + intros [= <- <-]. split; [reflexivity|discriminate].
    + destruct (readlines hint (total + N.of_nat (length l)) rest) as [b r] eqn:Hr.
      intros [= <- <-]. destruct (IH _ _ _ Hr) as [H _].
      split; [cbn [app]; now rewrite H|discriminate].
Qed.

Lemma copy_lines_all (fuel : nat) : forall lines fout,
  length lines < fuel -> copy_lines fuel lines fout = fout ++ concat lines.
Proof.
  induction fuel as [|fuel IH]; intros lines fout Hlen; [lia|].
  cbn [copy_lines]. destruct (readlines BATCH 0 lines) as [buf remaining] eqn:Hr.
  destruct (readlines_split _ _ _ _ _ Hr) as [Hsplit Hne].
  destruct buf as [|l buf].
  - destruct lines; [now rewrite app_nil_r|]. now destruct Hne.
  - rewrite IH.
    + rewrite <- Hsplit, concat_app, app_assoc. reflexivity.
    + rewrite <- Hsplit in Hlen. rewrite length_app in Hlen. cbn [length] in Hlen. lia.
Qed.

(** Reading and writing by batches of lines copies the text. *)
Lemma transcode_eq (content : list byte) :
  transcode content = utf8_encode (latin1_decode content).
Proof.
  unfold transcode. cbn zeta. rewrite copy_lines_all by lia.
  now rewrite lines_of_concat.
Qed.


Lemma read_app (l1 l2 : list byte) : read (N.of_nat (length l1)) (l1 ++ l2) = l1.
Proof.
  induction l1 as [|b l1 IH]; cbn [app length].
  - destruct l2; reflexivity.
  - cbn [read]. destruct (N.of_nat (S (length l1)) =? 0)%N eqn:H0;
      [apply N.eqb_eq in H0; lia|].
    replace (N.pred (N.of_nat (S (length l1)))) with (N.of_nat (length l1)) by lia.
    now rewrite IH.
Qed.

(** A run of ASCII bytes decodes to itself. *)
Lemma utf8_decode_ascii_run (n : nat) (rest : list byte) :
  utf8_decode (repeat x61 n ++ rest) = option_map (app (repeat 97%N n)) (utf8_decode rest).
Proof.
  induction n as [|n IH]; cbn [repeat app].
  - now destruct (utf8_decode rest).
  - change (utf8_decode (x61 :: repeat x61 n ++ rest))
      with (option_map (cons 97%N) (utf8_decode (repeat x61 n ++ rest))).
    rewrite IH. now destruct (utf8_decode rest).
Qed.

Lemma utf8_path_neq (src : string) : utf8_path src <> src.
Proof.
  unfold utf8_path. intros H. apply (f_equal String.length) in H.
  rewrite Text.length_append in H. cbn in H. lia.
Qed.



(** On that file the sample is not UTF-8, and the file written is the UTF-8
    form of the Latin-1 text. *)
Example ensure_utf8_transcodes :
  let content := [x53; xe3; x6f; x3b; x31; x0a] in
  let w := {| files := {[ "F.MUNICCSV.csv" := content ]}; sent := [] |} in
  utf8_decode (read SAMPLE content) = None /\
  fst (ensure_utf8 "F.MUNICCSV.csv" w) = Ok "F.MUNICCSV.csv.utf8.csv" /\
  files (snd (ensure_utf8 "F.MUNICCSV.csv" w)) !! "F.MUNICCSV.csv.utf8.csv"
    = Some [x53; xc3; xa3; x6f; x3b; x31; x0a].
Proof. vm_compute. auto. Qed.




Lemma ensure_utf8_cut_character_at (n : nat) :
  N.of_nat (S n) = SAMPLE ->
  let content := repeat x61 n ++ [xc3; xa9] in
  let w := {| files := {[ "a.csv" := content ]}; sent := [] |} in
  utf8_decode content = Some (repeat 97%N n ++ [233%N]) /\
  fst (ensure_utf8 "a.csv" w) = Ok "a.csv.utf8.csv".
Proof.
  intros Hn content w. split.
  - subst content. rewrite utf8_decode_ascii_run. reflexivity.
  - unfold ensure_utf8. subst w. cbn [files]. rewrite lookup_singleton_eq. cbn zeta.
    assert (Hread : read SAMPLE content = repeat x61 n ++ [xc3]).
    { subst content. change [xc3; xa9] with ([xc3] ++ [xa9]). rewrite app_assoc.
      rewrite <- Hn.
      replace (N.of_nat (S n)) with (N.of_nat (length (repeat x61 n ++ [xc3]))).
      - apply read_app.
      - rewrite length_app, repeat_length. cbn [length]. f_equal. lia. }
    rewrite Hread, utf8_decode_ascii_run.
    change (utf8_decode [xc3]) with (@None text). cbn [option_map].
    rewrite lookup_singleton_ne by (apply not_eq_sym, utf8_path_neq). reflexivity.
Qed.

(** The sample may also cut a character in two: a UTF-8 file whose byte
    1,000,000 is the first byte of an e-acute is taken for Latin-1. *)
Lemma ensure_utf8_cut_character :
  let content := repeat x61 (N.to_nat (SAMPLE - 1)) ++ [xc3; xa9] in
  let w := {| files := {[ "a.csv" := content ]}; sent := [] |} in
  utf8_decode content = Some (repeat 97%N (N.to_nat (SAMPLE - 1)) ++ [233%N]) /\
  fst (ensure_utf8 "a.csv" w) = Ok "a.csv.utf8.csv".
Proof.
  apply (ensure_utf8_cut_character_at (N.to_nat (SAMPLE - 1))).
  unfold SAMPLE. lia.
Qed.

(** *** A second run, ASCII files, and the size of the transcoded file *)

Definition ascii_byte (b : byte) : bool := (Byte.to_N b <? 128)%N.

Lemma utf8_encode_char_byte (b : byte) :
  (if ascii_byte b then utf8_encode_char (Byte.to_N b) = [b]
   else length (utf8_encode_char (Byte.to_N b)) = 2).
Proof. destruct b; reflexivity. Qed.

Lemma transcode_nonempty (content : list byte) :
  content <> [] -> transcode content <> [].
Proof.
  intros Hne. rewrite transcode_eq. destruct content as [|b rest]; [contradiction|].
  unfold utf8_encode, latin1_decode. cbn [map flat_map].
  pose proof (utf8_encode_char_byte b) as Hb.
  destruct (ascii_byte b); [now rewrite Hb|].
  destruct (utf8_encode_char (Byte.to_N b)); [discriminate Hb|discriminate].
Qed.

Lemma utf8_decode_ascii (bs : list byte) :
  forallb ascii_byte bs = true -> utf8_decode bs = Some (latin1_decode bs).
Proof.
  induction bs as [|b bs IH]; [reflexivity|]. cbn [forallb].
  intros H. apply andb_true_iff in H as [Hb Hbs].
  cbn [utf8_decode latin1_decode map]. unfold ascii_byte in Hb.
  rewrite Hb, (IH Hbs). reflexivity.
Qed.

Lemma read_ascii (bs : list byte) : forall n,
  forallb ascii_byte bs = true -> forallb ascii_byte (read n bs) = true.
Proof.
  induction bs as [|b bs IH]; intros n; [reflexivity|]. cbn [forallb read].
  intros H. apply andb_true_iff in H as [Hb Hbs].
  destruct (n =? 0)%N; [reflexivity|]. cbn [forallb]. now rewrite Hb, IH.
Qed.

(** X5. Running the normalizer again changes nothing and returns the same
    path: a file judged UTF-8 is still judged so, and a transcoded file, once
    written, is found and kept instead of being written again. *)
Theorem ensure_utf8_again (src : string) (w : world) :
  ensure_utf8 src (snd (ensure_utf8 src w))
  = (fst (ensure_utf8 src w), snd (ensure_utf8 src w)).
Proof.
  destruct (ensure_utf8 src w) as [r w1] eqn:E. cbn [fst snd].
  unfold ensure_utf8 in E.
  destruct (files w !! src) as [content|] eqn:Hsrc.
  - destruct (utf8_decode (read SAMPLE content)) as [t|] eqn:Hdec.
    + injection E as <- <-. unfold ensure_utf8. now rewrite Hsrc, Hdec.
    + assert (Hne : content <> []) by (intros ->; discriminate).
      pose proof (transcode_nonempty content Hne) as Hout.
      assert (Hwritten :
        ensure_utf8 src (with_files (<[utf8_path src := transcode content]> (files w)) w)
        = (Ok (utf8_path src),
           with_files (<[utf8_path src := transcode content]> (files w)) w)).
      { unfold ensure_utf8. cbn [files with_files].
        rewrite lookup_insert_ne by apply utf8_path_neq.
        rewrite Hsrc, Hdec, lookup_insert_eq.
        destruct (transcode content); [contradiction|reflexivity]. }
      destruct (files w !! utf8_path src) as [[|b old]|] eqn:Hdst;
        injection E as <- <-; try exact Hwritten.
      unfold ensure_utf8. now rewrite Hsrc, Hdec, Hdst.
  - injection E as <- <-. unfold ensure_utf8. now rewrite Hsrc.
Qed.

(** X6. A file of ASCII bytes only, of any size, is returned as it is and
    nothing is written: no character can be cut by the end of the sample. *)
Theorem ensure_utf8_ascii (src : string) (w : world) (content : list byte) :
  files w !! src = Some content ->
  forallb ascii_byte content = true ->
  ensure_utf8 src w = (Ok src, w).
Proof.
  intros Hsrc Hascii. unfold ensure_utf8. rewrite Hsrc.
  now rewrite (utf8_decode_ascii _ (read_ascii content SAMPLE Hascii)).
Qed.

Lemma ensure_utf8_ascii_witness :
  let w := {| files := {[ "a.csv" := [x31; x3b; x41; x0a] ]}; sent := [] |} in
  ensure_utf8 "a.csv" w = (Ok "a.csv", w).
Proof.
  intros w. apply (ensure_utf8_ascii "a.csv" w [x31; x3b; x41; x0a]); reflexivity.
Defined.

(** X7. Transcoding keeps every ASCII byte and writes two bytes for each
    other byte: the written file is at least as long as the source, at most
    twice as long, and equal to it when the source is all ASCII. *)
Theorem transcode_size (content : list byte) :
  length (transcode content)
    = length content + length (List.filter (fun b => negb (ascii_byte b)) content) /\
  length content <= length (transcode content) <= 2 * length content /\
  (forallb ascii_byte content = true -> transcode content = content).
Proof.
  rewrite transcode_eq. unfold utf8_encode, latin1_decode.
  induction content as [|b rest (IH1 & IH2 & IH3)]; [repeat split; cbn; lia|].
  cbn [map flat_map List.filter forallb length]. rewrite length_app.
  pose proof (utf8_encode_char_byte b) as Hb.
  destruct (ascii_byte b); cbn [negb andb].
  - rewrite Hb. cbn [length app]. repeat split; try lia.
    intros H. now rewrite (IH3 H).
  - rewrite Hb. cbn [length]. repeat split; try lia; discriminate.
Qed.

End Utf8.


(** ** The streaming converter ([csv_to_parquet], [cnpj_ingest_duckdb_v2.py]) *)

Module Convert.
Import Text Schema.

(** A value of the frame: [None] is the missing value (NaN). *)
Definition cell : Type := option string.
Definition record : Type := list cell.

(** What [pandas.read_csv] hands back: the column labels, the records, and
    the positions (among the lines that are not blank) of the lines skipped
    with a warning. *)
Record frame : Type := {
  columns : list string;
  records : list record;
  bad_lines : list nat
}.

(** How the columns are named: [header=0], [header=None, names=ns], or
    [header=None] alone. *)
Variant naming : Type :=
  | HeaderRow
  | Names (ns : list string)
  | Positional.

Record artifact : Type := {
  art_columns : list string;
  art_records : list record
}.

Record conversion : Type := {
  message : header_msg;                (* the [HEADER] line that is printed *)
  sample_bad_lines : list nat;         (* warnings of the five-row sample *)
  warnings : list nat;                 (* warnings of the definitive read *)
  written : option artifact            (* the file at [parquet_path] *)
}.

Definition CHUNKSIZE : N := 200000.

(** [lst[:n]] for the rows of the sample. *)
Definition limit {A} (nrows : option nat) (l : list A) : list A :=
  match nrows with Some n => firstn n l | None => l end.

(** Rows in groups of [size], [k] being what is left of the current group. *)
Fixpoint chunks_go {A} (size k : N) (cur : list A) (l : list A) : list (list A) :=
  match l with
  | [] => match cur with [] => [] | _ :: _ => [rev cur] end
  | x :: rest =>
      if (k <=? 1)%N then rev (x :: cur) :: chunks_go size size [] rest
      else chunks_go size (N.pred k) (x :: cur) rest
  end.

(** The chunks the reader yields: the first one is yielded even when it is
    empty. *)
Definition chunks_of {A} (size : N) (l : list A) : list (list A) :=
  match chunks_go size size [] l with
  | [] => [[]]
  | c :: cs => c :: cs
  end.

(** The loop over the chunks: the first chunk opens the writer with the
    layout of the frame, every chunk is appended. *)
Definition write_tables (cols : list string) (chunks : list (list record))
  : option artifact :=
  fold_left
    (fun writer table =>
       match writer with
       | None => Some {| art_columns := cols; art_records := table |}
       | Some a => Some {| art_columns := cols; art_records := art_records a ++ table |}
       end)
    chunks None.

Section Reader.

(** The fragment of pandas the converter relies on (python engine, all
    values as text, [on_bad_lines="warn"]), by its documented behaviour: a
    line with more fields than there are columns is a bad line, skipped with
    a warning; a line with fewer fields is kept and its missing values are
    NaN; blank lines are skipped. Three things are taken as they are: the
    split of a physical line into fields by the csv module, the test for
    the strings read as missing values, and the labels pandas makes of a
    header row (it renames empty and repeated labels). A record that spans
    several lines, and an index column inferred from a first row wider than
    the header, are not modelled. *)
Variable csv_fields : string -> list string.
Variable is_na : string -> bool.
Variable header_labels : list string -> list string.

(** [skip_blank_lines]: no field, or one field of white space. *)
Definition blank_row (fields : list string) : bool :=
  match fields with
  | [] => true
  | [f] => all_char is_space f
  | _ :: _ :: _ => false
  end.

Definition rows_of (lines : list string) : list (list string) :=
  List.filter (fun r => negb (blank_row r)) (map csv_fields lines).

Definition to_cell (field : string) : cell :=
  if is_na field then None else Some field.

(** A row against [n] columns. *)
Definition fit_row (n : nat) (fields : list string) : option record :=
  if (n <? length fields)%nat then None
  else Some (map to_cell fields ++ repeat None (n - length fields)).

Fixpoint read_rows (n : nat) (pos : nat) (rows : list (list string))
  : list record * list nat :=
  match rows with
  | [] => ([], [])
  | r :: rest =>
      let '(recs, bad) := read_rows n (S pos) rest in
      match fit_row n r with
      | Some rec => (rec :: recs, bad)
      | None => (recs, pos :: bad)
      end
  end.

Definition read_csv (how : naming) (nrows : option nat) (lines : list string)
  : result frame :=
  let rows := rows_of lines in
  match how with
  | HeaderRow =>
      match rows with
      | [] => Raise EmptyDataError
      | h :: data =>
          let cols := header_labels h in
          let '(recs, bad) := read_rows (length cols) 1 (limit nrows data) in
          Ok {| columns := cols; records := recs; bad_lines := bad |}
      end
  | Names ns =>
      let '(recs, bad) := read_rows (length ns) 0 (limit nrows rows) in
      Ok {| columns := ns; records := recs; bad_lines := bad |}
  | Positional =>
      match rows with
      | [] => Raise EmptyDataError
      | first :: _ =>
          let cols := map (fun i => decimal (N.of_nat i)) (seq 0 (length first)) in
          let '(recs, bad) := read_rows (length cols) 0 (limit nrows rows) in
          Ok {| columns := cols; records := recs; bad_lines := bad |}
      end
  end.

(** [_first_line]: at most 1 MiB of the first line. *)
Definition first_line (lines : list string) : string :=
  take (1024 * 1024) (hd "" lines).

(** [csv_to_parquet] on a file named [name] whose lines are [lines]. *)
Definition csv_to_parquet (name : string) (lines : list string) : result conversion :=
  let base := detect_base_from_filename name in
  let header_present := looks_like_header (first_line lines) in
  match read_csv (if header_present then HeaderRow else Positional) (Some 5) lines with
  | Raise e => Raise e
  | Ok sample =>
      let ncols := length (columns sample) in
      let '(decided_names, msg) := choose_column_names base ncols header_present in
      let how := match decided_names, header_present with
                 | None, true => HeaderRow
                 | None, false => Positional
                 | Some ns, _ => Names ns
                 end in
      match read_csv how None lines with
      | Raise e => Raise e
      | Ok df =>
          Ok {| message := msg;
                sample_bad_lines := bad_lines sample;
                warnings := bad_lines df;
                written := write_tables (columns df) (chunks_of CHUNKSIZE (records df)) |}
      end
  end.

(** [csv_to_parquet_with_duckdb] of [cnpj_ingest_duckdb.py]: one read, with
    the header pandas infers from the first row; the warnings and the file
    written. *)
Definition csv_to_parquet_with_duckdb (lines : list string)
  : result (list nat * option artifact) :=
  match read_csv HeaderRow None lines with
  | Raise e => Raise e
  | Ok df => Ok (bad_lines df, write_tables (columns df) (chunks_of CHUNKSIZE (records df)))
  end.

(** *** Properties of the converter *)

Hypothesis header_labels_length : forall h, length (header_labels h) = length h.





Lemma chunks_go_concat {A} (size : N) (l : list A) : forall k cur,
  concat (chunks_go size k cur l) = rev cur ++ l.
Proof.
  induction l as [|x rest IH]; intros k cur; cbn [chunks_go].
  - destruct cur; [reflexivity|]. cbn [concat]. now rewrite !app_nil_r.
  - destruct (k <=? 1)%N.
    + cbn [concat]. rewrite IH. cbn [rev app]. now rewrite <- app_assoc.
    + rewrite IH. cbn [rev]. now rewrite <- app_assoc.
Qed.

Lemma chunks_of_concat {A} (size : N) (l : list A) :
  concat (chunks_of size l) = l /\ chunks_of size l <> [].
Proof.
  unfold chunks_of. pose proof (chunks_go_concat size l size []) as H.
  destruct (chunks_go size size [] l); cbn [rev app] in H.
  - split; [now rewrite <- H|discriminate].
  - split; [exact H|discriminate].
Qed.

Lemma write_tables_open cols (chunks : list (list record)) : forall a,
  fold_left
    (fun writer table =>
       match writer with
       | None => Some {| art_columns := cols; art_records := table |}
       | Some a => Some {| art_columns := cols; art_records := art_records a ++ table |}
       end)
    chunks (Some {| art_columns := cols; art_records := a |})
  = Some {| art_columns := cols; art_records := a ++ concat chunks |}.
Proof.
  induction chunks as [|c chunks IH]; intros a; cbn [fold_left concat].
  - now rewrite app_nil_r.
  - cbn [art_records]. rewrite IH. now rewrite <- app_assoc.
Qed.

(** The chunks written one after the other are the records of the frame. *)
Lemma write_tables_all cols (recs : list record) :
  write_tables cols (chunks_of CHUNKSIZE recs)
  = Some {| art_columns := cols; art_records := recs |}.
Proof.
  destruct (chunks_of_concat CHUNKSIZE recs) as [Hcat Hne].
  unfold write_tables. destruct (chunks_of CHUNKSIZE recs) as [|c cs]; [contradiction|].
  cbn [fold_left]. rewrite write_tables_open. cbn [concat] in Hcat. now rewrite Hcat.
Qed.

(** The sample has as many columns as the first row has fields. *)
Lemma sample_width (lines : list string) (header_present : bool) first more :
  rows_of lines = first :: more ->
  exists sample,
    read_csv (if header_present then HeaderRow else Positional) (Some 5) lines = Ok sample /\
    length (columns sample) = length first.
Proof.
  intros Hrows. unfold read_csv. rewrite Hrows. destruct header_present.
  - destruct (read_rows (length (header_labels first)) 1 (limit (Some 5) more)) as [recs bad].
    eexists. split; [reflexivity|]. apply header_labels_length.
  - destruct (read_rows _ 0 (limit (Some 5) (first :: more))) as [recs bad].
    eexists. split; [reflexivity|]. cbn [columns]. now rewrite length_map, length_seq.
Qed.

(** The conversion when names are imposed. *)
Lemma csv_to_parquet_names (name : string) (lines : list string) first more names :
  rows_of lines = first :: more ->
  fst (choose_column_names (detect_base_from_filename name) (length first)
         (looks_like_header (first_line lines))) = Some names ->
  exists conv,
    csv_to_parquet name lines = Ok conv /\
    warnings conv = snd (read_rows (length names) 0 (first :: more)) /\
    written conv = Some {| art_columns := names;
                           art_records := fst (read_rows (length names) 0 (first :: more)) |}.
Proof.
  intros Hrows Hnames. unfold csv_to_parquet. cbn zeta.
  destruct (sample_width lines (looks_like_header (first_line lines)) first more Hrows)
    as (sample & -> & ->).
  destruct (choose_column_names _ (length first) _) as [decided msg].
  cbn [fst] in Hnames. subst decided.
  unfold read_csv. rewrite Hrows. cbn [limit].
  destruct (read_rows (length names) 0 (first :: more)) as [recs bad].
  eexists. split; [reflexivity|]. cbn [warnings written columns records bad_lines fst snd].
  split; [reflexivity|]. apply write_tables_all.
Qed.

(** The conversion when the header of the file is kept. *)
Lemma csv_to_parquet_header (name : string) (lines : list string) first more :
  rows_of lines = first :: more ->
  looks_like_header (first_line lines) = true ->
  fst (choose_column_names (detect_base_from_filename name) (length first) true) = None ->
  exists conv art,
    csv_to_parquet name lines = Ok conv /\ written conv = Some art /\
    art_columns art = header_labels first.
Proof.
  intros Hrows Hhp Hnone. unfold csv_to_parquet. cbn zeta. rewrite Hhp.
  destruct (sample_width lines true first more Hrows) as (sample & Hs & Hw).
  cbn [negb] in Hs. rewrite Hs, Hw.
  destruct (choose_column_names _ (length first) true) as [decided msg].
  cbn [fst] in Hnone. subst decided.
  unfold read_csv. rewrite Hrows. cbn [limit].
  destruct (read_rows (length (header_labels first)) 1 more) as [recs bad].
  eexists. eexists. split; [reflexivity|].
  cbn [written columns records]. split; [apply write_tables_all|reflexivity].
Qed.

(** C9. When names are imposed although the first line was taken for a
    header row (the fixed list of the kind fits the column count), the file is
    read again with [header=None]: the first line is parsed as a data row and
    is the first record of the artifact, under the imposed names. *)
Theorem header_line_is_a_record (name l1 : string) (rest : list string)
    (names : list string) :
  looks_like_header (first_line (l1 :: rest)) = true ->
  fst (choose_column_names (detect_base_from_filename name)
         (length (csv_fields l1)) true) = Some names ->
  exists conv more,
    csv_to_parquet name (l1 :: rest) = Ok conv /\
    written conv = Some {| art_columns := names;
                           art_records := map to_cell (csv_fields l1) :: more |}.
Proof.
  intros Hhp Hnames.
  pose proof (choose_column_names_length _ _ _ _ Hnames) as Hlen.
  pose proof (COLS_two _ _ (choose_column_names_header _ _ _ Hnames)) as Htwo.
  assert (Hrows : rows_of (l1 :: rest) = csv_fields l1 :: rows_of rest).
  { unfold rows_of. cbn [map List.filter].
    destruct (csv_fields l1) as [|f1 [|f2 fs]]; cbn [length] in Hlen; try lia.
    reflexivity. }
  destruct (csv_to_parquet_names name (l1 :: rest) _ _ names Hrows) as (conv & Hc & _ & Hw).
  { now rewrite Hhp. }
  cbn [read_rows] in Hw.
  destruct (read_rows (length names) 1 (rows_of rest)) as [recs bad].
  unfold fit_row in Hw. rewrite Hlen, Nat.ltb_irrefl, Nat.sub_diag in Hw.
  cbn [repeat fst] in Hw. rewrite app_nil_r in Hw.
  exists conv, recs. split; [exact Hc|exact Hw].
Qed.


(** *** The shape of the artifact, the header branch, and failure *)

Lemma fit_row_width (n : nat) (fields : list string) (rec : record) :
  fit_row n fields = Some rec -> length rec = n.
Proof.
  unfold fit_row. destruct (Nat.ltb_spec n (length fields)); [discriminate|].
  intros [= <-]. rewrite length_app, length_map, repeat_length. lia.
Qed.

Lemma read_rows_width (n : nat) (rows : list (list string)) : forall pos,
  Forall (fun r => length r = n) (fst (read_rows n pos rows)).
Proof.
  induction rows as [|r rest IH]; intros pos; cbn [read_rows]; [constructor|].
  specialize (IH (S pos)). destruct (read_rows n (S pos) rest) as [recs bad].
  cbn [fst] in IH. destruct (fit_row n r) as [rec|] eqn:Hfit; cbn [fst]; [|exact IH].
  constructor; [now apply (fit_row_width n r)|exact IH].
Qed.


(** Every record of a frame has as many values as the frame has columns. *)
Lemma read_csv_width (how : naming) (nrows : option nat) (lines : list string) df :
  read_csv how nrows lines = Ok df ->
  Forall (fun r => length r = length (columns df)) (records df).
Proof.
  unfold read_csv. destruct how as [|ns|].
  - destruct (rows_of lines) as [|h data]; [discriminate|].
    pose proof (read_rows_width (length (header_labels h)) (limit nrows data) 1) as H.
    destruct (read_rows _ 1 _) as [recs bad]. now intros [= <-].
  - pose proof (read_rows_width (length ns) (limit nrows (rows_of lines)) 0) as H.
    destruct (read_rows _ 0 _) as [recs bad]. now intros [= <-].
  - destruct (rows_of lines) as [|first more]; [discriminate|].
    set (cols := map _ (seq 0 (length first))).
    pose proof (read_rows_width (length cols) (limit nrows (first :: more)) 0) as H.
    destruct (read_rows _ 0 _) as [recs bad]. now intros [= <-].
Qed.


(** X8. Whatever branch names the columns, the artifact is rectangular: each
    record has exactly as many values as there are column names. *)
Theorem artifact_is_rectangular (name : string) (lines : list string)
    (conv : conversion) (art : artifact) :
  csv_to_parquet name lines = Ok conv ->
  written conv = Some art ->
  Forall (fun r => length r = length (art_columns art)) (art_records art).
Proof.
  unfold csv_to_parquet. cbn zeta.
  destruct (read_csv _ (Some 5) lines) as [sample|]; [|discriminate].
  destruct (choose_column_names _ _ _) as [decided msg].
  match goal with |- context [read_csv ?how None lines] =>
    destruct (read_csv how None lines) as [df|] eqn:Hdf; [|discriminate] end.
  intros [= <-]. cbn [written]. rewrite write_tables_all. intros [= <-].
  cbn [art_columns art_records]. now apply read_csv_width in Hdf.
Qed.




(** X19. When the first line is not taken for a header (it has no delimiter,
    or no letter or underscore), names are always imposed and the first row
    is kept: it is the first record of the artifact, under as many names as
    it has fields. *)
Theorem first_row_kept_without_header (name : string) (lines : list string)
    (first : list string) (more : list (list string)) :
  rows_of lines = first :: more ->
  looks_like_header (first_line lines) = false ->
  exists conv names rest,
    csv_to_parquet name lines = Ok conv /\
    length names = length first /\
    written conv = Some {| art_columns := names;
                           art_records := map to_cell first :: rest |}.
Proof.
  intros Hrows Hhp.
  destruct (fst (choose_column_names (detect_base_from_filename name) (length first)
                   false)) as [names|] eqn:Hd.
  - pose proof (choose_column_names_length _ _ _ _ Hd) as Hlen.
    destruct (csv_to_parquet_names name lines first more names Hrows) as (conv & Hc & _ & Hw).
    { now rewrite Hhp. }
    cbn [read_rows] in Hw.
    destruct (read_rows (length names) 1 more) as [recs bad].
    unfold fit_row in Hw. rewrite Hlen, Nat.ltb_irrefl, Nat.sub_diag in Hw.
    cbn [repeat fst] in Hw. rewrite app_nil_r in Hw.
    now exists conv, names, recs.
  - exfalso. revert Hd. unfold choose_column_names.
    destruct (COLS _) as [target|]; [|discriminate].
    destruct (truthy target && _); discriminate.
Qed.

End Reader.

(** *** A reader to run the converter with *)

(** Fields without quotes: the line split at the delimiter. *)
Definition plain_fields (line : string) : list string := split_on CSV_DELIM line.

(** Some of the strings pandas reads as missing. *)
Definition plain_na (field : string) : bool :=
  existsb (String.eqb field) [""; "NA"; "NULL"; "NaN"; "nan"; "null"; "N/A"].

(** The labels of a header whose labels are distinct and not empty. *)
Definition plain_labels (h : list string) : list string := h.

Definition convert : string -> list string -> result conversion :=
  csv_to_parquet plain_fields plain_na plain_labels.

Definition some_row (fields : list string) : record := map Some fields.

Lemma header_line_is_a_record_witness :
  exists conv more,
    convert "K3241.K03200Y0.D50712.CNAECSV.csv" ["codigo;descricao"; "0111301;Cultivo de arroz"]
      = Ok conv /\
    written conv = Some {| art_columns := ["codigo"; "descricao"];
                           art_records := some_row ["codigo"; "descricao"] :: more |}.
Proof.
  apply (header_line_is_a_record plain_fields plain_na plain_labels (fun h => eq_refl)
           "K3241.K03200Y0.D50712.CNAECSV.csv" "codigo;descricao"
           ["0111301;Cultivo de arroz"] ["codigo"; "descricao"]);
    reflexivity.
Defined.

(** The header line and the data line are both records of the artifact. *)
Example header_line_is_a_record_run :
  convert "K3241.K03200Y0.D50712.CNAECSV.csv" ["codigo;descricao"; "0111301;Cultivo de arroz"]
  = Ok {| message := MsgDictionary "cnaes" 2;
          sample_bad_lines := [];
          warnings := [];
          written := Some {| art_columns := ["codigo"; "descricao"];
                             art_records := [ some_row ["codigo"; "descricao"];
                                              some_row ["0111301"; "Cultivo de arroz"] ] |} |}.
Proof. vm_compute. reflexivity. Qed.

Definition five_columns : list string :=
  ["col_00"; "col_01"; "col_02"; "col_03"; "col_04"].


(** One row of six fields among three rows of a five-column file: two
    records, one warning. *)
Example long_row_run :
  convert "dados.csv" ["1;2;3;4;5"; "6;7;8;9;10;11"; "12;13;14;15;16"]
  = Ok {| message := MsgAutomatic 5;
          sample_bad_lines := [1];
          warnings := [1];
          written := Some {| art_columns := five_columns;
                             art_records := [ some_row ["1"; "2"; "3"; "4"; "5"];
                                              some_row ["12"; "13"; "14"; "15"; "16"] ] |} |}.
Proof. vm_compute. reflexivity. Qed.

(** The first converter treats rows the same way: under a header of three
    labels the row of two fields is kept and the row of four is skipped. *)
Example first_converter_rows :
  csv_to_parquet_with_duckdb plain_fields plain_na plain_labels
    ["a;b;c"; "1;2"; "3;4;5;6"; "7;8;9"]
  = Ok ([2], Some {| art_columns := ["a"; "b"; "c"];
                     art_records := [ [Some "1"; Some "2"; None];
                                      some_row ["7"; "8"; "9"] ] |}).
Proof. vm_compute. reflexivity. Qed.


Lemma artifact_is_rectangular_witness :
  Forall (fun r => length r = 5)
    [ some_row ["1"; "2"; "3"; "4"; "5"];
      [Some "6"; Some "7"; Some "8"; Some "9"; None];
      some_row ["12"; "13"; "14"; "15"; "16"] ].
Proof.
  exact (artifact_is_rectangular plain_fields plain_na plain_labels "dados.csv"
           ["1;2;3;4;5"; "6;7;8;9"; "12;13;14;15;16"] _ _ eq_refl eq_refl).
Defined.


Lemma first_row_kept_without_header_witness :
  exists conv names rest,
    convert "dados.csv" ["1;2;3"; "4;5;6"] = Ok conv /\
    length names = 3 /\
    written conv = Some {| art_columns := names;
                           art_records := some_row ["1"; "2"; "3"] :: rest |}.
Proof.
  exact (first_row_kept_without_header plain_fields plain_na plain_labels
           (fun h => eq_refl) "dados.csv" ["1;2;3"; "4;5;6"]
           ["1"; "2"; "3"] [["4"; "5"; "6"]] eq_refl eq_refl).
Defined.



End Convert.


(** ** Column names in SQL form ([renomear_colunas.py]) *)

Module Names.
Import Text.

(** The class [[a-z0-9]]. *)
Definition alnum (c : ascii) : bool := in_range 97 122 c || in_range 48 57 c.

Definition is_underscore (c : ascii) : bool := Ascii.eqb c "_"%char.

(** [re.sub(cls+, "_", s)]: every maximal run of characters of the class
    becomes one underscore; [in_run] tells that the run has begun. *)
Fixpoint sub_runs (cls : ascii -> bool) (in_run : bool) (s : string) : string :=
  match s with
  | EmptyString => EmptyString
  | String c s' =>
      if cls c then
        if in_run then sub_runs cls true s' else String "_" (sub_runs cls true s')
      else String c (sub_runs cls false s')
  end.

(** [s.lstrip(...)], [s.rstrip(...)] and [s.strip(...)] for a set of characters. *)
Fixpoint lstrip (p : ascii -> bool) (s : string) : string :=
  match s with
  | EmptyString => EmptyString
  | String c s' => if p c then lstrip p s' else s
  end.

Fixpoint rstrip (p : ascii -> bool) (s : string) : string :=
  match s with
  | EmptyString => EmptyString
  | String c s' =>
      match rstrip p s' with
      | EmptyString => if p c then EmptyString else String c EmptyString
      | String d t => String c (String d t)
      end
  end.

Definition strip (p : ascii -> bool) (s : string) : string := rstrip p (lstrip p s).

(** The leading characters of the class and what follows them. *)
Fixpoint span (p : ascii -> bool) (s : string) : string * string :=
  match s with
  | EmptyString => (EmptyString, EmptyString)
  | String c s' =>
      if p c then let '(a, b) := span p s' in (String c a, b) else (EmptyString, s)
  end.

(** [re.fullmatch(r"\d+(\.\d+)?", s)] *)
Definition looks_numeric (s : string) : bool :=
  match span is_digit s with
  | (EmptyString, _) => false
  | (String _ _, EmptyString) => true
  | (String _ _, String c rest) =>
      Ascii.eqb c "."%char &&
      match span is_digit rest with
      | (String _ _, EmptyString) => true
      | _ => false
      end
  end.

(** [unique]: [seen] counts the occurrences of every name met so far. *)
Fixpoint unique_from (seen : gmap string N) (names : list string) : list string :=
  match names with
  | [] => []
  | n :: rest =>
      let n := if String.eqb n "" then "col" else n in
      match seen !! n with
      | None => n :: unique_from (<[n := 1%N]> seen) rest
      | Some k =>
          (n ++ "_" ++ decimal (k + 1))%string :: unique_from (<[n := (k + 1)%N]> seen) rest
      end
  end.

Definition unique (names : list string) : list string := unique_from ∅ names.

Section ToSqlName.

(** [unidecode.unidecode], the transliteration to ASCII, is taken as it is. *)
Variable unidecode : string -> string.

Definition to_sql_name (raw : string) : string :=
  let s := strip is_space (lower (unidecode raw)) in
  let s := sub_runs (fun c => negb (alnum c)) false s in
  strip is_underscore (sub_runs is_underscore false s).

(** The loop of [auto_sql_headers], [i] being the index of the first column
    of [cols]. *)
Fixpoint auto_names_from (i : N) (cols : list string) : list string :=
  match cols with
  | [] => []
  | c :: rest =>
      let n := to_sql_name c in
      let n := if String.eqb n "" || startswith "unnamed" n || looks_numeric n
               then ("col_" ++ decimal02 i)%string else n in
      n :: auto_names_from (i + 1) rest
  end.

Definition auto_sql_headers (cols : list string) : list string :=
  unique (auto_names_from 0 cols).

End ToSqlName.

(** *** Canonical form *)

Definition name_char (c : ascii) : bool := alnum c || is_underscore c.

Definition starts_with_underscore (s : string) : bool :=
  match s with String c _ => is_underscore c | EmptyString => false end.

Fixpoint ends_with_underscore (s : string) : bool :=
  match s with
  | EmptyString => false
  | String c EmptyString => is_underscore c
  | String _ s' => ends_with_underscore s'
  end.

(** No two underscores in a row; [prev] tells that an underscore precedes. *)
Fixpoint single_underscores (prev : bool) (s : string) : bool :=
  match s with
  | EmptyString => true
  | String c s' =>
      if is_underscore c then negb prev && single_underscores true s'
      else single_underscores false s'
  end.

(** Lower-case ASCII letters, digits and single underscores between them. *)
Definition canonical (s : string) : bool :=
  all_char name_char s && negb (starts_with_underscore s)
  && negb (ends_with_underscore s) && single_underscores false s.

(** *** Properties of the names *)

Lemma sub_runs_chars (in_run : bool) (s : string) :
  all_char name_char (sub_runs (fun c => negb (alnum c)) in_run s) = true.
Proof.
  revert in_run. induction s as [|c s IH]; intros in_run; cbn [sub_runs]; [reflexivity|].
  destruct (alnum c) eqn:Ha; cbn [negb].
  - cbn [all_char]. unfold name_char at 1. now rewrite Ha, IH.
  - destruct in_run; [apply IH|]. cbn [all_char]. now rewrite IH.
Qed.

Lemma sub_runs_keeps_chars (cls : ascii -> bool) (in_run : bool) (s : string) :
  all_char name_char s = true -> all_char name_char (sub_runs cls in_run s) = true.
Proof.
  revert in_run. induction s as [|c s IH]; intros in_run; cbn [sub_runs all_char];
    [reflexivity|].
  intros H. apply andb_true_iff in H as [Hc Hs].
  destruct (cls c).
  - destruct in_run; [now apply IH|]. cbn [all_char]. now rewrite IH.
  - cbn [all_char]. now rewrite Hc, IH.
Qed.

Lemma sub_runs_single (in_run : bool) (s : string) :
  single_underscores in_run (sub_runs is_underscore in_run s) = true.
Proof.
  revert in_run. induction s as [|c s IH]; intros in_run; cbn [sub_runs];
    [reflexivity|].
  destruct (is_underscore c) eqn:Hc.
  - destruct in_run; [apply IH|]. cbn [single_underscores]. apply IH.
  - cbn [single_underscores]. rewrite Hc. apply IH.
Qed.

Lemma single_underscores_weaken (prev : bool) (s : string) :
  single_underscores prev s = true -> single_underscores false s = true.
Proof.
  destruct s as [|c s]; [reflexivity|]. cbn [single_underscores].
  destruct (is_underscore c); [|auto]. intros H. now apply andb_true_iff in H as [_ ->].
Qed.

Lemma lstrip_chars (p q : ascii -> bool) (s : string) :
  all_char p s = true -> all_char p (lstrip q s) = true.
Proof.
  induction s as [|c s IH]; cbn [lstrip all_char]; [reflexivity|].
  intros H. destruct (q c); [|exact H]. apply andb_true_iff in H as [_ H]. now apply IH.
Qed.

Lemma lstrip_single (q : ascii -> bool) (s : string) : forall prev,
  single_underscores prev s = true -> single_underscores false (lstrip q s) = true.
Proof.
  induction s as [|c s IH]; intros prev; cbn [lstrip]; [reflexivity|].
  destruct (q c); [|apply single_underscores_weaken].
  cbn [single_underscores]. destruct (is_underscore c).
  - intros H. apply andb_true_iff in H as [_ H]. now apply (IH true).
  - apply IH.
Qed.

Lemma lstrip_start (s : string) :
  starts_with_underscore (lstrip is_underscore s) = false.
Proof.
  induction s as [|c s IH]; cbn [lstrip]; [reflexivity|].
  destruct (is_underscore c) eqn:Hc; [exact IH|exact Hc].
Qed.

Lemma rstrip_chars (p q : ascii -> bool) (s : string) :
  all_char p s = true -> all_char p (rstrip q s) = true.
Proof.
  induction s as [|c s IH]; cbn [rstrip all_char]; [reflexivity|].
  intros H. apply andb_true_iff in H as [Hc Hs]. specialize (IH Hs).
  destruct (rstrip q s) as [|d t].
  - destruct (q c); [reflexivity|]. cbn [all_char]. now rewrite Hc.
  - change (all_char p (String c (String d t))) with (p c && all_char p (String d t)).
    now rewrite Hc, IH.
Qed.

Lemma rstrip_single (q : ascii -> bool) (s : string) : forall prev,
  single_underscores prev s = true -> single_underscores prev (rstrip q s) = true.
Proof.
  induction s as [|c s IH]; intros prev; cbn [rstrip]; [reflexivity|].
  intros H. cbn [single_underscores] in H.
  destruct (rstrip q s) as [|d t] eqn:Hr.
  - destruct (q c); [reflexivity|]. cbn [single_underscores].
    destruct (is_underscore c); [|reflexivity].
    apply andb_true_iff in H as [-> _]. reflexivity.
  - change (single_underscores prev (String c (String d t)))
      with (if is_underscore c
            then negb prev && single_underscores true (String d t)
            else single_underscores false (String d t)).
    destruct (is_underscore c).
    + apply andb_true_iff in H as [-> H]. now apply IH.
    + now apply IH.
Qed.

Lemma rstrip_end (s : string) : ends_with_underscore (rstrip is_underscore s) = false.
Proof.
  induction s as [|c s IH]; cbn [rstrip]; [reflexivity|].
  destruct (rstrip is_underscore s) as [|d t].
  - destruct (is_underscore c) eqn:Hc; [reflexivity|]. cbn [ends_with_underscore].
    exact Hc.
  - exact IH.
Qed.

Lemma rstrip_start (q : ascii -> bool) (s : string) :
  starts_with_underscore s = false -> starts_with_underscore (rstrip q s) = false.
Proof.
  destruct s as [|c s]; cbn [rstrip]; [reflexivity|]. intros H.
  destruct (rstrip q s); [|exact H]. destruct (q c); [reflexivity|exact H].
Qed.

(** What [to_sql_name] returns is in canonical form. *)
Lemma to_sql_name_canonical (unidecode : string -> string) (raw : string) :
  canonical (to_sql_name unidecode raw) = true.
Proof.
  unfold to_sql_name, canonical, strip. cbn zeta.
  set (s1 := sub_runs is_underscore false _).
  assert (Hch : all_char name_char s1 = true)
    by (apply sub_runs_keeps_chars, sub_runs_chars).
  assert (Hsg : single_underscores false s1 = true) by apply sub_runs_single.
  rewrite rstrip_chars by now apply lstrip_chars.
  rewrite rstrip_start by apply lstrip_start.
  rewrite rstrip_end.
  rewrite rstrip_single by now apply (lstrip_single _ _ false).
  reflexivity.
Qed.

Lemma digit_name_char (c : ascii) :
  is_digit c = true -> name_char c = true /\ is_underscore c = false.
Proof.
  unfold is_digit, name_char, alnum, is_underscore, in_range, code.
  intros H. rewrite H, orb_true_r. split; [reflexivity|].
  apply andb_true_iff in H as [H1 H2]. apply N.leb_le in H1, H2.
  destruct (Ascii.eqb c "_") eqn:E; [|reflexivity].
  apply Ascii.eqb_eq in E. subst c. cbn in H2. lia.
Qed.

(** A string of digits has the characters of a name and no underscore. *)
Lemma digits_plain (ds : string) :
  all_char is_digit ds = true ->
  all_char name_char ds = true /\ ends_with_underscore ds = false /\
  forall prev, single_underscores prev ds = true.
Proof.
  induction ds as [|c ds IH]; cbn [all_char]; [repeat split|].
  intros H. apply andb_true_iff in H as [Hc Hds].
  destruct (digit_name_char c Hc) as [Hn Hu]. destruct (IH Hds) as (H1 & H2 & H3).
  repeat split.
  - now rewrite Hn, H1.
  - destruct ds; [exact Hu|exact H2].
  - intros prev. cbn [single_underscores]. rewrite Hu. apply H3.
Qed.

Lemma ends_with_underscore_append (s1 s2 : string) :
  s2 <> "" -> ends_with_underscore (s1 ++ s2) = ends_with_underscore s2.
Proof.
  intros Hne. induction s1 as [|c s1 IH]; [reflexivity|].
  cbn [String.append]. destruct (s1 ++ s2)%string as [|d t] eqn:E.
  - destruct s1; [now destruct s2|discriminate].
  - exact IH.
Qed.

Lemma single_underscores_append (s1 s2 : string) : forall prev,
  s1 <> "" -> single_underscores prev s1 = true -> ends_with_underscore s1 = false ->
  single_underscores false s2 = true -> single_underscores prev (s1 ++ s2) = true.
Proof.
  induction s1 as [|c s1 IH]; intros prev Hne H1 He H2; [contradiction|].
  cbn [String.append single_underscores] in *.
  destruct s1 as [|d t].
  - cbn [ends_with_underscore] in He. rewrite He. exact H2.
  - destruct (is_underscore c).
    + apply andb_true_iff in H1 as [-> H1]. cbn [negb andb].
      now apply IH.
    + now apply IH.
Qed.

Definition good_name (n : string) : Prop := canonical n = true /\ n <> "".

(** The positional name that replaces a name that is empty or a number. *)
Lemma positional_good (i : N) : good_name ("col_" ++ decimal02 i).
Proof.
  destruct (decimal02_digits i) as [Hd Hne].
  destruct (digits_plain _ Hd) as (H1 & H2 & H3).
  split; [|discriminate]. unfold canonical.
  assert (A : all_char name_char ("col_" ++ decimal02 i) = true)
    by (rewrite all_char_append, H1; reflexivity).
  assert (B : starts_with_underscore ("col_" ++ decimal02 i) = false) by reflexivity.
  assert (C : ends_with_underscore ("col_" ++ decimal02 i) = false)
    by (rewrite ends_with_underscore_append by exact Hne; exact H2).
  assert (D : single_underscores false ("col_" ++ decimal02 i) = true).
  { change (single_underscores false ("col_" ++ decimal02 i))
      with (single_underscores true (decimal02 i)). apply H3. }
  now rewrite A, B, C, D.
Qed.

(** A name that is already good stays good with a counter after it. *)
Lemma suffixed_good (n : string) (k : N) :
  good_name n -> good_name (n ++ "_" ++ decimal k).
Proof.
  intros [Hc Hne]. unfold canonical in Hc.
  apply andb_true_iff in Hc as [Hc Hsg]. apply andb_true_iff in Hc as [Hc Hend].
  apply andb_true_iff in Hc as [Hch Hst].
  apply negb_true_iff in Hend, Hst.
  destruct (digits_plain _ (decimal_digits k)) as (H1 & H2 & H3).
  pose proof (decimal_nonempty k) as Hk.
  split; [|destruct n; [contradiction|discriminate]].
  unfold canonical.
  assert (A : all_char name_char (n ++ "_" ++ decimal k) = true).
  { rewrite !all_char_append, Hch, H1. reflexivity. }
  assert (B : starts_with_underscore (n ++ "_" ++ decimal k) = false).
  { destruct n; [contradiction|exact Hst]. }
  assert (C : ends_with_underscore (n ++ "_" ++ decimal k) = false).
  { rewrite !ends_with_underscore_append; [exact H2|exact Hk|].
    destruct (decimal k); [contradiction|discriminate]. }
  assert (D : single_underscores false (n ++ "_" ++ decimal k) = true).
  { apply single_underscores_append; try assumption.
    change (single_underscores false ("_" ++ decimal k))
      with (single_underscores true (decimal k)). apply H3. }
  now rewrite A, B, C, D.
Qed.

Lemma unique_from_good (names : list string) : forall seen,
  Forall good_name names -> Forall good_name (unique_from seen names).
Proof.
  induction names as [|n rest IH]; intros seen Hall; cbn [unique_from]; [constructor|].
  apply Forall_cons in Hall as [Hn Hrest].
  assert (Hn' : good_name (if String.eqb n "" then "col" else n)).
  { destruct (String.eqb n ""); [split; [reflexivity|discriminate]|exact Hn]. }
  destruct (seen !! _).
  - constructor; [now apply suffixed_good|now apply IH].
  - constructor; [exact Hn'|now apply IH].
Qed.

Lemma auto_names_from_good (unidecode : string -> string) (cols : list string) :
  forall i, Forall good_name (auto_names_from unidecode i cols).
Proof.
  induction cols as [|c rest IH]; intros i; cbn [auto_names_from]; [constructor|].
  constructor; [|apply IH].
  destruct (String.eqb (to_sql_name unidecode c) "") eqn:He; cbn [orb].
  - apply positional_good.
  - destruct (startswith "unnamed" _ || looks_numeric _); [apply positional_good|].
    split; [apply to_sql_name_canonical|]. now apply String.eqb_neq.
Qed.

(** Every name that [auto_sql_headers] returns is in canonical form and not
    empty. *)
Lemma auto_sql_headers_good (unidecode : string -> string) (cols : list string) :
  Forall good_name (auto_sql_headers unidecode cols).
Proof. apply unique_from_good, auto_names_from_good. Qed.

(** [unique] does not always tell names apart: the second a becomes a_2,
    which the third name already is. *)
Example unique_repeats : unique ["a"; "a"; "a_2"] = ["a"; "a_2"; "a_2"].
Proof. vm_compute. reflexivity. Qed.

(** A transliteration of the Latin-1 letters, to run [to_sql_name] with. *)
Definition fold_accent (c : ascii) : string :=
  let n := code c in
  if in_range 192 197 c then "A" else if in_range 224 229 c then "a"
  else if (n =? 199)%N then "C" else if (n =? 231)%N then "c"
  else if in_range 200 203 c then "E" else if in_range 232 235 c then "e"
  else if in_range 204 207 c then "I" else if in_range 236 239 c then "i"
  else if in_range 210 214 c then "O" else if in_range 242 246 c then "o"
  else if in_range 217 220 c then "U" else if in_range 249 252 c then "u"
  else if (n =? 209)%N then "N" else if (n =? 241)%N then "n"
  else String c "".

Fixpoint plain_unidecode (s : string) : string :=
  match s with
  | EmptyString => EmptyString
  | String c s' => (fold_accent c ++ plain_unidecode s')%string
  end.

(** *** Names that are left as they are *)

Lemma unique_from_length (names : list string) : forall seen,
  length (unique_from seen names) = length names.
Proof.
  induction names as [|n rest IH]; intros seen; cbn [unique_from]; [reflexivity|].
  destruct (seen !! _); cbn [length]; now rewrite IH.
Qed.

Lemma unique_from_distinct (names : list string) : forall seen,
  NoDup names -> "" ∉ names ->
  Forall (fun n => seen !! n = None) names ->
  unique_from seen names = names.
Proof.
  induction names as [|n rest IH]; intros seen Hnd Hempty Hseen; [reflexivity|].
  apply NoDup_cons in Hnd as [Hn Hnd]. apply Forall_cons in Hseen as [Hsn Hseen].
  apply not_elem_of_cons in Hempty as [Hne Hempty].
  cbn [unique_from]. apply not_eq_sym, String.eqb_neq in Hne. rewrite Hne, Hsn.
  f_equal. apply IH; try assumption.
  rewrite Forall_forall in Hseen |- *. intros m Hm.
  rewrite lookup_insert_ne; [now apply Hseen|]. intros ->. contradiction.
Qed.

(** X12. [unique] returns as many names as it is given, position by
    position, and leaves a list of distinct names, none of them empty, as it
    is. *)
Theorem unique_keeps_distinct (names : list string) :
  length (unique names) = length names /\
  (NoDup names -> "" ∉ names -> unique names = names).
Proof.
  split; [apply unique_from_length|].
  intros Hnd Hempty. apply unique_from_distinct; try assumption.
  apply Forall_forall. intros n _. apply lookup_empty.
Qed.

Lemma unique_keeps_distinct_witness :
  unique ["cnpj_basico"; "razao_social"; "porte"] = ["cnpj_basico"; "razao_social"; "porte"].
Proof.
  apply (proj2 (unique_keeps_distinct ["cnpj_basico"; "razao_social"; "porte"])).
  - apply (bool_decide_unpack _). vm_compute. exact I.
  - apply (bool_decide_unpack _). vm_compute. exact I.
Defined.

Lemma name_char_lower (c : ascii) : name_char c = true -> lower_char c = c.
Proof.
  intros H. destruct c as [[] [] [] [] [] [] [] []];
    try reflexivity; cbv in H; discriminate H.
Qed.

Lemma name_char_not_space (c : ascii) : name_char c = true -> is_space c = false.
Proof.
  intros H. destruct c as [[] [] [] [] [] [] [] []];
    try reflexivity; cbv in H; discriminate H.
Qed.

Lemma name_char_class (c : ascii) :
  name_char c = true -> negb (alnum c) = is_underscore c.
Proof.
  intros H. destruct c as [[] [] [] [] [] [] [] []];
    try reflexivity; cbv in H; discriminate H.
Qed.

Lemma lower_name (s : string) : all_char name_char s = true -> lower s = s.
Proof.
  induction s as [|c s IH]; cbn [all_char lower]; [reflexivity|].
  intros H. apply andb_true_iff in H as [Hc Hs]. now rewrite (name_char_lower c Hc), IH.
Qed.

Lemma lstrip_none (p : ascii -> bool) (s : string) :
  all_char (fun c => negb (p c)) s = true -> lstrip p s = s.
Proof.
  destruct s as [|c s]; cbn [all_char lstrip]; [reflexivity|].
  intros H. apply andb_true_iff in H as [Hc _]. apply negb_true_iff in Hc.
  now rewrite Hc.
Qed.

Lemma rstrip_none (p : ascii -> bool) (s : string) :
  all_char (fun c => negb (p c)) s = true -> rstrip p s = s.
Proof.
  induction s as [|c s IH]; cbn [all_char rstrip]; [reflexivity|].
  intros H. apply andb_true_iff in H as [Hc Hs]. apply negb_true_iff in Hc.
  rewrite (IH Hs), Hc. now destruct s.
Qed.

Lemma all_char_impl (p q : ascii -> bool) (s : string) :
  (forall c, p c = true -> q c = true) -> all_char p s = true -> all_char q s = true.
Proof.
  intros Hpq. induction s as [|c s IH]; cbn [all_char]; [reflexivity|].
  intros H. apply andb_true_iff in H as [Hc Hs]. now rewrite (Hpq c Hc), IH.
Qed.

(** On a string whose runs of the class are single underscores, [sub_runs]
    changes nothing. *)
Lemma sub_runs_none (cls : ascii -> bool) (s : string) : forall prev,
  all_char (fun c => Bool.eqb (cls c) (is_underscore c)) s = true ->
  single_underscores prev s = true ->
  sub_runs cls prev s = s.
Proof.
  induction s as [|c s IH]; intros prev; cbn [all_char single_underscores sub_runs];
    [reflexivity|].
  intros H Hsg. apply andb_true_iff in H as [Hc Hs]. apply Bool.eqb_prop in Hc.
  rewrite Hc. destruct (is_underscore c) eqn:Hu.
  - apply andb_true_iff in Hsg as [Hprev Hsg]. apply negb_true_iff in Hprev. subst prev.
    unfold is_underscore in Hu. apply Ascii.eqb_eq in Hu. subst c.
    now rewrite (IH true).
  - now rewrite (IH false).
Qed.

Lemma lstrip_underscore_none (s : string) :
  starts_with_underscore s = false -> lstrip is_underscore s = s.
Proof. destruct s as [|c s]; cbn; [reflexivity|]. now intros ->. Qed.

Lemma rstrip_underscore_none (s : string) :
  ends_with_underscore s = false -> rstrip is_underscore s = s.
Proof.
  induction s as [|c s IH]; [reflexivity|]. cbn [rstrip].
  destruct s as [|d t].
  - cbn [rstrip ends_with_underscore]. now intros ->.
  - intros H. now rewrite (IH H).
Qed.

Section FixedPoints.
Variable unidecode : string -> string.

(** [unidecode] leaves text of ASCII letters, digits and underscores alone. *)
Hypothesis unidecode_plain :
  forall s, all_char name_char s = true -> unidecode s = s.

(** X13. A name in canonical form is a fixed point of [to_sql_name]: the
    renaming never changes a name that is already normalized, and so applying
    it twice is the same as applying it once. *)
Theorem to_sql_name_fixes_canonical (raw : string) :
  (canonical raw = true -> to_sql_name unidecode raw = raw) /\
  to_sql_name unidecode (to_sql_name unidecode raw) = to_sql_name unidecode raw.
Proof.
  assert (Hfix : forall s, canonical s = true -> to_sql_name unidecode s = s).
  { intros s0 Hc. unfold canonical in Hc.
    apply andb_true_iff in Hc as [Hc Hsg]. apply andb_true_iff in Hc as [Hc Hend].
    apply andb_true_iff in Hc as [Hch Hst]. apply negb_true_iff in Hend, Hst.
    unfold to_sql_name, strip. cbn zeta.
    rewrite (unidecode_plain _ Hch), (lower_name _ Hch).
    assert (Hsp : all_char (fun c => negb (is_space c)) s0 = true).
    { apply (all_char_impl name_char); [|exact Hch].
      intros c Hcc. now rewrite (name_char_not_space c Hcc). }
    rewrite (lstrip_none _ _ Hsp), (rstrip_none _ _ Hsp).
    rewrite (sub_runs_none (fun c => negb (alnum c)) s0 false); [|
      apply (all_char_impl name_char); [|exact Hch];
      intros c Hcc; rewrite (name_char_class c Hcc); apply Bool.eqb_reflx | exact Hsg].
    rewrite (sub_runs_none is_underscore s0 false); [|
      apply (all_char_impl name_char); [|exact Hch];
      intros c _; apply Bool.eqb_reflx | exact Hsg].
    now rewrite (lstrip_underscore_none _ Hst), (rstrip_underscore_none _ Hend). }
  split; [apply Hfix|]. apply Hfix, to_sql_name_canonical.
Qed.

End FixedPoints.

Lemma fold_accent_plain (c : ascii) : name_char c = true -> fold_accent c = String c "".
Proof.
  intros H. destruct c as [[] [] [] [] [] [] [] []];
    try reflexivity; cbv in H; discriminate H.
Qed.

Lemma plain_unidecode_plain (s : string) :
  all_char name_char s = true -> plain_unidecode s = s.
Proof.
  induction s as [|c s IH]; cbn [all_char plain_unidecode]; [reflexivity|].
  intros H. apply andb_true_iff in H as [Hc Hs].
  now rewrite (fold_accent_plain c Hc), (IH Hs).
Qed.

Lemma to_sql_name_fixes_canonical_witness :
  to_sql_name plain_unidecode "razao_social" = "razao_social" /\
  to_sql_name plain_unidecode (to_sql_name plain_unidecode " Razao Social ")
  = to_sql_name plain_unidecode " Razao Social ".
Proof.
  split.
  - apply (proj1 (to_sql_name_fixes_canonical plain_unidecode plain_unidecode_plain
                    "razao_social")). reflexivity.
  - apply (proj2 (to_sql_name_fixes_canonical plain_unidecode plain_unidecode_plain
                    " Razao Social ")).
Defined.

End Names.


(** ** The names written to the artifact *)

Module ColumnNames.
Import Text Schema Convert Names.

Lemma COLS_good base target :
  COLS base = Some target -> Forall good_name target /\ NoDup target.
Proof.
  intros H. apply dict_get_In in H. unfold COLS_items in H.
  repeat (destruct H as [[= <- <-]|H];
          [split; [unfold good_name; apply (bool_decide_unpack _); vm_compute; exact I
                  |apply (bool_decide_unpack _); vm_compute; exact I]|]).
  destruct H.
Qed.

Lemma auto_names_good n : Forall good_name (auto_names n) /\ NoDup (auto_names n).
Proof.
  unfold auto_names. split.
  - apply Forall_forall. intros x Hx. apply list_elem_of_In, in_map_iff in Hx as (i & <- & _).
    apply positional_good.
  - apply (NoDup_fmap_2_strong (fun i => ("col_" ++ decimal02 (N.of_nat i))%string));
      [|apply NoDup_seq].
    intros i j _ _ Heq. injection Heq as Heq.
    apply (f_equal parse_decimal) in Heq. rewrite !parse_decimal02 in Heq.
    injection Heq as Heq. lia.
Qed.

(** The names that [choose_column_names] imposes are canonical and distinct. *)
Lemma imposed_names_good base ncols header_present names :
  fst (choose_column_names base ncols header_present) = Some names ->
  Forall good_name names /\ NoDup names.
Proof.
  unfold choose_column_names. destruct (COLS base) as [target|] eqn:Hc.
  - destruct (truthy target && _).
    + intros [= <-]. now apply (COLS_good base).
    + destruct header_present; [discriminate|]. intros [= <-]. apply auto_names_good.
  - destruct header_present; [discriminate|]. intros [= <-]. apply auto_names_good.
Qed.

Lemma no_names_means_header base ncols header_present :
  fst (choose_column_names base ncols header_present) = None -> header_present = true.
Proof.
  unfold choose_column_names. destruct (COLS base) as [target|].
  - destruct (truthy target && _); [discriminate|]. now destruct header_present.
  - now destruct header_present.
Qed.

Section Written.
Variable csv_fields : string -> list string.
Variable is_na : string -> bool.
Variable header_labels : list string -> list string.
Variable unidecode : string -> string.
Hypothesis header_labels_length : forall h, length (header_labels h) = length h.

(** C8 (amended). The converter does not normalize names. The names it
    imposes, from the fixed list of the kind or the positional ones, are in
    canonical form (lower-case ASCII letters, digits, single underscores
    between them) and distinct; when it keeps the header of the file, the
    columns are named as pandas reads that header. The canonical form is
    what [to_sql_name] of the renaming script returns, and every name that
    [auto_sql_headers] returns is canonical and not empty. *)
Theorem names_written :
  (forall name lines first more,
     rows_of csv_fields lines = first :: more ->
     exists conv art,
       csv_to_parquet csv_fields is_na header_labels name lines = Ok conv /\
       written conv = Some art /\
       match fst (choose_column_names (detect_base_from_filename name) (length first)
                    (looks_like_header (first_line lines))) with
       | Some names =>
           art_columns art = names /\ Forall good_name names /\ NoDup names
       | None => art_columns art = header_labels first
       end) /\
  (forall raw, canonical (to_sql_name unidecode raw) = true) /\
  (forall cols, Forall good_name (auto_sql_headers unidecode cols)).
Proof.
  split; [|split].
  - intros name lines first more Hrows.
    destruct (fst (choose_column_names _ (length first) _)) as [names|] eqn:Hd.
    + destruct (csv_to_parquet_names csv_fields is_na header_labels header_labels_length
                  name lines first more names Hrows Hd) as (conv & Hc & _ & Hw).
      eexists conv, _. split; [exact Hc|]. split; [exact Hw|].
      split; [reflexivity|]. now apply imposed_names_good in Hd.
    + pose proof (no_names_means_header _ _ _ Hd) as Hhp. rewrite Hhp in Hd.
      destruct (csv_to_parquet_header csv_fields is_na header_labels header_labels_length
                  name lines first more Hrows Hhp Hd) as (conv & art & Hc & Hw & Hcols).
      now exists conv, art.
  - apply to_sql_name_canonical.
  - apply auto_sql_headers_good.
Qed.

End Written.

Lemma names_written_witness :
  (exists conv art,
     convert "Cnaes.csv" ["0111301;Cultivo de arroz"] = Ok conv /\
     written conv = Some art /\
     art_columns art = ["codigo"; "descricao"] /\
     Forall good_name ["codigo"; "descricao"] /\ NoDup ["codigo"; "descricao"]) /\
  (exists conv art,
     convert "dados.csv" ["CNPJ;Razao Social"; "1;ACME"] = Ok conv /\
     written conv = Some art /\
     art_columns art = ["CNPJ"; "Razao Social"]) /\
  canonical (to_sql_name plain_unidecode "Razao  Social (R$)") = true /\
  Forall good_name (auto_sql_headers plain_unidecode ["CNPJ"; "Razao Social"; "0"; "CNPJ"]).
Proof.
  destruct (names_written plain_fields plain_na plain_labels plain_unidecode
              (fun h => eq_refl)) as (Hconv & Hsql & Hauto).
  split; [|split; [|split]].
  - exact (Hconv "Cnaes.csv" ["0111301;Cultivo de arroz"]
             ["0111301"; "Cultivo de arroz"] [] eq_refl).
  - exact (Hconv "dados.csv" ["CNPJ;Razao Social"; "1;ACME"]
             ["CNPJ"; "Razao Social"] [["1"; "ACME"]] eq_refl).
  - apply Hsql.
  - apply Hauto.
Defined.

(** The names of the renaming script for that header. *)
Example auto_sql_headers_run :
  auto_sql_headers plain_unidecode ["CNPJ"; "Razao Social"; "0"; "CNPJ"]
  = ["cnpj"; "razao_social"; "col_02"; "cnpj_2"].
Proof. vm_compute. reflexivity. Qed.

(** C8 as stated fails: the header of a file of an unknown kind is kept as it
    is, capitals and blank included; [to_sql_name] would have made other
    names of these. *)
Lemma header_names_not_normalized :
  exists conv art,
    convert "dados.csv" ["CNPJ;Razao Social"; "1;ACME"] = Ok conv /\
    written conv = Some art /\
    art_columns art = ["CNPJ"; "Razao Social"] /\
    map canonical (art_columns art) = [false; false] /\
    map (to_sql_name plain_unidecode) (art_columns art) = ["cnpj"; "razao_social"].
Proof.
  eexists. eexists. split; [vm_compute; reflexivity|]. cbn [written].
  split; [reflexivity|]. repeat split.
Qed.

(** *** The kinds that the file name can give *)

(** No keyword of [DETECT_MAP] occurs in [n]. *)
Definition no_keyword (n : string) : bool :=
  forallb (fun entry => forallb (fun k => negb (contains k n)) (snd entry)) DETECT_MAP.

(** X18. The kind read off a file name is empty exactly when none of the
    keywords occurs in the lower-cased name. Every other answer is a key of
    [COLS]: the detected kind always has its fixed list, of two names at
    least, canonical and distinct. *)
Theorem detect_base_has_columns (name : string) :
  (detect_base_from_filename name = "" <-> no_keyword (lower name) = true) /\
  (detect_base_from_filename name <> "" ->
   exists target,
     COLS (detect_base_from_filename name) = Some target /\
     2 <= length target /\ Forall good_name target /\ NoDup target).
Proof.
  split.
  - unfold detect_base_from_filename, no_keyword, DETECT_MAP.
    cbn [existsb forallb snd]. generalize (lower name). intros n.
    repeat match goal with
           | |- context [contains ?k n] =>
               destruct (contains k n);
               cbn [orb andb negb];
               try (split; intros H; discriminate H)
           end.
    split; reflexivity.
  - intros Hne. destruct (detect_base_known name) as [H|[target Ht]]; [contradiction|].
    exists target. split; [exact Ht|]. split; [now apply (COLS_two _ _ Ht)|].
    now apply (COLS_good _ _ Ht).
Qed.

Lemma detect_base_has_columns_witness :
  exists target,
    COLS (detect_base_from_filename "K3241.K03200Y0.D50712.ESTABELE") = Some target /\
    2 <= length target /\ Forall good_name target /\ NoDup target.
Proof.
  apply (proj2 (detect_base_has_columns "K3241.K03200Y0.D50712.ESTABELE")).
  discriminate.
Defined.

End ColumnNames.

(** ** The orchestrator ([process_one_zip] and [main], [cnpj_ingest_duckdb.py]) *)

Module Pipeline.
Import Text Fetch Index.

(** Computations that read and change the world and may raise. *)
Definition M (A : Type) : Type := world -> result A * world.

Definition ret {A} (a : A) : M A := fun w => (Ok a, w).

Definition bind {A B} (m : M A) (k : A -> M B) : M B :=
  fun w => match m w with
           | (Ok a, w') => k a w'
           | (Raise e, w') => (Raise e, w')
           end.

Notation "'let*' x ':=' m 'in' k" := (bind m (fun x => k))
  (at level 10, x name, m at level 200, k at level 200).
Notation "'do' m 'then' k" := (bind m (fun _ => k))
  (at level 10, m at level 200, k at level 200).

(** [try: body  except Exception as e: print(...)] *)
Definition try_except (body : M unit) : M unit :=
  fun w => (Ok tt, snd (body w)).

(** [for x in xs: body(x)] *)
Fixpoint for_each {A} (xs : list A) (body : A -> M unit) : M unit :=
  match xs with
  | [] => ret tt
  | x :: rest => do body x then for_each rest body
  end.

(** [p.unlink()] on a file that is there. *)
Definition unlink (p : string) : M unit :=
  fun w => (Ok tt, with_files (delete p (files w)) w).

Definition when (b : bool) (m : M unit) : M unit := if b then m else ret tt.

(** What [zipfile.ZipFile(p).testzip()] finds. *)
Variant zip_state : Type :=
  | ZipSound                        (* testzip() returns None *)
  | ZipBadMember (member : string)  (* testzip() names a damaged member *)
  | ZipInvalid.                     (* BadZipFile is raised *)

(** [zip_url.rstrip("/").split("/")[-1]] *)
Definition zip_name_of (zip_url : string) : string :=
  List.last (split_on "/" (Names.rstrip (Ascii.eqb "/") zip_url)) "".

Definition zip_path_of (work_dir zip_url : string) : string :=
  work_dir ++ "/zips/" ++ zip_name_of zip_url.

(** [out_dir / f"{stem}.parquet"] *)
Definition parquet_path_of (out_dir zip_url : string) : string :=
  out_dir ++ "/" ++ Unzip.stem (Unzip.parse (zip_name_of zip_url)) ++ ".parquet".

Record args : Type := {
  base_url : string;
  work_dir : string;
  out_dir : string;
  keep_zip : bool;
  keep_csv : bool;
  filter : string;
  limit : Z
}.

Section Orchestrator.

(** The remote source, and what the libraries do: [urljoin], which raises on
    a reference it cannot parse; [re.search] with [re.IGNORECASE], whether
    there is a match, which raises [re.error] on a pattern that does not
    compile; the integrity test of an archive; and the two stages that follow
    the download, which read and write files. *)
Variable srv : server.
Variable urljoin : string -> string -> result string.
Variable re_search : string -> string -> result bool.
Variable testzip : list byte -> zip_state.
Variable unzip_single_csv : string -> string -> M string.
Variable csv_to_parquet_with_duckdb : string -> string -> M unit.

Definition fetch (zip_url zip_path : string) : M unit :=
  do download_file srv zip_url zip_path then ret tt.

Definition process_one_zip (zip_url work_dir out_dir : string)
    (keep_zip keep_csv : bool) : M unit :=
  let zip_path := zip_path_of work_dir zip_url in
  let csv_dir := (work_dir ++ "/csv_tmp")%string in
  let parquet_path := parquet_path_of out_dir zip_url in
  fun w =>
    if exists_file parquet_path w then (Ok tt, w)      (* [SKIP] *)
    else
      ((* 1) download, unless a sound archive is there *)
       do (fun w =>
             match files w !! zip_path with
             | Some content =>
                 match testzip content with
                 | ZipSound => ret tt w
                 | ZipBadMember _ | ZipInvalid =>
                     (do unlink zip_path then fetch zip_url zip_path) w
                 end
             | None => fetch zip_url zip_path w
             end) then
       (* 2) unzip, 3) csv -> parquet *)
       let* csv_path := unzip_single_csv zip_path csv_dir in
       do csv_to_parquet_with_duckdb csv_path parquet_path then
       (* 4) cleaning *)
       do (fun w => when (negb keep_csv && exists_file csv_path w) (unlink csv_path) w) then
       (fun w => when (negb keep_zip && exists_file zip_path w) (unlink zip_path) w)) w.

(** The archives that a run goes through: the filter, then the limit. The
    filter is applied outside any [try]: an exception of [re.search] ends the
    run, and so does [sys.exit(0)] when nothing is left. *)
Definition chosen (a : args) (zips : list string) : result (list string) :=
  let kept := if String.eqb (filter a) "" then Ok zips
              else filter_result (re_search (filter a)) zips in
  match kept with
  | Raise e => Raise e
  | Ok [] => Raise (SystemExit 0)
  | Ok (z :: zs) =>
      Ok (if (0 <? limit a)%Z then firstn (Z.to_nat (limit a)) (z :: zs) else z :: zs)
  end.

Definition main (a : args) : M unit :=
  let* zips := list_zip_links urljoin srv (base_url a) in
  let* zips := (fun w => (chosen a zips, w)) in
  for_each zips
    (fun zip_url =>
       try_except (process_one_zip zip_url (work_dir a) (out_dir a)
                     (keep_zip a) (keep_csv a))).

(** *** Properties of the orchestrator *)

Lemma process_one_zip_skip zip_url work out kz kc (w : world) :
  exists_file (parquet_path_of out zip_url) w = true ->
  process_one_zip zip_url work out kz kc w = (Ok tt, w).
Proof. intros H. unfold process_one_zip. cbn zeta. now rewrite H. Qed.

(** A loop over archives that are all done changes nothing. *)
Lemma for_each_done work out kz kc (zips : list string) (w : world) :
  Forall (fun z => exists_file (parquet_path_of out z) w = true) zips ->
  for_each zips (fun z => try_except (process_one_zip z work out kz kc)) w = (Ok tt, w).
Proof.
  induction zips as [|z rest IH]; intros Hall; cbn [for_each]; [reflexivity|].
  apply Forall_cons in Hall as [Hz Hrest].
  unfold bind, try_except at 1. rewrite (process_one_zip_skip _ _ _ _ _ _ Hz).
  cbn [snd]. now apply IH.
Qed.

(** A run over archives that are all done: the listing is fetched, and that
    is all. *)
Lemma main_all_done (a : args) (w : world) (zips selected : list string) :
  fst (list_zip_links urljoin srv (base_url a) w) = Ok zips ->
  chosen a zips = Ok selected ->
  Forall (fun z => exists_file (parquet_path_of (out_dir a) z) w = true) selected ->
  main a w = (Ok tt, send {| req_url := base_url a; req_range := None |} w).
Proof.
  intros Hlist Hsel Hdone. unfold main, bind.
  pose proof (list_zip_links_world urljoin srv (base_url a) w) as Hw.
  destruct (list_zip_links urljoin srv (base_url a) w) as [r w'].
  cbn [fst snd] in Hlist, Hw. subst r w'. rewrite Hsel.
  now apply for_each_done.
Qed.

(** C4 (amended). An archive whose artifact exists is skipped before any
    download, extraction or conversion: nothing is requested and no file
    changes. A run over archives that all have their artifact leaves every
    file as it is, and its only network activity is the one request for the
    listing. *)
Theorem rerun_skips_done (a : args) (w : world) :
  (forall zip_url,
     exists_file (parquet_path_of (out_dir a) zip_url) w = true ->
     process_one_zip zip_url (work_dir a) (out_dir a) (keep_zip a) (keep_csv a) w
     = (Ok tt, w)) /\
  (forall zips selected,
     fst (list_zip_links urljoin srv (base_url a) w) = Ok zips ->
     chosen a zips = Ok selected ->
     Forall (fun z => exists_file (parquet_path_of (out_dir a) z) w = true) selected ->
     main a w = (Ok tt, send {| req_url := base_url a; req_range := None |} w)).
Proof.
  split.
  - intros zip_url. apply process_one_zip_skip.
  - intros zips selected. apply main_all_done.
Qed.

(** *** Failures, the choice of archives, and cleaning *)

Lemma for_each_try_ok (zips : list string) (body : string -> M unit) : forall w,
  fst (for_each zips (fun z => try_except (body z)) w) = Ok tt.
Proof.
  induction zips as [|z rest IH]; intros w; cbn [for_each]; [reflexivity|].
  unfold bind, try_except at 1. apply IH.
Qed.

Lemma filter_result_sublist {A} (p : A -> result bool) (xs : list A) : forall ys,
  filter_result p xs = Ok ys ->
  sublist ys xs /\ Forall (fun x => p x = Ok true) ys.
Proof.
  induction xs as [|x xs IH]; intros ys; cbn [filter_result].
  - intros [= <-]. split; constructor.
  - destruct (p x) as [[|]|] eqn:Hx; [| |discriminate];
      (destruct (filter_result p xs) as [ys'|]; [|discriminate]);
      intros [= <-]; destruct (IH ys' eq_refl) as [Hs Hf].
    + split; [now constructor|now constructor].
    + split; [now constructor|exact Hf].
Qed.

(** X14. A run is stopped only before its loop: [main] raises when
    [list_zip_links] does, with the same exception, when the filter cannot be
    searched (the exception of [re.search]), and when the filter leaves no
    archive ([SystemExit] with status 0). Once the archives are chosen the
    run ends normally whatever happens to any of them, each failure being
    caught before the next archive is taken. *)
Theorem main_raises_before_the_loop (a : args) (w : world) :
  fst (main a w)
  = match fst (list_zip_links urljoin srv (base_url a) w) with
    | Raise e => Raise e
    | Ok zips => match chosen a zips with Raise e => Raise e | Ok _ => Ok tt end
    end /\
  (forall zips e,
     chosen a zips = Raise e <->
     (filter a <> "" /\ filter_result (re_search (filter a)) zips = Raise e) \/
     (e = SystemExit 0 /\
      (if String.eqb (filter a) "" then Ok zips
       else filter_result (re_search (filter a)) zips) = Ok [])).
Proof.
  split.
  - unfold main, bind.
    destruct (list_zip_links urljoin srv (base_url a) w) as [[zips|e0] w'];
      cbn [fst]; [|reflexivity].
    destruct (chosen a zips) as [selected|e]; [|reflexivity].
    apply for_each_try_ok.
  - intros zips e. unfold chosen. cbn zeta.
    destruct (String.eqb (filter a) "") eqn:Hf.
    + destruct zips as [|z zs].
      * split; [intros [= <-]; now right|]. intros [[Hne _]|[-> _]]; [|reflexivity].
        apply String.eqb_eq in Hf. contradiction.
      * split; [discriminate|]. intros [[Hne _]|[_ H]]; [|discriminate].
        apply String.eqb_eq in Hf. contradiction.
    + apply String.eqb_neq in Hf.
      destruct (filter_result (re_search (filter a)) zips) as [[|z zs]|e'].
      * split; [intros [= <-]; now right|]. intros [[_ H]|[-> _]]; [discriminate|reflexivity].
      * split; [discriminate|]. intros [[_ H]|[_ H]]; discriminate.
      * split; [intros [= ->]; now left|]. intros [[_ H]|[_ H]]; [exact H|discriminate].
Qed.

(** X15. The archives of a run are taken from the listing in its order,
    none more often than listed: when the choice is made, it is a sub-list of
    the listing and not empty, of at most [limit] archives when the limit is
    positive, each matching the filter when there is one; without filter and
    with a limit of zero or less it is the whole listing. *)
Theorem chosen_is_a_sublist (a : args) (zips selected : list string) :
  chosen a zips = Ok selected ->
  sublist selected zips /\ selected <> [] /\
  ((0 < limit a)%Z -> length selected <= Z.to_nat (limit a)) /\
  (filter a <> "" -> Forall (fun z => re_search (filter a) z = Ok true) selected) /\
  (filter a = "" -> (limit a <= 0)%Z -> selected = zips).
Proof.
  unfold chosen. cbn zeta.
  destruct (if String.eqb (filter a) "" then Ok zips
            else filter_result (re_search (filter a)) zips) as [[|z kept]|e] eqn:Hkept;
    [discriminate| |discriminate].
  intros [= <-].
  assert (Hsub : sublist (z :: kept) zips).
  { destruct (String.eqb (filter a) ""); [now injection Hkept as ->|].
    now apply filter_result_sublist in Hkept. }
  assert (Hfil : filter a <> "" ->
                 Forall (fun z => re_search (filter a) z = Ok true) (z :: kept)).
  { intros Hne. apply String.eqb_neq in Hne. rewrite Hne in Hkept.
    now apply filter_result_sublist in Hkept. }
  split; [|split; [|split; [|split]]].
  - destruct (0 <? limit a)%Z; [|exact Hsub].
    etransitivity; [apply sublist_take|exact Hsub].
  - destruct (Z.ltb_spec 0 (limit a)); [|discriminate].
    destruct (Z.to_nat (limit a)) eqn:Hn; [lia|discriminate].
  - intros Hpos. apply Z.ltb_lt in Hpos. rewrite Hpos. rewrite length_take. lia.
  - intros Hne. specialize (Hfil Hne).
    destruct (0 <? limit a)%Z; [|exact Hfil]. now apply Forall_take.
  - intros Hno Hlim. rewrite Hno in Hkept. cbn [String.eqb] in Hkept.
    injection Hkept as ->. destruct (Z.ltb_spec 0 (limit a)); [lia|reflexivity].
Qed.

(** A sequence that ends normally went through its first step. *)
Lemma bind_ok {A B} (m : M A) (k : A -> M B) (w : world) (r : B) :
  fst (bind m k w) = Ok r ->
  exists x w1, m w = (Ok x, w1) /\ bind m k w = k x w1.
Proof.
  unfold bind. destruct (m w) as [[x|e] w1]; [|discriminate]. eauto.
Qed.

(** X16. When an archive is converted without [keep_zip], its file is gone
    from the working directory at the end: the cleaning is the last step and
    removes the archive if it is there. *)
Theorem archive_removed_after_success (zip_url work out : string) (kc : bool)
    (w : world) :
  exists_file (parquet_path_of out zip_url) w = false ->
  fst (process_one_zip zip_url work out false kc w) = Ok tt ->
  files (snd (process_one_zip zip_url work out false kc w)) !! zip_path_of work zip_url
  = None.
Proof.
  intros Hnew. unfold process_one_zip. cbn zeta. rewrite Hnew. intros Hok.
  destruct (bind_ok _ _ _ _ Hok) as (x1 & w1 & _ & E1). rewrite E1 in Hok |- *.
  destruct (bind_ok _ _ _ _ Hok) as (csv_path & w2 & _ & E2). rewrite E2 in Hok |- *.
  destruct (bind_ok _ _ _ _ Hok) as (x3 & w3 & _ & E3). rewrite E3 in Hok |- *.
  destruct (bind_ok _ _ _ _ Hok) as (x4 & w4 & _ & E4). rewrite E4 in Hok |- *.
  cbn [negb andb]. unfold when.
  destruct (exists_file (zip_path_of work zip_url) w4) eqn:Hz.
  - cbn [unlink snd files with_files]. apply lookup_delete_eq.
  - cbn [ret snd]. unfold exists_file in Hz. apply bool_decide_eq_false in Hz.
    now apply eq_None_not_Some.
Qed.

End Orchestrator.

(** *** A run of the pipeline, twice *)

(** A source with a listing of one archive, and stages that copy the bytes
    along: enough to follow the files and the requests of two runs. *)
Definition listing_url : string := "http://rf/2025-07/".

Definition listing_page : string :=
  "<a href=" ++ String dquote ("Cnaes.zip" ++ String dquote ">Cnaes.zip</a>").

Definition archive_bytes : list byte := [x50; x4b; x03; x04].

Definition toy_server : server :=
  fun r =>
    if String.eqb (req_url r) listing_url
    then Response 200 [list_byte_of_string listing_page] true
    else if String.eqb (req_url r) "http://rf/2025-07/Cnaes.zip"
         then Response 200 [archive_bytes] true
         else Response 404 [] true.

Definition toy_urljoin (base href : string) : result string := Ok (base ++ href)%string.

(** A pattern of plain letters is found where it occurs, letter case apart;
    an unbalanced parenthesis is no pattern. *)
Definition toy_search (pattern s : string) : result bool :=
  if String.eqb pattern "(" then Raise (ReError "missing ), unterminated subpattern")
  else Ok (contains (lower pattern) (lower s)).

Definition toy_unzip (zip_path csv_dir : string) : M string :=
  fun w =>
    match files w !! zip_path with
    | Some content =>
        let csv_path := (csv_dir ++ "/data.csv")%string in
        (Ok csv_path, with_files (<[csv_path := content]> (files w)) w)
    | None => (Raise (FileNotFoundError zip_path), w)
    end.

Definition toy_convert (csv_path parquet_path : string) : M unit :=
  fun w =>
    match files w !! csv_path with
    | Some content => (Ok tt, with_files (<[parquet_path := content]> (files w)) w)
    | None => (Raise (FileNotFoundError csv_path), w)
    end.

Definition toy_args : args :=
  {| base_url := listing_url; work_dir := "/work"; out_dir := "/out";
     keep_zip := false; keep_csv := false; filter := ""; limit := 0 |}.

Definition toy_main : M unit :=
  main toy_server toy_urljoin toy_search (fun _ => ZipSound) toy_unzip toy_convert toy_args.

Definition listing_request : request := {| req_url := listing_url; req_range := None |}.

(** The world after a first run from nothing. *)
Definition after_first_run : world := snd (toy_main empty_world).

Lemma rerun_skips_done_witness :
  process_one_zip toy_server (fun _ => ZipSound) toy_unzip toy_convert
    "http://rf/2025-07/Cnaes.zip" "/work" "/out" false false after_first_run
  = (Ok tt, after_first_run) /\
  toy_main after_first_run = (Ok tt, send listing_request after_first_run).
Proof.
  destruct (rerun_skips_done toy_server toy_urljoin toy_search (fun _ => ZipSound)
              toy_unzip toy_convert toy_args after_first_run) as [Hone Hall].
  split.
  - apply Hone. vm_compute. reflexivity.
  - apply (Hall ["http://rf/2025-07/Cnaes.zip"] ["http://rf/2025-07/Cnaes.zip"]).
    + vm_compute. reflexivity.
    + reflexivity.
    + constructor; [vm_compute; reflexivity|constructor].
Defined.

(** The first run downloads and converts the archive; its artifact is there
    afterwards and the intermediate files are gone. *)
Lemma first_run :
  sent after_first_run
    = [listing_request; {| req_url := "http://rf/2025-07/Cnaes.zip"; req_range := None |}] /\
  map_to_list (files after_first_run) = [("/out/Cnaes.parquet", archive_bytes)].
Proof. split; vm_compute; reflexivity. Qed.

Lemma second_run :
  toy_main after_first_run = (Ok tt, send listing_request after_first_run).
Proof.
  apply (main_all_done toy_server toy_urljoin toy_search (fun _ => ZipSound)
           toy_unzip toy_convert toy_args after_first_run
           ["http://rf/2025-07/Cnaes.zip"] ["http://rf/2025-07/Cnaes.zip"]).
  - vm_compute. reflexivity.
  - reflexivity.
  - constructor; [vm_compute; reflexivity|constructor].
Qed.

(** C4 as stated fails: the second run leaves the artifact of the first as it
    is and downloads no archive, but it does ask for the listing again. *)
Lemma second_run_fetches_listing :
  let w2 := snd (toy_main after_first_run) in
  fst (toy_main after_first_run) = Ok tt /\
  files after_first_run !! "/out/Cnaes.parquet" = Some archive_bytes /\
  files w2 = files after_first_run /\
  sent w2 = sent after_first_run ++ [listing_request] /\
  sent w2 <> sent after_first_run.
Proof.
  cbn zeta. pose proof second_run as H.
  destruct (toy_main after_first_run) as [r w2]. injection H as -> ->.
  cbn [fst snd files sent send].
  split; [reflexivity|]. split; [vm_compute; reflexivity|].
  split; [reflexivity|]. split; [reflexivity|].
  destruct first_run as [-> _]. discriminate.
Qed.

Lemma archive_removed_after_success_witness :
  files
    (snd (process_one_zip toy_server (fun _ => ZipSound) toy_unzip toy_convert
            "http://rf/2025-07/Cnaes.zip" "/work" "/out" false false empty_world))
    !! "/work/zips/Cnaes.zip" = None.
Proof.
  apply (archive_removed_after_success toy_server (fun _ => ZipSound) toy_unzip
           toy_convert "http://rf/2025-07/Cnaes.zip" "/work" "/out" false empty_world);
    vm_compute; reflexivity.
Defined.

(** A run whose filter is no pattern, and a run whose filter matches no
    archive. *)
Example main_stops_at_the_filter :
  let bad := {| base_url := listing_url; work_dir := "/work"; out_dir := "/out";
                keep_zip := false; keep_csv := false; filter := "("; limit := 0 |} in
  let none := {| base_url := listing_url; work_dir := "/work"; out_dir := "/out";
                 keep_zip := false; keep_csv := false; filter := "socios"; limit := 0 |} in
  fst (main toy_server toy_urljoin toy_search (fun _ => ZipSound) toy_unzip toy_convert
         bad empty_world)
  = Raise (ReError "missing ), unterminated subpattern") /\
  fst (main toy_server toy_urljoin toy_search (fun _ => ZipSound) toy_unzip toy_convert
         none empty_world)
  = Raise (SystemExit 0).
Proof. split; vm_compute; reflexivity. Qed.

Lemma chosen_is_a_sublist_witness :
  let a := {| base_url := listing_url; work_dir := "/work"; out_dir := "/out";
              keep_zip := false; keep_csv := false; filter := "socios";
              limit := 1 |} in
  let zips := ["http://rf/Cnaes.zip"; "http://rf/Socios0.zip"; "http://rf/Socios1.zip"] in
  sublist ["http://rf/Socios0.zip"] zips /\
  length ["http://rf/Socios0.zip"] <= 1 /\
  Forall (fun z => toy_search "socios" z = Ok true) ["http://rf/Socios0.zip"].
Proof.
  intros a zips.
  destruct (chosen_is_a_sublist toy_search a zips ["http://rf/Socios0.zip"] eq_refl)
    as (Hsub & _ & Hlim & Hfil & _).
  split; [exact Hsub|]. split; [apply Hlim; reflexivity|apply Hfil; discriminate].
Defined.

End Pipeline.

(** ** The choice of new names ([decidir_novos_nomes], [renomear_colunas.py]) *)

Module Rename.
Import Text Names.

(** [os.path.basename] on POSIX: what follows the last slash. *)
Definition basename (path : string) : string := List.last (split_on "/" path) "".

(** [os.path.splitext(name)[0]]: the name up to its last dot, when a
    character other than a dot comes before that dot. *)
Definition splitext_root (name : string) : string :=
  match Unzip.from_last_dot name with
  | Some ext =>
      let stem := Unzip.prefix (String.length name - String.length ext) name in
      if any_char (fun c => negb (Ascii.eqb c ".")) stem then stem else name
  | None => name
  end.

(** [MAPAS]: the official names by kind; the three main tables have no
    entry of their own ([None]). *)
Definition SOCIOS_SQL : list string :=
  ["cnpj_basico"; "identificador_socio"; "nome_socio_ou_razao_social";
   "cnpj_cpf_socio"; "qualificacao_socio"; "data_entrada_sociedade"; "pais";
   "representante_legal"; "nome_representante"; "qualificacao_representante_legal";
   "faixa_etaria"].

Definition MAPAS_items : list (string * option (list string)) :=
  [ ("socios", Some SOCIOS_SQL);
    ("paises", Some ["codigo"; "descricao"]);
    ("municipios", Some ["codigo"; "descricao"]);
    ("qualificacoes", Some ["codigo"; "descricao"]);
    ("naturezas", Some ["codigo"; "descricao"]);
    ("cnaes", Some ["codigo"; "descricao"]);
    ("empresas", None);
    ("estabelecimentos", None);
    ("simples", None) ].

(** [MAPAS.get(base)]: [None] for a missing key and for a [None] value. *)
Definition MAPAS (base : string) : option (list string) :=
  match Schema.dict_get MAPAS_items base with
  | Some v => v
  | None => None
  end.

Section Decide.
Variable unidecode : string -> string.

Definition normaliza_nome_arquivo (path : string) : string :=
  lower (unidecode (splitext_root (basename path))).

Definition detectar_base (path : string) : string :=
  let b := normaliza_nome_arquivo path in
  if contains "socios" b || contains (with_latin1 "s" 243 "cios") b then "socios"
  else if contains "paises" b || contains (with_latin1 "pa" 237 "ses") b
          || contains "pais" b then "paises"
  else if contains "municipios" b || contains (with_latin1 "munic" 237 "pios") b
          || contains "municipio" b then "municipios"
  else if contains "qualificacoes" b
          || contains (with_latin1 "qualifica" 231 (with_latin1 "" 245 "es")) b
       then "qualificacoes"
  else if contains "naturezas" b then "naturezas"
  else if contains "cnaes" b || contains "cnae" b then "cnaes"
  else if contains "empresas" b then "empresas"
  else if contains "estabelec" b then "estabelecimentos"
  else if contains "simples" b then "simples"
  else "".

(** The three kinds that are left alone unless asked for. *)
Definition main_table (base : string) : bool :=
  existsb (String.eqb base) ["empresas"; "estabelecimentos"; "simples"].

(** [decidir_novos_nomes]: the new names ([None]: the file is skipped) and
    the kind; [names] is [schema.names]. *)
Definition decidir_novos_nomes (path : string) (names : list string)
    (include_ees : bool) : option (list string) * string :=
  let base := detectar_base path in
  if main_table base && negb include_ees then (None, base)
  else
    match MAPAS base with
    | Some alvo =>
        if Schema.truthy alvo && (length alvo =? length names)%nat
        then (Some alvo, base)
        else (Some (auto_sql_headers unidecode names), base)
    | None => (Some (auto_sql_headers unidecode names), base)
    end.

Lemma auto_names_from_length (cols : list string) : forall i,
  length (auto_names_from unidecode i cols) = length cols.
Proof.
  induction cols as [|c rest IH]; intros i; cbn [auto_names_from length];
    [reflexivity|]. now rewrite IH.
Qed.

Lemma auto_sql_headers_length (cols : list string) :
  length (auto_sql_headers unidecode cols) = length cols.
Proof.
  unfold auto_sql_headers, unique. now rewrite unique_from_length, auto_names_from_length.
Qed.

Lemma MAPAS_good base alvo : MAPAS base = Some alvo -> Forall good_name alvo.
Proof.
  unfold MAPAS. destruct (Schema.dict_get MAPAS_items base) as [v|] eqn:H; [|discriminate].
  intros ->. apply Schema.dict_get_In in H. unfold MAPAS_items in H.
  repeat (destruct H as [H|H];
          [first [discriminate H
                 |injection H as <- <-; unfold good_name;
                  apply (bool_decide_unpack _); vm_compute; exact I]|]).
  destruct H.
Qed.

(** X17. [decidir_novos_nomes] skips a file exactly when it is one of the
    three main tables and they were not asked for. In every other case it
    gives one new name for each column of the file, whichever branch it
    takes, and every new name is in canonical form and not empty. *)
Theorem decidir_novos_nomes_covers_columns (path : string) (names : list string)
    (include_ees : bool) :
  (fst (decidir_novos_nomes path names include_ees) = None
   <-> main_table (detectar_base path) = true /\ include_ees = false) /\
  (forall novos, fst (decidir_novos_nomes path names include_ees) = Some novos ->
     length novos = length names /\ Forall good_name novos).
Proof.
  unfold decidir_novos_nomes. cbn zeta.
  set (renamed := match MAPAS (detectar_base path) with
                  | Some alvo =>
                      if Schema.truthy alvo && (length alvo =? length names)%nat
                      then (Some alvo, detectar_base path)
                      else (Some (auto_sql_headers unidecode names), detectar_base path)
                  | None => (Some (auto_sql_headers unidecode names), detectar_base path)
                  end).
  assert (Hrenamed : exists novos, fst renamed = Some novos /\
                       length novos = length names /\ Forall good_name novos).
  { subst renamed.
    pose proof (auto_sql_headers_length names) as Hlen.
    pose proof (auto_sql_headers_good unidecode names) as Hgood.
    destruct (MAPAS (detectar_base path)) as [alvo|] eqn:Hm; [|eauto].
    destruct (Schema.truthy alvo && (length alvo =? length names)%nat) eqn:Hfit; [|eauto].
    apply andb_true_iff in Hfit as [_ Hfit]. apply Nat.eqb_eq in Hfit.
    exists alvo. cbn [fst]. repeat split; [exact Hfit|now apply (MAPAS_good _ _ Hm)]. }
  destruct Hrenamed as (novos0 & Hfst & Hlen & Hgood).
  destruct (main_table (detectar_base path)); destruct include_ees; cbn [negb andb].
  - rewrite Hfst. split; [split; [discriminate|intros [_ [=]]]|].
    now intros novos [= <-].
  - cbn [fst]. split; [split; auto|discriminate].
  - rewrite Hfst. split; [split; [discriminate|intros [[=] _]]|].
    now intros novos [= <-].
  - rewrite Hfst. split; [split; [discriminate|intros [[=] _]]|].
    now intros novos [= <-].
Qed.

End Decide.

Lemma decidir_novos_nomes_covers_columns_witness :
  length (auto_sql_headers plain_unidecode ["Column A"; "0"; "Column A"]) = 3 /\
  Forall good_name (auto_sql_headers plain_unidecode ["Column A"; "0"; "Column A"]).
Proof.
  apply (proj2 (decidir_novos_nomes_covers_columns plain_unidecode
                  "parquet/Motivos.parquet" ["Column A"; "0"; "Column A"] false)).
  reflexivity.
Defined.

(** The names decided for a file of partners and for a file of an unknown
    kind. *)
Example decidir_novos_nomes_run :
  decidir_novos_nomes plain_unidecode "parquet/Socios3.parquet"
    ["0"; "1"; "2"; "3"; "4"; "5"; "6"; "7"; "8"; "9"; "10"] false
  = (Some SOCIOS_SQL, "socios") /\
  decidir_novos_nomes plain_unidecode "parquet/Empresas1.parquet" ["0"; "1"] false
  = (None, "empresas") /\
  decidir_novos_nomes plain_unidecode "parquet/Motivos.parquet"
    ["Column A"; "0"; "Column A"] false
  = (Some ["column_a"; "col_01"; "column_a_2"], "").
Proof. vm_compute. auto. Qed.

(** *** The schema that is written *)

(** [[pa.field(novos_nomes[i], old_schema.types[i]) for i in range(len(old_schema))]]
    of [renomear_parquet_streaming]: a name that is missing raises
    [IndexError]. *)
Fixpoint new_fields {T} (novos_nomes : list string) (i : nat) (types : list T)
  : result (list (string * T)) :=
  match types with
  | [] => Ok []
  | ty :: rest =>
      match novos_nomes !! i with
      | None => Raise (OtherError "IndexError")
      | Some n =>
          match new_fields novos_nomes (S i) rest with
          | Ok fields => Ok ((n, ty) :: fields)
          | Raise e => Raise e
          end
      end
  end.

Lemma new_fields_from {T} (types : list T) : forall (novos : list string) (i : nat),
  i + length types <= length novos ->
  new_fields novos i types = Ok (zip (drop i novos) types).
Proof.
  induction types as [|ty rest IH]; intros novos i Hlen; cbn [new_fields length] in *.
  - now destruct (drop i novos).
  - destruct (novos !! i) as [n|] eqn:Hn.
    + rewrite IH by lia. rewrite (drop_S _ _ _ Hn). reflexivity.
    + apply lookup_ge_None in Hn. lia.
Qed.

Lemma new_fields_short {T} (types : list T) : forall (novos : list string) (i : nat),
  i <= length novos < i + length types ->
  exists e, new_fields novos i types = Raise e.
Proof.
  induction types as [|ty rest IH]; intros novos i Hlen; cbn [new_fields length] in *.
  - lia.
  - destruct (novos !! i) as [n|] eqn:Hn; [|eauto].
    apply lookup_lt_Some in Hn.
    destruct (IH novos (S i)) as [e ->]; [lia|eauto].
Qed.

(** X20. The new schema has the new names in order, each with the type of
    the old column at its place, when there is a name for every column, and
    building it raises when a name is missing. With the names of
    [decidir_novos_nomes], one for each column, it never raises. *)
Theorem new_fields_keeps_types {T} (unidecode : string -> string)
    (path : string) (old_schema : list (string * T)) (include_ees : bool) :
  (forall novos,
     length (map snd old_schema) <= length novos ->
     new_fields novos 0 (map snd old_schema)
     = Ok (zip novos (map snd old_schema))) /\
  (forall novos,
     length novos < length (map snd old_schema) ->
     exists e, new_fields novos 0 (map snd old_schema) = Raise e) /\
  (forall novos,
     fst (decidir_novos_nomes unidecode path (map fst old_schema) include_ees)
     = Some novos ->
     new_fields novos 0 (map snd old_schema) = Ok (zip novos (map snd old_schema))).
Proof.
  split; [|split].
  - intros novos Hlen. now rewrite new_fields_from.
  - intros novos Hlen. apply new_fields_short. lia.
  - intros novos Hdec.
    pose proof (auto_sql_headers_length unidecode (map fst old_schema)) as Hauto.
    assert (Hlen : length novos = length (map fst old_schema)).
    { revert Hdec. unfold decidir_novos_nomes. cbn zeta.
      destruct (main_table _ && negb include_ees); [discriminate|].
      destruct (MAPAS _) as [alvo|]; [|now intros [= <-]].
      destruct (Schema.truthy alvo && (length alvo =? _)%nat) eqn:Hfit;
        [|now intros [= <-]].
      intros [= <-]. apply andb_true_iff in Hfit as [_ Hfit]. now apply Nat.eqb_eq. }
    rewrite new_fields_from; [reflexivity|]. rewrite !length_map in *. lia.
Qed.

Lemma new_fields_keeps_types_witness :
  new_fields ["codigo"; "descricao"] 0 ["string"; "int64"]
  = Ok [("codigo", "string"); ("descricao", "int64")] /\
  exists e, new_fields ["codigo"] 0 ["string"; "int64"] = Raise e.
Proof.
  destruct (new_fields_keeps_types plain_unidecode "Cnaes.parquet"
              [("0", "string"); ("1", "int64")] false) as (Hok & Hshort & _).
  split.
  - apply (Hok ["codigo"; "descricao"]). cbn. lia.
  - apply (Hshort ["codigo"]). cbn. lia.
Defined.

End Rename.
